(** * Runtime entries of the Dart VM code generator (runtime/vm/code_generator.cc)

    A shallow embedding of the runtime entries of [code_generator.cc] that
    the specification makes promises about: the subtype-test cache
    ([OptimizeTypeArguments], [UpdateTypeTestCache], [Instanceof],
    [TypeCheck]), the noSuchMethod fallback ([InstanceFunctionLookup]), the
    adaptive optimizer ([CanOptimizeFunction], [StackOverflow]) and the lazy
    deoptimizer ([DeoptimizeAt], [DeoptimizeAll], [DeoptimizeIfOwner],
    [DeoptimizeCopyFrame], [DeoptimizeFillFrame], [DeoptimizeMaterialize]).
    Beside them: the entry of a function that got hot
    ([OptimizeInvokedFunction]), the inline-cache miss handlers
    ([ResolveCompileInstanceCallTarget], [InlineCacheMissHandler] and its
    three entries, [StaticCallMissHandlerTwoArgs]), [CopySavedRegisters],
    [ContainsCid], and two allocation entries ([CloneContext],
    [AllocateObjectWithBoundsCheck]).

    Conventions of the embedding.
    - Heap objects are referred to by their raw pointer ([RawObject], a [Z]);
      [raw() == raw()] in the source is equality of these numbers.  Mutable
      objects live in stores ([gmap RawObject _]) so that two handles on one
      object see each other's writes.
    - [ASSERT(...)] is a debug-build check; the embedding follows the release
      build, where it expands to nothing.  Each one is kept as a comment at
      the place where the source has it.
    - The [FLAG_trace_*] switches only print; they are taken at their default
      ([false]) and [OS::PrintErr] output is not part of the state.
    - Collaborators that are not part of this file (object model, compiler,
      resolver, embedder callbacks) are type classes ([ObjectModel],
      [Runtime], [Linker], [Embedder], [Target]) the sections take as context; the
      small operations of object.cc and code_patcher.cc the entries rest on
      are modelled from the specification and marked as such.
    - Part I has the definitions, Part II the theorems, Part III the
      theorems run on the concrete states of [Examples]. *)

From Stdlib Require Import ZArith String Ascii Bool Lia.
From stdpp Require Import base option list gmap strings.

Local Open Scope Z_scope.

(** ** Raw objects, errors, exceptions, outcomes *)

Abbreviation RawObject := Z (only parsing).
Definition null : RawObject := 0.
Definition IsNull (r : RawObject) : bool := r =? null.

(** An [Error] handle: [None] is [Error::null()], [Some msg] an error whose
    [ToErrorCString()] is [msg]. *)
Definition Error : Type := option string.

(** A [String] handle; [String::Handle()] is the null string. *)
Definition DartString : Type := option string.

(** What [Exceptions::...] can raise out of a runtime entry. *)
Inductive Exception : Type :=
| TypeError (location : Z) (src_type_name dst_type_name dst_name : DartString)
    (bound_error_message : DartString)
| StackOverflowError (exception : RawObject)
| PropagatedError (error : string).

(** The ways a runtime entry can end.  [Returns] and [Throws] carry the state
    the entry leaves behind; [Aborts] is [FATAL]/[UNIMPLEMENTED], [Crashes] a
    dereference of a null or dangling pointer, [OutOfFuel] a loop that has not
    finished within the fuel it was given. *)
Inductive Outcome (S A : Type) : Type :=
| Returns (a : A) (s : S)
| Throws (e : Exception) (s : S)
| Aborts
| Crashes
| OutOfFuel.
Arguments Returns {S A} a s.
Arguments Throws {S A} e s.
Arguments Aborts {S A}.
Arguments Crashes {S A}.
Arguments OutOfFuel {S A}.

Definition bind {S A B : Type} (m : Outcome S A) (k : A -> S -> Outcome S B)
  : Outcome S B :=
  match m with
  | Returns a s => k a s
  | Throws e s => Throws e s
  | Aborts => Aborts
  | Crashes => Crashes
  | OutOfFuel => OutOfFuel
  end.

(** [deref (store !! r)]: read through a handle; a dangling one crashes. *)
Definition deref {S A B : Type} (o : option A) (k : A -> Outcome S B)
  : Outcome S B :=
  match o with
  | Some a => k a
  | None => Crashes
  end.

(** The state an entry leaves for the code that runs next: a thrown exception
    unwinds to a handler in managed code, which goes on running; nothing
    follows an entry that aborts, crashes or does not finish. *)
Definition world_after {S A : Type} (o : Outcome S A) : option S :=
  match o with
  | Returns _ s => Some s
  | Throws _ s => Some s
  | Aborts | Crashes | OutOfFuel => None
  end.

(** Whether an outcome is a normal return. *)
Definition returns {S A : Type} (o : Outcome S A) : bool :=
  match o with
  | Returns _ _ => true
  | _ => false
  end.

(** The flags of [code_generator.cc] that change what the entries do
    ([DEFINE_FLAG] and [DECLARE_FLAG] at the top of the file). *)
Class Flags : Type := mkFlags {
  FLAG_max_subtype_cache_entries : Z;
  FLAG_deoptimization_counter_threshold : Z;
  FLAG_optimization_filter : option string;
  FLAG_stop_on_excessive_deoptimization : bool;
  FLAG_use_osr : bool
}.

(** A Dart frame as the stack walker exposes it: the pc it will resume at,
    the code object the pc lies in, and the token position of the pc. *)
Record StackFrame : Type := mkStackFrame {
  pc : Z;
  LookupDartCode : RawObject;
  GetTokenPos : Z
}.

(** ** Type engine: the subtype-test cache *)

Module TypeEngine.

Record Class : Type := mkClass {
  id : Z;
  NumTypeArguments : Z
}.

Record Instance : Type := mkInstance {
  clazz : Class;
  GetTypeArguments : RawObject
}.

(** Modelled from the spec: the SubtypeTestCache object (its class is in
    object.cc) is "an append-only array of 4-tuples (instance-class-id,
    instance-type-args, instantiator-type-args, boolean-result)";
    [NumberOfChecks] is its length, [GetCheck] reads a tuple and [AddCheck]
    appends one. *)
Record Check : Type := mkCheck {
  instance_class_id : Z;
  instance_type_arguments : RawObject;
  instantiator_type_arguments : RawObject;
  test_result : bool
}.

Abbreviation SubtypeTestCache := (list Check) (only parsing).

(** Modelled from the spec: [SubtypeTestCache::NumberOfChecks] (object.cc),
    the number of tuples of the "append-only array". *)
Definition NumberOfChecks (cache : SubtypeTestCache) : Z :=
  Z.of_nat (length cache).

(** Modelled from the spec: [SubtypeTestCache::AddCheck] (object.cc), which
    "appends the new check". *)
Definition AddCheck (cid : Z) (ita iita : RawObject) (result : bool)
  (cache : SubtypeTestCache) : SubtypeTestCache :=
  cache ++ [mkCheck cid ita iita result].

(** The key of a check: what the linear scan of [UpdateTypeTestCache]
    compares. *)
Definition Key : Type := (Z * RawObject * RawObject)%type.

Definition key_of (c : Check) : Key :=
  (instance_class_id c, instance_type_arguments c, instantiator_type_arguments c).

(** The object model the type engine calls into (object.cc).  [OM] is the
    state those calls may read and change: the type tables, the table of
    canonical type-argument vectors, the objects they allocate.  Type
    argument vectors are referred to by raw pointer. *)
Class ObjectModel : Type := mkObjectModel {
  OM : Type;
  AbstractType : Type;
  IsInstantiatedTypeArguments : OM -> RawObject -> bool;
  IsCanonical : OM -> RawObject -> bool;
  uninstantiated_type_arguments : OM -> RawObject -> RawObject;
  instantiator_type_arguments_of : OM -> RawObject -> RawObject;
  (* AbstractTypeArguments::InstantiateFrom(instantiator, &bound_error) *)
  InstantiateFrom : OM -> RawObject -> RawObject -> (RawObject * Error) * OM;
  Canonicalize : OM -> RawObject -> RawObject * OM;
  (* Instance::IsInstanceOf(type, instantiator_type_arguments, &bound_error) *)
  IsInstanceOf : OM -> Instance -> AbstractType -> RawObject -> bool * Error;
  IsInstantiated : OM -> AbstractType -> bool;
  (* AbstractType::InstantiateFrom(instantiator_type_arguments, NULL) *)
  TypeInstantiateFrom : OM -> AbstractType -> RawObject -> AbstractType;
  UserVisibleName : OM -> AbstractType -> DartString;
  GetType : OM -> Instance -> AbstractType
}.

Section Engine.

Context {M : ObjectModel} {F : Flags}.

(** The part of the isolate the type engine reads and writes. *)
Record World : Type := mkWorld {
  om : OM;
  instances : gmap RawObject Instance;
  caches : gmap RawObject SubtypeTestCache;
  frames : list StackFrame
}.

Definition set_om (o : OM) (w : World) : World :=
  mkWorld o (instances w) (caches w) (frames w).

(** [instance.SetTypeArguments(value)] *)
Definition SetTypeArguments (instance : RawObject) (value : RawObject)
  (w : World) : World :=
  mkWorld (om w)
    (alter (fun i => mkInstance (clazz i) value) instance (instances w))
    (caches w) (frames w).

Definition set_cache (cache : RawObject) (c : SubtypeTestCache) (w : World)
  : World :=
  mkWorld (om w) (instances w) (<[cache := c]> (caches w)) (frames w).

(** The [do ... while (type_arguments.IsInstantiatedTypeArguments())] loop of
    [OptimizeTypeArguments]; one unit of fuel per iteration. *)
Fixpoint instantiate_loop (fuel : nat) (o : OM) (type_arguments : RawObject)
  : option (RawObject * OM) :=
  match fuel with
  | O => None
  | S fuel' =>
      let uninstantiated := uninstantiated_type_arguments o type_arguments in
      let instantiator := instantiator_type_arguments_of o type_arguments in
      let '((type_arguments', bound_error), o') :=
        InstantiateFrom o uninstantiated instantiator in
      (* ASSERT(bound_error.IsNull()); *)
      if IsInstantiatedTypeArguments o' type_arguments'
      then instantiate_loop fuel' o' type_arguments'
      else Some (type_arguments', o')
  end.

(** [static bool OptimizeTypeArguments(const Instance& instance)] *)
Definition OptimizeTypeArguments (fuel : nat) (instance : RawObject)
  (w : World) : Outcome World bool :=
  deref (instances w !! instance) (fun i =>
  let type_class := clazz i in
  if NumTypeArguments type_class =? 0 then Returns false w else
  let type_arguments := GetTypeArguments i in
  if IsNull type_arguments then Returns false w else
  if IsInstantiatedTypeArguments (om w) type_arguments then
    match instantiate_loop fuel (om w) type_arguments with
    | None => OutOfFuel
    | Some (type_arguments', o1) =>
        let '(new_type_arguments, o2) := Canonicalize o1 type_arguments' in
        Returns true (SetTypeArguments instance new_type_arguments (set_om o2 w))
    end
  else if negb (IsCanonical (om w) type_arguments) then
    let '(new_type_arguments, o1) := Canonicalize (om w) type_arguments in
    Returns true (SetTypeArguments instance new_type_arguments (set_om o1 w))
  else
    (* ASSERT(instance.GetTypeArguments().IsTypeArguments()); *)
    Returns false w).

(** Lines 431-450 of [UpdateTypeTestCache]: canonicalize the type arguments
    of the instance and of the instantiator and read them back.  The result
    is the key the scan looks for, and [type_arguments_replaced]. *)
Definition canonicalize_key (fuel : nat) (instance instantiator : RawObject)
  (incoming_instantiator_type_arguments : RawObject) (w : World)
  : Outcome World (Key * bool) :=
  deref (instances w !! instance) (fun i =>
  let instance_class := clazz i in
  bind
    (if 0 <? NumTypeArguments instance_class then
       bind (OptimizeTypeArguments fuel instance w) (fun replaced w1 =>
       deref (instances w1 !! instance) (fun i1 =>
       Returns (replaced, GetTypeArguments i1) w1))
     else Returns (false, null) w)
    (fun '(type_arguments_replaced, instance_type_arguments) w1 =>
  bind
    (if negb (IsNull instantiator) then
       bind (OptimizeTypeArguments fuel instantiator w1) (fun replaced w2 =>
       deref (instances w2 !! instantiator) (fun i2 =>
       Returns (replaced || type_arguments_replaced, GetTypeArguments i2) w2))
     else Returns (type_arguments_replaced, incoming_instantiator_type_arguments) w1)
    (fun '(type_arguments_replaced, instantiator_type_arguments) w2 =>
  Returns ((id instance_class, instance_type_arguments,
            instantiator_type_arguments), type_arguments_replaced) w2))).

(** The [for] loop of [UpdateTypeTestCache] over the checks of the cache:
    [true] when one has the key looked for (the loop then returns). *)
Fixpoint scan (checks : list Check) (k : Key) : bool :=
  match checks with
  | [] => false
  | last :: rest =>
      let '(cid, ita, iita) := k in
      if (instance_class_id last =? cid)
         && (instance_type_arguments last =? ita)
         && (instantiator_type_arguments last =? iita)
      then true
      else scan rest k
  end.

(** [static void UpdateTypeTestCache(instance, type, instantiator,
    incoming_instantiator_type_arguments, result, new_cache)].  [type] is
    only printed. *)
Definition UpdateTypeTestCache (fuel : nat) (instance instantiator : RawObject)
  (incoming_instantiator_type_arguments : RawObject) (result : bool)
  (new_cache : RawObject) (w : World) : Outcome World unit :=
  if IsNull new_cache then Returns tt w else
  bind (canonicalize_key fuel instance instantiator
          incoming_instantiator_type_arguments w)
    (fun '(k, type_arguments_replaced) w1 =>
  deref (caches w1 !! new_cache) (fun checks =>
  let len := NumberOfChecks checks in
  if FLAG_max_subtype_cache_entries <=? len then Returns tt w1 else
  if scan checks k then Returns tt w1 else
  let '(cid, instance_type_arguments, instantiator_type_arguments) := k in
  if negb (IsInstantiatedTypeArguments (om w1) instantiator_type_arguments)
  then Returns tt
         (set_cache new_cache
            (AddCheck cid instance_type_arguments instantiator_type_arguments
               result checks) w1)
  else Returns tt w1)).

(** [static intptr_t GetCallerLocation()] *)
Definition GetCallerLocation {A : Type} (w : World) (k : Z -> Outcome World A)
  : Outcome World A :=
  match frames w with
  | caller_frame :: _ =>
      (* ASSERT(caller_frame != NULL); *)
      k (GetTokenPos caller_frame)
  | [] => Crashes
  end.

(** [String::New(bound_error.ToErrorCString())] *)
Definition ToErrorCString (bound_error : Error) : string :=
  match bound_error with
  | Some msg => msg
  | None => EmptyString
  end.

(** [DEFINE_RUNTIME_ENTRY(Instanceof, 5)] *)
Definition Instanceof (fuel : nat) (instance : RawObject)
  (type : AbstractType) (instantiator : RawObject)
  (instantiator_type_arguments : RawObject) (cache : RawObject) (w : World)
  : Outcome World bool :=
  deref (instances w !! instance) (fun i =>
  (* ASSERT(type.IsFinalized()); ASSERT(!type.IsDynamicType());
     ASSERT(!type.IsMalformed()); ASSERT(!type.IsMalbounded()); *)
  let '(result, bound_error) :=
    IsInstanceOf (om w) i type instantiator_type_arguments in
  if negb result && negb (bool_decide (bound_error = None)) then
    GetCallerLocation w (fun location =>
    let bound_error_message := Some (ToErrorCString bound_error) in
    Throws (TypeError location (Some EmptyString) (Some EmptyString)
              (Some EmptyString) bound_error_message) w)
  else
    bind (UpdateTypeTestCache fuel instance instantiator
            instantiator_type_arguments result cache w)
      (fun _ w' => Returns result w')).

(** [DEFINE_RUNTIME_ENTRY(TypeCheck, 6)] *)
Definition TypeCheck (fuel : nat) (src_instance : RawObject)
  (dst_type : AbstractType) (dst_instantiator : RawObject)
  (instantiator_type_arguments : RawObject) (dst_name : DartString)
  (cache : RawObject) (w : World) : Outcome World RawObject :=
  (* ASSERT(!dst_type.IsDynamicType()); ASSERT(!dst_type.IsMalformed());
     ASSERT(!dst_type.IsMalbounded()); ASSERT(!src_instance.IsNull()); *)
  deref (instances w !! src_instance) (fun i =>
  let '(is_instance_of, bound_error) :=
    IsInstanceOf (om w) i dst_type instantiator_type_arguments in
  if negb is_instance_of then
    GetCallerLocation w (fun location =>
    let src_type := GetType (om w) i in
    let src_type_name := UserVisibleName (om w) src_type in
    let dst_type_name :=
      if negb (IsInstantiated (om w) dst_type) then
        let instantiated_dst_type :=
          TypeInstantiateFrom (om w) dst_type instantiator_type_arguments in
        UserVisibleName (om w) instantiated_dst_type
      else UserVisibleName (om w) dst_type in
    let bound_error_message :=
      match bound_error with
      | Some msg =>
          (* ASSERT(FLAG_enable_type_checks); *)
          Some msg
      | None => None
      end in
    Throws (TypeError location src_type_name dst_type_name dst_name
              bound_error_message) w)
  else
    bind (UpdateTypeTestCache fuel src_instance dst_instantiator
            instantiator_type_arguments true cache w)
      (fun _ w' => Returns src_instance w')).

(** A sequence of [Instanceof] and [TypeCheck] calls made by one mutator, each
    with the fuel its loops may use. *)
Inductive Call : Type :=
| CallInstanceof (fuel : nat) (instance : RawObject) (type : AbstractType)
    (instantiator instantiator_type_arguments cache : RawObject)
| CallTypeCheck (fuel : nat) (src_instance : RawObject)
    (dst_type : AbstractType)
    (dst_instantiator instantiator_type_arguments : RawObject)
    (dst_name : DartString) (cache : RawObject).

Definition run_call (c : Call) (w : World) : option World :=
  match c with
  | CallInstanceof fuel instance type instantiator ita cache =>
      world_after (Instanceof fuel instance type instantiator ita cache w)
  | CallTypeCheck fuel src dst_type dst_instantiator ita dst_name cache =>
      world_after (TypeCheck fuel src dst_type dst_instantiator ita dst_name
                     cache w)
  end.

Fixpoint run_calls (cs : list Call) (w : World) : option World :=
  match cs with
  | [] => Some w
  | c :: rest =>
      match run_call c w with
      | Some w' => run_calls rest w'
      | None => None
      end
  end.

(** The two invariants of the caches of a world. *)
Definition bounded (w : World) : Prop :=
  forall cache checks, caches w !! cache = Some checks ->
    NumberOfChecks checks <= FLAG_max_subtype_cache_entries.

Definition no_duplicate_keys (w : World) : Prop :=
  forall cache checks, caches w !! cache = Some checks ->
    NoDup (map key_of checks).

(** The lazy type-argument vectors of the object model are well founded:
    [depth] bounds how often instantiating one can give a lazy vector
    again. *)
Definition well_founded_lazy (depth : OM -> RawObject -> nat) : Prop :=
  forall o type_arguments,
    IsInstantiatedTypeArguments o type_arguments = true ->
    let r :=
      InstantiateFrom o (uninstantiated_type_arguments o type_arguments)
        (instantiator_type_arguments_of o type_arguments) in
    IsInstantiatedTypeArguments (snd r) (fst (fst r)) = true ->
    (depth (snd r) (fst (fst r)) < depth o type_arguments)%nat.

(** A handle is null or refers to a live object of the store. *)
Definition live_or_null {A : Type} (store : gmap RawObject A) (r : RawObject)
  : Prop :=
  r = null \/ is_Some (store !! r).

End Engine.

End TypeEngine.

(** ** IC engine: the instance-function-lookup fallback *)

Module ICEngine.

(** Modelled from the spec: the ICData object (its class is in object.cc) has
    a "target name, arguments descriptor, number of arguments tested (1, 2,
    or 3), and an ordered list of checks: tuples (class-id-vector,
    resolved-function, ...)".  [AddReceiverCheck] and [AddCheck] append a
    check; [GetTargetForReceiverClassId] is the target of the first check
    whose receiver class id is the one asked for, or null. *)
Record ICCheck : Type := mkICCheck {
  class_ids : list Z;
  target : RawObject
}.

Record ICData : Type := mkICData {
  target_name : string;
  num_args_tested : Z;
  checks : list ICCheck
}.

(** Modelled from the spec: the receiver class id of a check is the first
    entry of its class-id vector ([ICData::GetReceiverClassIdAt]). *)
Definition GetReceiverClassId (c : ICCheck) : Z :=
  match class_ids c with
  | cid :: _ => cid
  | [] => -1
  end.

(** Modelled from the spec: [ICData::AddReceiverCheck] (object.cc) appends
    the check "(receiver_cid -> function)". *)
Definition AddReceiverCheck (receiver_class_id : Z) (target : RawObject)
  (ic_data : ICData) : ICData :=
  mkICData (target_name ic_data) (num_args_tested ic_data)
    (checks ic_data ++ [mkICCheck [receiver_class_id] target]).

(** Modelled from the spec: [ICData::AddCheck] (object.cc) appends the check
    "([cid_0, ..., cid_{n-1}] -> function)". *)
Definition AddCheck (class_ids : list Z) (target : RawObject)
  (ic_data : ICData) : ICData :=
  mkICData (target_name ic_data) (num_args_tested ic_data)
    (checks ic_data ++ [mkICCheck class_ids target]).

(** Modelled from the spec: [ICData::GetTargetForReceiverClassId]
    (object.cc), the resolved function of the first check of the ordered
    list whose receiver class id is [class_id], null when there is none. *)
Fixpoint GetTargetIn (cs : list ICCheck) (class_id : Z) : RawObject :=
  match cs with
  | [] => null
  | c :: rest =>
      if GetReceiverClassId c =? class_id then target c
      else GetTargetIn rest class_id
  end.

Definition GetTargetForReceiverClassId (ic_data : ICData) (class_id : Z)
  : RawObject :=
  GetTargetIn (checks ic_data) class_id.

(** An object argument as the entry sees it: its raw pointer and the class id
    that [GetClassId()] reads from its header; a class is referred to by its
    id. *)
Record Object : Type := mkObject {
  raw : RawObject;
  GetClassId : Z
}.

(** The result of [DartEntry::InvokeFunction]: an object, or an error object
    ([result.IsError()]). *)
Inductive InvokeResult : Type :=
| ResultObject (o : RawObject)
| ResultError (error : string).

Inductive DispatcherKind : Type :=
| kNoSuchMethodDispatcher
| kInvokeFieldDispatcher.

(** What the entry calls outside this file.  [Dart] is the state managed
    code runs on.  An invocation runs managed code, whose call sites record
    checks in their IC data: [InvokeFunction] takes the IC data of the
    isolate and gives them back as the invoked code leaves them. *)
Class Runtime : Type := mkRuntime {
  Dart : Type;
  ArgumentsDescriptor : Type;
  GetterName : string -> string;
  (* Resolver::ResolveDynamicForReceiverClass(receiver_class, getter_name,
     ArgumentsDescriptor::New(1)) *)
  ResolveGetterForReceiverClass : Dart -> Z -> string -> RawObject;
  IsMethodExtractor : Dart -> RawObject -> bool;
  (* receiver_class.GetInvocationDispatcher(target_name, descriptor, kind) *)
  GetInvocationDispatcher :
    Dart -> Z -> string -> ArgumentsDescriptor -> DispatcherKind
    -> RawObject * Dart;
  (* DartEntry::InvokeFunction(function, arguments, arguments_descriptor) *)
  InvokeFunction :
    Dart -> gmap RawObject ICData -> RawObject -> list Object
    -> ArgumentsDescriptor
    -> InvokeResult * (Dart * gmap RawObject ICData)
}.

Section Lookup.

Context {R : Runtime}.

Record World : Type := mkWorld {
  dart : Dart;
  ic_datas : gmap RawObject ICData
}.

Definition set_dart (d : Dart) (w : World) : World :=
  mkWorld d (ic_datas w).

Definition update_ic_data (ic_data : RawObject) (f : ICData -> ICData)
  (w : World) : World :=
  mkWorld (dart w) (alter f ic_data (ic_datas w)).

(** [DartEntry::InvokeFunction(function, arguments, arguments_descriptor)]
    on the world: the result and the world the invoked code leaves. *)
Definition invoke (function : RawObject) (arguments : list Object)
  (arguments_descriptor : ArgumentsDescriptor) (w : World)
  : InvokeResult * World :=
  let '(result, (d, ics)) :=
    InvokeFunction (dart w) (ic_datas w) function arguments
      arguments_descriptor in
  (result, mkWorld d ics).

(** [static void CheckResultError(const Object& result)] followed by the
    rest of the entry [k]. *)
Definition CheckResultError {A : Type} (result : InvokeResult) (w : World)
  (k : Outcome World A) : Outcome World A :=
  match result with
  | ResultError error => Throws (PropagatedError error) w
  | ResultObject _ => k
  end.

(** [static bool ResolveCallThroughGetter(receiver, receiver_class,
    target_name, arguments_descriptor, arguments, ic_data, &result)] *)
Definition ResolveCallThroughGetter (receiver : Object)
  (target_name : string) (arguments_descriptor : ArgumentsDescriptor)
  (arguments : list Object) (ic_data : RawObject) (w : World)
  : Outcome World (bool * InvokeResult) :=
  let getter_name := GetterName target_name in
  let getter :=
    ResolveGetterForReceiverClass (dart w) (GetClassId receiver) getter_name in
  if IsNull getter || IsMethodExtractor (dart w) getter
  then Returns (false, ResultObject null) w
  else
    let '(target_function, d1) :=
      GetInvocationDispatcher (dart w) (GetClassId receiver) target_name
        arguments_descriptor kInvokeFieldDispatcher in
    (* ASSERT(!target_function.IsNull()); *)
    let w1 :=
      update_ic_data ic_data
        (AddReceiverCheck (GetClassId receiver) target_function)
        (set_dart d1 w) in
    let '(result, w2) :=
      invoke target_function arguments arguments_descriptor w1 in
    CheckResultError result w2 (Returns (true, result) w2).

(** [for (intptr_t i = 1; i < ic_data.num_args_tested(); ++i)
      class_ids.Add(Object::Handle(args.At(i)).GetClassId());]
    run for [n] iterations from index [i]. *)
Fixpoint add_class_ids (args : list Object) (i n : nat) (class_ids : list Z)
  : option (list Z) :=
  match n with
  | O => Some class_ids
  | S n' =>
      match args !! i with
      | Some o => add_class_ids args (S i) n' (class_ids ++ [GetClassId o])
      | None => None
      end
  end.

(** [DEFINE_RUNTIME_ENTRY(InstanceFunctionLookup, 4)] *)
Definition InstanceFunctionLookup (receiver : Object) (ic_data : RawObject)
  (args_descriptor : ArgumentsDescriptor) (args : list Object) (w : World)
  : Outcome World InvokeResult :=
  deref (ic_datas w !! ic_data) (fun ic =>
  let target_name := target_name ic in
  bind (ResolveCallThroughGetter receiver target_name args_descriptor args
          ic_data w)
    (fun '(resolved, result) w1 =>
  if resolved then CheckResultError result w1 (Returns result w1) else
  let '(target_function, d2) :=
    GetInvocationDispatcher (dart w1) (GetClassId receiver) target_name
      args_descriptor kNoSuchMethodDispatcher in
  let w2 := set_dart d2 w1 in
  (* ASSERT(!target_function.IsNull()); *)
  let receiver_cid := GetClassId receiver in
  bind
    (deref (ic_datas w2 !! ic_data) (fun ic2 =>
     if num_args_tested ic2 =? 1 then
       let target := GetTargetForReceiverClassId ic2 receiver_cid in
       if IsNull target
       then Returns tt
              (update_ic_data ic_data
                 (AddReceiverCheck receiver_cid target_function) w2)
       else Returns tt w2
     else
       (* ASSERT(ic_data.num_args_tested() > 1); *)
       deref
         (add_class_ids args 1 (Z.to_nat (num_args_tested ic2 - 1))
            [receiver_cid])
         (fun class_ids =>
       Returns tt
         (update_ic_data ic_data (AddCheck class_ids target_function) w2))))
    (fun _ w3 =>
  let '(result, w4) := invoke target_function args args_descriptor w3 in
  CheckResultError result w4 (Returns result w4)))).

(** How many checks of the IC data have the given receiver class id. *)
Definition receiver_checks (cid : Z) (ic : ICData) : nat :=
  length (filter (fun c => GetReceiverClassId c = cid) (checks ic)).

(** What both paths of [InstanceFunctionLookup] end with once the check is
    recorded: the dispatcher is invoked in the world [w]; an error result is
    propagated, any other is returned. *)
Definition InvokeDispatcher (target_function : RawObject)
  (args : list Object) (args_descriptor : ArgumentsDescriptor) (w : World)
  : Outcome World InvokeResult :=
  let '(result, w') := invoke target_function args args_descriptor w in
  CheckResultError result w' (Returns result w').

(** The world in which [InstanceFunctionLookup] invokes the dispatcher: the
    state [d] the lookup of the dispatcher left, and the IC data of [w]
    with [ic'] at [ic_data]. *)
Definition recorded (d : Dart) (ic_data : RawObject) (ic' : ICData)
  (w : World) : World :=
  mkWorld d (<[ic_data := ic']> (ic_datas w)).

End Lookup.

End ICEngine.

(** ** Functions and code objects *)

Module Heap.

(** A Function object: the fields the entries of this file read and write.
    [Owner] is the class id of the owning class
    ([Class::Handle(function.Owner()).id()]). *)
Record Function : Type := mkFunction {
  ToFullyQualifiedCString : string;
  Owner : Z;
  usage_counter : Z;
  deoptimization_counter : Z;
  is_optimizable : bool;
  CurrentCode : RawObject;
  unoptimized_code : RawObject
}.

(** A Code object.  [GetDeoptInfoAtPc] is the deopt metadata table (null
    where the pc has no descriptor), [GetDeoptIdForOsr] the OSR-id table. *)
Record Code : Type := mkCode {
  function : RawObject;
  is_optimized : bool;
  is_alive : bool;
  EntryPoint : Z;
  GetLazyDeoptPc : Z;
  GetDeoptInfoAtPc : Z -> RawObject;
  GetDeoptIdForOsr : Z -> Z
}.

Record Heap : Type := mkHeap {
  functions : gmap RawObject Function;
  codes : gmap RawObject Code
}.

Definition set_usage_counter (value : Z) (f : Function) : Function :=
  mkFunction (ToFullyQualifiedCString f) (Owner f) value
    (deoptimization_counter f) (is_optimizable f) (CurrentCode f)
    (unoptimized_code f).

(** [function.SetCode(value)] *)
Definition SetCode (value : RawObject) (f : Function) : Function :=
  mkFunction (ToFullyQualifiedCString f) (Owner f) (usage_counter f)
    (deoptimization_counter f) (is_optimizable f) value (unoptimized_code f).

Definition set_is_alive (value : bool) (c : Code) : Code :=
  mkCode (function c) (is_optimized c) value (EntryPoint c) (GetLazyDeoptPc c)
    (GetDeoptInfoAtPc c) (GetDeoptIdForOsr c).

Definition update_function (function : RawObject) (g : Function -> Function)
  (h : Heap) : Heap :=
  mkHeap (alter g function (functions h)) (codes h).

Definition update_code (code : RawObject) (g : Code -> Code) (h : Heap) : Heap :=
  mkHeap (functions h) (alter g code (codes h)).

End Heap.

(** ** Adaptive optimizer *)

Module Optimizer.
Import Heap.

(** [strstr(haystack, needle) != NULL] *)
Fixpoint strstr (haystack needle : string) : bool :=
  if String.prefix needle haystack then true
  else match haystack with
       | EmptyString => false
       | String _ rest => strstr rest needle
       end.

(** The tokens that successive [strtok_r(..., ",", &save_ptr)] calls give
    for a filter: its maximal runs of characters other than the comma, in
    order.  [token] is the run read so far. *)
Fixpoint strtok_r (filter : string) (token : string) : list string :=
  match filter with
  | EmptyString =>
      match token with
      | EmptyString => []
      | _ => [token]
      end
  | String c rest =>
      if Ascii.eqb c ","%char then
        match token with
        | EmptyString => strtok_r rest EmptyString
        | _ => token :: strtok_r rest EmptyString
        end
      else strtok_r rest (token ++ String c EmptyString)
  end.

(** [while (token != NULL) { if (strstr(function_name, token) != NULL)
    { found = true; break; } token = strtok_r(NULL, ",", &save_ptr); }] *)
Fixpoint filter_loop (function_name : string) (tokens : list string) : bool :=
  match tokens with
  | [] => false
  | token :: rest =>
      if strstr function_name token then true
      else filter_loop function_name rest
  end.

(** The part of the isolate the optimizer entries read and write.
    [IsStepping] and [HasBreakpoint] are the debugger's answers;
    [stack_overflow] is the preallocated exception of the object store. *)
Record Isolate : Type := mkIsolate {
  heap : Heap;
  frames : list StackFrame;
  saved_stack_limit : Z;
  interrupts : Z;
  IsStepping : bool;
  HasBreakpoint : RawObject -> bool;
  stack_overflow : RawObject
}.

Definition set_heap (h : Heap) (iso : Isolate) : Isolate :=
  mkIsolate h (frames iso) (saved_stack_limit iso) (interrupts iso)
    (IsStepping iso) (HasBreakpoint iso) (stack_overflow iso).

Definition set_frames (fs : list StackFrame) (iso : Isolate) : Isolate :=
  mkIsolate (heap iso) fs (saved_stack_limit iso) (interrupts iso)
    (IsStepping iso) (HasBreakpoint iso) (stack_overflow iso).

Definition set_interrupts (bits : Z) (iso : Isolate) : Isolate :=
  mkIsolate (heap iso) (frames iso) (saved_stack_limit iso) bits
    (IsStepping iso) (HasBreakpoint iso) (stack_overflow iso).

(** [frame->set_pc(value)] *)
Definition set_pc (value : Z) (frame : StackFrame) : StackFrame :=
  mkStackFrame value (LookupDartCode frame) (GetTokenPos frame).

(** What the optimizer entries call outside this file: the compiler (which
    works on functions and code objects), the garbage collector, the message
    handler and the embedder's callbacks; and the interrupt bits of
    isolate.h. *)
Class Embedder : Type := mkEmbedder {
  (* Compiler::CompileOptimizedFunction(function, osr_id) *)
  CompileOptimizedFunction : Heap -> RawObject -> Z -> Error * Heap;
  CollectGarbage : Isolate -> Isolate;
  HandleOOBMessages : Isolate -> Isolate;
  InterruptCallback : option (Isolate -> bool * Isolate);
  VmStatsCallback : option (Isolate -> bool * Isolate);
  kApiInterrupt : Z;
  kMessageInterrupt : Z;
  kStoreBufferInterrupt : Z;
  kVmStatusInterrupt : Z
}.

Section Entries.

Context {F : Flags} {E : Embedder}.

Definition kLowInvocationCount : Z := -100000000.

(** [static bool CanOptimizeFunction(const Function& function,
    Isolate* isolate)] *)
Definition CanOptimizeFunction (function : RawObject) (iso : Isolate)
  : Outcome Isolate bool :=
  deref (functions (heap iso) !! function) (fun f =>
  if IsStepping iso || HasBreakpoint iso function then
    Returns false
      (set_heap (update_function function (set_usage_counter 0) (heap iso)) iso)
  else if FLAG_deoptimization_counter_threshold <=? deoptimization_counter f
  then
    if FLAG_stop_on_excessive_deoptimization
    then Aborts (* FATAL("Stop on excessive deoptimization") *)
    else
      Returns false
        (set_heap
           (update_function function (set_usage_counter kLowInvocationCount)
              (heap iso)) iso)
  else if
    match FLAG_optimization_filter with
    | Some filter =>
        let function_name := ToFullyQualifiedCString f in
        let found := filter_loop function_name (strtok_r filter EmptyString) in
        negb found
    | None => false
    end
  then
    Returns false
      (set_heap
         (update_function function (set_usage_counter kLowInvocationCount)
            (heap iso)) iso)
  else if negb (is_optimizable f) then
    Returns false
      (set_heap
         (update_function function (set_usage_counter kLowInvocationCount)
            (heap iso)) iso)
  else Returns true iso).

(** The optimizability predicate in the spec's words: the debugger is not
    stepping and has no breakpoint on the function, its deoptimization counter
    is below the threshold, it matches the optimization filter if one is set,
    and its optimizability flag is true. *)
Definition passes_checks (function : RawObject) (f : Function) (iso : Isolate)
  : bool :=
  negb (IsStepping iso || HasBreakpoint iso function)
  && (deoptimization_counter f <? FLAG_deoptimization_counter_threshold)
  && match FLAG_optimization_filter with
     | Some filter =>
         filter_loop (ToFullyQualifiedCString f) (strtok_r filter EmptyString)
     | None => true
     end
  && is_optimizable f.

(** The [if (FLAG_use_osr && (interrupt_bits == 0))] block of
    [StackOverflow]. *)
Definition OnStackReplacement (iso : Isolate) : Outcome Isolate unit :=
  match frames iso with
  | [] => Crashes
  | frame :: callers =>
      (* frame->LookupDartFunction() *)
      deref (codes (heap iso) !! LookupDartCode frame) (fun frame_code =>
      let function := function frame_code in
      (* ASSERT(!function.IsNull()); *)
      bind (CanOptimizeFunction function iso) (fun can iso1 =>
      if negb can then Returns tt iso1 else
      deref (functions (heap iso1) !! function) (fun f =>
      deref (codes (heap iso1) !! unoptimized_code f) (fun unoptimized =>
      let osr_id := GetDeoptIdForOsr unoptimized (pc frame) in
      let original_code := CurrentCode f in
      let '(error, h2) :=
        CompileOptimizedFunction (heap iso1) function osr_id in
      let iso2 := set_heap h2 iso1 in
      match error with
      | Some e => Throws (PropagatedError e) iso2
      | None =>
          deref (functions h2 !! function) (fun f2 =>
          let optimized_code := CurrentCode f2 in
          if negb (optimized_code =? original_code) then
            deref (codes h2 !! optimized_code) (fun optimized =>
            let optimized_entry := EntryPoint optimized in
            Returns tt
              (set_frames (set_pc optimized_entry frame :: callers)
                 (set_heap
                    (update_function function (SetCode original_code) h2)
                    iso2)))
          else Returns tt iso2)
      end))))
  end.

(** [DEFINE_RUNTIME_ENTRY(StackOverflow, 0)]; [stack_pos] is the stack
    pointer the entry reads. *)
Definition StackOverflow (stack_pos : Z) (iso : Isolate)
  : Outcome Isolate unit :=
  if stack_pos <? saved_stack_limit iso then
    Throws (StackOverflowError (stack_overflow iso)) iso
  else
  (* isolate->GetAndClearInterrupts() *)
  let interrupt_bits := interrupts iso in
  let iso0 := set_interrupts 0 iso in
  let iso1 :=
    if negb (Z.land interrupt_bits kStoreBufferInterrupt =? 0)
    then CollectGarbage iso0 else iso0 in
  let iso2 :=
    if negb (Z.land interrupt_bits kMessageInterrupt =? 0)
    then HandleOOBMessages iso1 else iso1 in
  (* [true]: the entry has returned from inside the API-interrupt block *)
  bind
    (if negb (Z.land interrupt_bits kApiInterrupt =? 0) then
       (* Debugger::SignalIsolateEvent(Debugger::kIsolateInterrupted); *)
       match InterruptCallback with
       | Some callback =>
           let '(continue, iso3) := callback iso2 in
           if continue then Returns true iso3
           else Aborts (* UNIMPLEMENTED() *)
       | None => Returns false iso2
       end
     else Returns false iso2)
    (fun returned iso3 =>
  if returned then Returns tt iso3 else
  let iso4 :=
    if negb (Z.land interrupt_bits kVmStatusInterrupt =? 0) then
      match VmStatsCallback with
      | Some callback => snd (callback iso3)
      | None => iso3
      end
    else iso3 in
  if FLAG_use_osr && (interrupt_bits =? 0) then OnStackReplacement iso4
  else Returns tt iso4).

End Entries.

End Optimizer.

(** ** Lazy deoptimization: marking frames *)

Module Deoptimizer.
Import Heap.

(** The part of the isolate [DeoptimizeAt] and its callers read and write:
    functions and code objects, the Dart frames on the stack (topmost first)
    and the call sites the code patcher has rewritten. *)
Record World : Type := mkWorld {
  heap : Heap;
  frames : list StackFrame;
  call_sites : gmap Z Z
}.

Definition set_heap (h : Heap) (w : World) : World :=
  mkWorld h (frames w) (call_sites w).

(** Modelled from the spec: [CodePatcher::InsertCallAt(pc, target)] (in
    code_patcher.cc) "patches the call at pc to the code's lazy-deopt
    entry": the call site at [pc] now jumps to [target]. *)
Definition InsertCallAt (pc target : Z) (w : World) : World :=
  mkWorld (heap w) (frames w) (<[pc := target]> (call_sites w)).

(** Modelled from the spec: [Function::HasOptimizedCode] (in object.cc), "the
    function still owns optimized code": it has code and that code is
    optimized. *)
Definition HasOptimizedCode {A : Type} (f : Function) (w : World)
  (k : bool -> Outcome World A) : Outcome World A :=
  if IsNull (CurrentCode f) then k false
  else deref (codes (heap w) !! CurrentCode f) (fun c => k (is_optimized c)).

(** Modelled from the spec: [Function::SwitchToUnoptimizedCode] (in
    object.cc), "swap it to unoptimized": the function's current code becomes
    its unoptimized code. *)
Definition SwitchToUnoptimizedCode (function : RawObject) (w : World) : World :=
  set_heap
    (update_function function (fun f => SetCode (unoptimized_code f) f)
       (heap w)) w.

(** [void DeoptimizeAt(const Code& optimized_code, uword pc)] *)
Definition DeoptimizeAt (optimized_code : RawObject) (pc : Z) (w : World)
  : Outcome World unit :=
  deref (codes (heap w) !! optimized_code) (fun code =>
  (* ASSERT(optimized_code.is_optimized()); *)
  let deopt_info := GetDeoptInfoAtPc code pc in
  (* ASSERT(!deopt_info.IsNull()); *)
  let function := function code in
  deref (functions (heap w) !! function) (fun f =>
  (* ASSERT(!unoptimized_code.IsNull()); *)
  HasOptimizedCode f w (fun has_optimized_code =>
  let w1 :=
    if has_optimized_code then SwitchToUnoptimizedCode function w else w in
  let lazy_deopt_jump := GetLazyDeoptPc code in
  (* ASSERT(lazy_deopt_jump != 0); *)
  let w2 := InsertCallAt pc lazy_deopt_jump w1 in
  Returns tt
    (set_heap (update_code optimized_code (set_is_alive false) (heap w2)) w2)))).

(** [DartFrameIterator::NextFrame()]: the next Dart frame and the iterator
    after it, or NULL at the end of the stack. *)
Definition NextFrame (iterator : list StackFrame)
  : option StackFrame * list StackFrame :=
  match iterator with
  | [] => (None, [])
  | frame :: rest => (Some frame, rest)
  end.

(** The [while (frame != NULL)] loop of [DeoptimizeAll]; one unit of fuel
    per iteration. *)
Fixpoint DeoptimizeAll_loop (fuel : nat) (frame : option StackFrame)
  (iterator : list StackFrame) (w : World) : Outcome World unit :=
  match fuel with
  | O => OutOfFuel
  | S fuel' =>
      match frame with
      | None => Returns tt w
      | Some fr =>
          deref (codes (heap w) !! LookupDartCode fr) (fun optimized_code =>
          bind
            (if is_optimized optimized_code
             then DeoptimizeAt (LookupDartCode fr) (pc fr) w
             else Returns tt w)
            (fun _ w' =>
          (* frame = iterator.NextFrame(); *)
          let '(frame', iterator') := NextFrame iterator in
          DeoptimizeAll_loop fuel' frame' iterator' w'))
      end
  end.

(** [void DeoptimizeAll()] *)
Definition DeoptimizeAll (fuel : nat) (w : World) : Outcome World unit :=
  let '(frame, iterator) := NextFrame (frames w) in
  DeoptimizeAll_loop fuel frame iterator w.

(** [static bool ContainsCid(const GrowableArray<intptr_t>& cids,
    intptr_t cid)] *)
Fixpoint ContainsCid (cids : list Z) (cid : Z) : bool :=
  match cids with
  | [] => false
  | c :: rest => if c =? cid then true else ContainsCid rest cid
  end.

(** The [while (frame != NULL)] loop of [DeoptimizeIfOwner]; one unit of fuel
    per iteration.  The body of the source's loop does not assign [frame]:
    the next iteration runs on the same frame and the same iterator. *)
Fixpoint DeoptimizeIfOwner_loop (fuel : nat) (classes : list Z)
  (frame : option StackFrame) (iterator : list StackFrame) (w : World)
  : Outcome World unit :=
  match fuel with
  | O => OutOfFuel
  | S fuel' =>
      match frame with
      | None => Returns tt w
      | Some fr =>
          deref (codes (heap w) !! LookupDartCode fr) (fun optimized_code =>
          bind
            (if is_optimized optimized_code then
               deref (functions (heap w) !! function optimized_code) (fun f =>
               let owner_cid := Owner f in
               if ContainsCid classes owner_cid
               then DeoptimizeAt (LookupDartCode fr) (pc fr) w
               else Returns tt w)
             else Returns tt w)
            (fun _ w' =>
          DeoptimizeIfOwner_loop fuel' classes frame iterator w'))
      end
  end.

(** [void DeoptimizeIfOwner(const GrowableArray<intptr_t>& classes)] *)
Definition DeoptimizeIfOwner (fuel : nat) (classes : list Z) (w : World)
  : Outcome World unit :=
  let '(frame, iterator) := NextFrame (frames w) in
  DeoptimizeIfOwner_loop fuel classes frame iterator w.

(** Whether the function's current code is there and optimized, as
    [HasOptimizedCode] finds it. *)
Definition owns_optimized_code (h : Heap) (f : Function) : bool :=
  if IsNull (CurrentCode f) then false
  else match codes h !! CurrentCode f with
       | Some c => is_optimized c
       | None => false
       end.

(** Every handle stored in the heap refers to a live object (or is null
    where the field may be): what a heap of handles guarantees. *)
Definition well_formed (h : Heap) : Prop :=
  (forall r f, functions h !! r = Some f ->
     (CurrentCode f = null \/ is_Some (codes h !! CurrentCode f)) /\
     (unoptimized_code f = null \/ is_Some (codes h !! unoptimized_code f))) /\
  (forall r c, codes h !! r = Some c -> is_Some (functions h !! function c)).

End Deoptimizer.

(** ** Lazy deoptimization: the three entries and the deopt context *)

Module DeoptEntries.

(** A [DeoptContext] (deopt_instructions.h): what its constructor is given
    (the destination option is always [kDestIsOriginalFrame] here) and the
    destination frame [set_dest_frame] records. *)
Record DeoptContext : Type := mkDeoptContext {
  source_frame : StackFrame;
  code : RawObject;
  fpu_registers : list Z;
  cpu_registers : list Z;
  dest_frame : option Z
}.

Definition set_dest_frame (start : Z) (c : DeoptContext) : DeoptContext :=
  mkDeoptContext (source_frame c) (code c) (fpu_registers c) (cpu_registers c)
    (Some start).

(** The part of the isolate (and of the C++ heap) the deopt entries read and
    write.  [deopt_context] is the isolate's pointer, [None] for NULL;
    [contexts] holds the [DeoptContext] objects that [new] has made and
    [delete] has not destroyed.  [memory] is the stack memory the stub saved
    the registers in, [walk] the frame the stack walker finds first from a
    frame pointer, with its stack pointer. *)
Record Isolate : Type := mkIsolate {
  deopt_context : option positive;
  contexts : gmap positive DeoptContext;
  memory : Z -> Z;
  walk : Z -> option (StackFrame * Z)
}.

Definition set_deopt_context (p : option positive) (iso : Isolate) : Isolate :=
  mkIsolate p (contexts iso) (memory iso) (walk iso).

Definition set_contexts (m : gmap positive DeoptContext) (iso : Isolate)
  : Isolate :=
  mkIsolate (deopt_context iso) m (memory iso) (walk iso).

(** The architecture constants (constants_*.h, stack_frame_*.h) and the
    methods of [DeoptContext] (deopt_instructions.cc) the entries call. *)
Class Target : Type := mkTarget {
  kWordSize : Z;
  kFpuRegisterSize : Z;
  kNumberOfCpuRegisters : nat;
  kNumberOfFpuRegisters : nat;
  kFirstLocalSlotFromFp : Z;
  kDartFrameFixedSize : Z;
  DestStackAdjustment : DeoptContext -> Z;
  FillDestFrame : DeoptContext -> DeoptContext;
  MaterializeDeferredObjects : DeoptContext -> Z
}.

Section Entries.

Context {T : Target}.

(** [uword] arithmetic: modulo the word. *)
Definition uword (x : Z) : Z := x mod 2 ^ (8 * kWordSize).

(** One of the two copy loops of [CopySavedRegisters]: [n] registers of
    [size] bytes read from [address] on; the copy and the address after. *)
Fixpoint copy_registers (mem : Z -> Z) (n : nat) (size : Z) (address : Z)
  : list Z * Z :=
  match n with
  | O => ([], address)
  | S n' =>
      let value := mem address in
      let '(copy, address') := copy_registers mem n' size (uword (address + size)) in
      (value :: copy, address')
  end.

(** [static void CopySavedRegisters(uword saved_registers_address,
    fpu_register_t** fpu_registers, intptr_t** cpu_registers)] *)
Definition CopySavedRegisters (mem : Z -> Z) (saved_registers_address : Z)
  : list Z * list Z :=
  let '(fpu_registers_copy, address) :=
    copy_registers mem kNumberOfFpuRegisters kFpuRegisterSize
      saved_registers_address in
  let '(cpu_registers_copy, _) :=
    copy_registers mem kNumberOfCpuRegisters kWordSize address in
  (fpu_registers_copy, cpu_registers_copy).

(** [new DeoptContext(...)]: an address [delete] has given back or never
    used. *)
Definition new_DeoptContext (c : DeoptContext) (iso : Isolate)
  : positive * Isolate :=
  let p := fresh (dom (contexts iso)) in
  (p, set_contexts (<[p := c]> (contexts iso)) iso).

(** [DEFINE_LEAF_RUNTIME_ENTRY(intptr_t, DeoptimizeCopyFrame, 1,
    uword saved_registers_address)] *)
Definition DeoptimizeCopyFrame (saved_registers_address : Z) (iso : Isolate)
  : Outcome Isolate Z :=
  let last_fp :=
    uword (saved_registers_address
           + Z.of_nat kNumberOfCpuRegisters * kWordSize
           + Z.of_nat kNumberOfFpuRegisters * kFpuRegisterSize
           - (kFirstLocalSlotFromFp + 1) * kWordSize) in
  (* DartFrameIterator iterator(last_fp); iterator.NextFrame() *)
  deref (walk iso last_fp) (fun '(caller_frame, _) =>
  (* ASSERT(caller_frame != NULL); *)
  let optimized_code := LookupDartCode caller_frame in
  (* ASSERT(optimized_code.is_optimized()); *)
  let '(fpu_registers, cpu_registers) :=
    CopySavedRegisters (memory iso) saved_registers_address in
  let context :=
    mkDeoptContext caller_frame optimized_code fpu_registers cpu_registers
      None in
  let '(deopt_context, iso1) := new_DeoptContext context iso in
  let iso2 := set_deopt_context (Some deopt_context) iso1 in
  Returns (DestStackAdjustment context * kWordSize) iso2).

(** [DEFINE_LEAF_RUNTIME_ENTRY(void, DeoptimizeFillFrame, 1, uword last_fp)] *)
Definition DeoptimizeFillFrame (last_fp : Z) (iso : Isolate)
  : Outcome Isolate unit :=
  let deopt_context := deopt_context iso in
  deref (walk iso last_fp) (fun '(caller_frame, caller_sp) =>
  (* ASSERT(caller_frame != NULL); *)
  let start := uword (caller_sp - kDartFrameFixedSize * kWordSize) in
  deref (deopt_context ≫= fun p => contexts iso !! p) (fun context =>
  deref deopt_context (fun p =>
  Returns tt
    (set_contexts
       (<[p := FillDestFrame (set_dest_frame start context)]> (contexts iso))
       iso)))).

(** [DEFINE_RUNTIME_ENTRY(DeoptimizeMaterialize, 0)] *)
Definition DeoptimizeMaterialize (iso : Isolate) : Outcome Isolate Z :=
  let deopt_context := deopt_context iso in
  deref (deopt_context ≫= fun p => contexts iso !! p) (fun context =>
  deref deopt_context (fun p =>
  let deopt_arg_count := MaterializeDeferredObjects context in
  let iso1 := set_deopt_context None iso in
  (* delete deopt_context; *)
  let iso2 := set_contexts (delete p (contexts iso1)) iso1 in
  Returns (deopt_arg_count * kWordSize) iso2)).

(** The deopt entries generated code can call, and a run of them on one
    thread. *)
Inductive Entry : Type :=
| CopyFrame (saved_registers_address : Z)
| FillFrame (last_fp : Z)
| Materialize.

Definition run_entry (e : Entry) (iso : Isolate) : option Isolate :=
  match e with
  | CopyFrame address =>
      match DeoptimizeCopyFrame address iso with
      | Returns _ iso' => Some iso'
      | _ => None
      end
  | FillFrame last_fp =>
      match DeoptimizeFillFrame last_fp iso with
      | Returns _ iso' => Some iso'
      | _ => None
      end
  | Materialize =>
      match DeoptimizeMaterialize iso with
      | Returns _ iso' => Some iso'
      | _ => None
      end
  end.

Fixpoint run (trace : list Entry) (iso : Isolate) : option Isolate :=
  match trace with
  | [] => Some iso
  | e :: rest =>
      match run_entry e iso with
      | Some iso' => run rest iso'
      | None => None
      end
  end.

(** Whether the trace ends between a [DeoptimizeCopyFrame] and the next
    [DeoptimizeMaterialize]: its last entry other than a fill is a copy
    ([open] when it has none). *)
Definition is_fill (e : Entry) : bool :=
  match e with
  | FillFrame _ => true
  | _ => false
  end.

Definition window_from (open : bool) (trace : list Entry) : bool :=
  match last (filter (fun e => is_fill e = false) trace) with
  | Some (CopyFrame _) => true
  | Some _ => false
  | None => open
  end.

Definition in_window (trace : list Entry) : bool := window_from false trace.

End Entries.

End DeoptEntries.

(** ** Marking frames: what [DeoptimizeAll] leaves *)

Module Marking.
Import Heap Deoptimizer.

(** A frame whose code has been through [DeoptimizeAt]: its code is dead,
    the call site at its pc jumps to the code's lazy-deopt address, and the
    code's function has its unoptimized code as current unless what it has is
    not optimized. *)
Definition deoptimized (fr : StackFrame) (w : World) : Prop :=
  exists c f,
    codes (heap w) !! LookupDartCode fr = Some c /\
    is_alive c = false /\
    call_sites w !! pc fr = Some (GetLazyDeoptPc c) /\
    functions (heap w) !! function c = Some f /\
    (CurrentCode f = unoptimized_code f \/
     owns_optimized_code (heap w) f = false).

(** The code object of a frame is found from its pc: frames with one pc have
    one code object. *)
Definition coherent (fs : list StackFrame) : Prop :=
  forall fr1 fr2,
    fr1 ∈ fs -> fr2 ∈ fs -> pc fr1 = pc fr2 ->
    LookupDartCode fr1 = LookupDartCode fr2.

(** The code object of every frame is live. *)
Definition frames_live (fs : list StackFrame) (h : Heap) : Prop :=
  forall fr, fr ∈ fs -> is_Some (codes h !! LookupDartCode fr).

(** The loop of [DeoptimizeAll] by recursion on the frames still to visit. *)
Fixpoint deoptimize_frames (fs : list StackFrame) (w : World)
  : Outcome World unit :=
  match fs with
  | [] => Returns tt w
  | fr :: rest =>
      deref (codes (heap w) !! LookupDartCode fr) (fun optimized_code =>
      bind
        (if is_optimized optimized_code
         then DeoptimizeAt (LookupDartCode fr) (pc fr) w
         else Returns tt w)
        (fun _ w' => deoptimize_frames rest w'))
  end.

(** What one [DeoptimizeAt] on the code object [optimized_code] does to a
    heap: that code object is dead, and one function may have been switched
    to its unoptimized code. *)
Definition step_of (optimized_code : Z) (h h1 : Heap) : Prop :=
  codes h1 = alter (set_is_alive false) optimized_code (codes h) /\
  exists g : Function -> Function,
    (forall f, unoptimized_code (g f) = unoptimized_code f /\
               (CurrentCode (g f) = CurrentCode f \/
                CurrentCode (g f) = unoptimized_code f)) /\
    exists r, functions h1 = alter g r (functions h).

End Marking.

(** ** The deopt entries in sequence *)

Module DeoptSequence.
Import DeoptEntries.

Section Sequence.

Context {T : Target}.

(** The frame pointer [DeoptimizeCopyFrame] starts the stack walker from:
    the registers lie below it as if they were locals. *)
Definition last_fp_of (saved_registers_address : Z) : Z :=
  uword (saved_registers_address
         + Z.of_nat kNumberOfCpuRegisters * kWordSize
         + Z.of_nat kNumberOfFpuRegisters * kFpuRegisterSize
         - (kFirstLocalSlotFromFp + 1) * kWordSize).

(** One lazy deoptimization as the stub runs it: the copy phase, the fill
    phase for each frame pointer of [fills], the materialize phase. *)
Definition deopt_sequence (saved_registers_address : Z) (fills : list Z)
  : list Entry :=
  CopyFrame saved_registers_address :: map FillFrame fills ++ [Materialize].

End Sequence.

End DeoptSequence.

(** ** The type engine: what the object model owes it *)

Module TypeEngineContract.
Import TypeEngine.

Section Contract.

Context {M : ObjectModel}.

(** [Canonicalize] gives a canonical vector that is not lazy (the "unique
    representative" of the flat vector), as seen in the state it leaves. *)
Definition canonicalizes : Prop :=
  forall o type_arguments,
    let r := Canonicalize o type_arguments in
    IsInstantiatedTypeArguments (snd r) (fst r) = false /\
    IsCanonical (snd r) (fst r) = true.

End Contract.

End TypeEngineContract.

(** ** The optimization filter, as a list of entries *)

Module OptimizationFilter.

Fixpoint has_comma (s : string) : bool :=
  match s with
  | EmptyString => false
  | String c rest => Ascii.eqb c ","%char || has_comma rest
  end.

(** [needle] occurs in [haystack]. *)
Definition occurs_in (needle haystack : string) : Prop :=
  exists before after, haystack = (before ++ needle ++ after)%string.

(** [entry] is one of the comma-separated entries of [filter]: a non-empty
    run of characters other than the comma that starts at the beginning of
    the filter or after a comma and ends at the end of the filter or before
    a comma. *)
Definition is_entry (entry filter : string) : Prop :=
  entry <> EmptyString /\
  has_comma entry = false /\
  exists before after,
    filter = (before ++ entry ++ after)%string /\
    (before = EmptyString \/ exists b, before = (b ++ ",")%string) /\
    (after = EmptyString \/ exists a, after = String ","%char a).

End OptimizationFilter.

(** ** Adaptive optimizer: the entry of a function that got hot *)

Module OptimizerEntries.
Import Heap Optimizer.

Section Entries.

Context {F : Flags} {E : Embedder}.

(** [DEFINE_RUNTIME_ENTRY(OptimizeInvokedFunction, 1)].  [kNoDeoptId] is the
    [osr_id] that [Compiler::CompileOptimizedFunction(function)] takes when
    it is given none (compiler.h). *)
Definition OptimizeInvokedFunction (kNoDeoptId : Z) (function : RawObject)
  (iso : Isolate) : Outcome Isolate RawObject :=
  (* ASSERT(!function.IsNull()); ASSERT(function.HasCode()); *)
  bind (CanOptimizeFunction function iso) (fun can iso1 =>
  bind
    (if can then
       let '(error, h2) :=
         CompileOptimizedFunction (heap iso1) function kNoDeoptId in
       let iso2 := set_heap h2 iso1 in
       match error with
       | Some e => Throws (PropagatedError e) iso2
       | None =>
           deref (functions h2 !! function) (fun f2 =>
           (* const Code& optimized_code = Code::Handle(function.CurrentCode());
              ASSERT(!optimized_code.IsNull()); *)
           Returns tt
             (set_heap (update_function function (set_usage_counter 0) h2)
                iso2))
       end
     else Returns tt iso1)
    (fun _ iso3 =>
  deref (functions (heap iso3) !! function) (fun f =>
  Returns (CurrentCode f) iso3))).

End Entries.

(** Two embedders that differ at most in their compiler. *)
Definition same_but_compiler (E1 E2 : Embedder) : Prop :=
  @CollectGarbage E1 = @CollectGarbage E2 /\
  @HandleOOBMessages E1 = @HandleOOBMessages E2 /\
  @InterruptCallback E1 = @InterruptCallback E2 /\
  @VmStatsCallback E1 = @VmStatsCallback E2 /\
  @kApiInterrupt E1 = @kApiInterrupt E2 /\
  @kMessageInterrupt E1 = @kMessageInterrupt E2 /\
  @kStoreBufferInterrupt E1 = @kStoreBufferInterrupt E2 /\
  @kVmStatusInterrupt E1 = @kVmStatusInterrupt E2.

End OptimizerEntries.

(** ** IC engine: the miss handlers *)

Module ICMiss.
Import ICEngine.

(** What the miss handlers call outside this file: the resolver, the
    compiler (unoptimized compilation) and the accessors of Function and
    Code objects, which live in the state managed code runs on. *)
Class Linker {R : Runtime} : Type := mkLinker {
  (* ArgumentsDescriptor(Array::Handle(ic_data.arguments_descriptor())) *)
  arguments_descriptor : Dart -> RawObject -> ArgumentsDescriptor;
  (* Resolver::ResolveDynamic(receiver, function_name, arguments_descriptor) *)
  ResolveDynamic : Dart -> Object -> string -> ArgumentsDescriptor -> RawObject;
  (* function.HasCode() *)
  HasCode : Dart -> RawObject -> bool;
  (* Compiler::CompileFunction(function) *)
  CompileFunction : Dart -> RawObject -> Error * Dart;
  (* function.CurrentCode() *)
  FunctionCurrentCode : Dart -> RawObject -> RawObject;
  (* code.function() *)
  CodeFunction : Dart -> RawObject -> RawObject
}.

(** Modelled from the spec: [ICData::GetTargetAt(index)] (object.cc), the
    "resolved-function" of the check at [index] of the "ordered list of
    checks". *)
Definition GetTargetAt (ic_data : ICData) (index : nat) : option RawObject :=
  target <$> checks ic_data !! index.

Section Handlers.

Context {R : Runtime} {L : Linker}.

(** [if (!function.HasCode()) { error = Compiler::CompileFunction(function);
    if (!error.IsNull()) Exceptions::PropagateError(error); }] *)
Definition EnsureHasCode (function : RawObject) (w : World)
  : Outcome World unit :=
  if negb (HasCode (dart w) function) then
    let '(error, d1) := CompileFunction (dart w) function in
    match error with
    | Some e => Throws (PropagatedError e) (set_dart d1 w)
    | None => Returns tt (set_dart d1 w)
    end
  else Returns tt w.

(** [RawCode* ResolveCompileInstanceCallTarget(const Instance& receiver,
    const ICData& ic_data)] *)
Definition ResolveCompileInstanceCallTarget (receiver : Object)
  (ic_data : RawObject) (w : World) : Outcome World RawObject :=
  deref (ic_datas w !! ic_data) (fun ic =>
  let descriptor := arguments_descriptor (dart w) ic_data in
  let function_name := target_name ic in
  (* ASSERT(function_name.IsSymbol()); *)
  let function := ResolveDynamic (dart w) receiver function_name descriptor in
  if IsNull function then Returns null w
  else
    bind (EnsureHasCode function w) (fun _ w1 =>
    Returns (FunctionCurrentCode (dart w1) function) w1)).

(** [static RawFunction* InlineCacheMissHandler(
    const GrowableArray<const Instance*>& args, const ICData& ic_data)] *)
Definition InlineCacheMissHandler (args : list Object) (ic_data : RawObject)
  (w : World) : Outcome World RawObject :=
  deref (args !! 0%nat) (fun receiver =>
  bind (ResolveCompileInstanceCallTarget receiver ic_data w)
    (fun target_code w1 =>
  if IsNull target_code then Returns null w1
  else
    let target_function := CodeFunction (dart w1) target_code in
    (* ASSERT(!target_function.IsNull()); *)
    if (length args =? 1)%nat then
      Returns target_function
        (update_ic_data ic_data
           (AddReceiverCheck (GetClassId receiver) target_function) w1)
    else
      (* ASSERT(ic_data.num_args_tested() == args.length()); *)
      (* for (intptr_t i = 0; i < args.length(); i++)
           class_ids.Add(args[i]->GetClassId()); *)
      deref (add_class_ids args 0 (length args) []) (fun class_ids =>
      Returns target_function
        (update_ic_data ic_data (AddCheck class_ids target_function) w1)))).

(** [DEFINE_RUNTIME_ENTRY(InlineCacheMissHandlerOneArg, 2)] *)
Definition InlineCacheMissHandlerOneArg (receiver : Object)
  (ic_data : RawObject) (w : World) : Outcome World RawObject :=
  InlineCacheMissHandler [receiver] ic_data w.

(** [DEFINE_RUNTIME_ENTRY(InlineCacheMissHandlerTwoArgs, 3)] *)
Definition InlineCacheMissHandlerTwoArgs (receiver other : Object)
  (ic_data : RawObject) (w : World) : Outcome World RawObject :=
  InlineCacheMissHandler [receiver; other] ic_data w.

(** [DEFINE_RUNTIME_ENTRY(InlineCacheMissHandlerThreeArgs, 4)] *)
Definition InlineCacheMissHandlerThreeArgs (receiver arg1 arg2 : Object)
  (ic_data : RawObject) (w : World) : Outcome World RawObject :=
  InlineCacheMissHandler [receiver; arg1; arg2] ic_data w.

(** [DEFINE_RUNTIME_ENTRY(StaticCallMissHandlerTwoArgs, 3)] *)
Definition StaticCallMissHandlerTwoArgs (arg0 arg1 : Object)
  (ic_data : RawObject) (w : World) : Outcome World RawObject :=
  deref (ic_datas w !! ic_data) (fun ic =>
  (* ASSERT(ic_data.NumberOfChecks() > 0); *)
  deref (GetTargetAt ic 0) (fun target =>
  bind (EnsureHasCode target w) (fun _ w1 =>
  (* ASSERT(!target.IsNull() && target.HasCode()); *)
  let cids := [GetClassId arg0; GetClassId arg1] in
  Returns target (update_ic_data ic_data (AddCheck cids target) w1)))).

End Handlers.

(** The IC data of a static call: every check has the statically known
    target. *)
Definition static_call_checks (target0 : RawObject) (ic : ICData) : Prop :=
  checks ic <> [] /\ Forall (fun c => target c = target0) (checks ic).

End ICMiss.

(** ** Allocation entries: contexts *)

Module Contexts.

(** Modelled from the spec: a Context object (its class is in object.cc)
    holds the captured variables of a scope and the context of the
    enclosing scope; [allocate_context(num_variables)] gives "a new context
    large enough to hold the given number of variables". *)
Record Context : Type := mkContext {
  parent : RawObject;
  variables : list RawObject
}.

Abbreviation Store := (gmap RawObject Context) (only parsing).

Definition num_variables (c : Context) : Z := Z.of_nat (length (variables c)).

Section Entries.

(** What a context holds when [Context::New] returns it. *)
Variable new_parent : RawObject.
Variable new_variable : nat -> RawObject.

(** Modelled from the spec: [Context::New(num_variables)] (object.cc), the
    "object allocation primitive" behind [allocate_context(num_variables)]:
    "a new context large enough to hold the given number of variables", at
    an address that is not null and where no context was. *)
Definition Context_New (num_variables : nat) (s : Store) : RawObject * Store :=
  let context := fresh ({[null]} ∪ dom s) in
  (context,
   <[context := mkContext new_parent (map new_variable (seq 0 num_variables))]> s).

(** [context.set_parent(value)] *)
Definition set_parent (context : RawObject) (value : RawObject) (s : Store)
  : Outcome Store unit :=
  deref (s !! context) (fun c =>
  Returns tt (<[context := mkContext value (variables c)]> s)).

(** [context.At(i)] *)
Definition At (context : RawObject) (i : nat) (s : Store)
  : Outcome Store RawObject :=
  deref (s !! context) (fun c =>
  deref (variables c !! i) (fun value => Returns value s)).

(** [context.SetAt(i, value)] *)
Definition SetAt (context : RawObject) (i : nat) (value : RawObject)
  (s : Store) : Outcome Store unit :=
  deref (s !! context) (fun c =>
  if bool_decide (i < length (variables c))%nat then
    Returns tt
      (<[context := mkContext (parent c) (<[i := value]> (variables c))]> s)
  else Crashes).

(** [for (int i = 0; i < ctx.num_variables(); i++)
      cloned_ctx.SetAt(i, Instance::Handle(ctx.At(i)));]
    from [i] on; one unit of fuel per test of the loop condition. *)
Fixpoint copy_variables (fuel : nat) (i : nat) (ctx cloned_ctx : RawObject)
  (s : Store) : Outcome Store unit :=
  match fuel with
  | O => OutOfFuel
  | S fuel' =>
      deref (s !! ctx) (fun c =>
      if Z.of_nat i <? num_variables c then
        bind (At ctx i s) (fun value s1 =>
        bind (SetAt cloned_ctx i value s1) (fun _ s2 =>
        copy_variables fuel' (S i) ctx cloned_ctx s2))
      else Returns tt s)
  end.

(** [DEFINE_RUNTIME_ENTRY(CloneContext, 1)] *)
Definition CloneContext (fuel : nat) (ctx : RawObject) (s : Store)
  : Outcome Store RawObject :=
  deref (s !! ctx) (fun c =>
  let '(cloned_ctx, s1) := Context_New (Z.to_nat (num_variables c)) s in
  deref (s1 !! ctx) (fun c1 =>
  bind (set_parent cloned_ctx (parent c1) s1) (fun _ s2 =>
  bind (copy_variables fuel 0 ctx cloned_ctx s2) (fun _ s3 =>
  Returns cloned_ctx s3)))).

End Entries.

End Contexts.

(** ** Allocation entries: a generic object with its bounds checked *)

Module Allocation.
Import TypeEngine.

Section Entries.

Context {M : ObjectModel} {F : Flags}.

(** What the type-argument slot of an instance holds when [Instance::New]
    returns it. *)
Variable new_type_arguments : RawObject.

(** Modelled from the spec: [Instance::New(cls)] (object.cc), the "object
    allocation primitive" behind [allocate_object]: a new instance of the
    class, at an address that is not null and where no instance was. *)
Definition Instance_New (cls : Class) (w : World) : RawObject * World :=
  let instance := fresh ({[null]} ∪ dom (instances w)) in
  (instance,
   mkWorld (om w)
     (<[instance := mkInstance cls new_type_arguments]> (instances w))
     (caches w) (frames w)).

(** [DEFINE_RUNTIME_ENTRY(AllocateObjectWithBoundsCheck, 3)].  The third
    argument is the type arguments of the instantiator, or the Smi
    [kNoInstantiator]: [None]. *)
Definition AllocateObjectWithBoundsCheck (cls : Class)
  (type_arguments : RawObject) (instantiator : option RawObject) (w : World)
  : Outcome World RawObject :=
  (* ASSERT(FLAG_enable_type_checks); *)
  let '(instance, w1) := Instance_New cls w in
  (* ASSERT(cls.NumTypeArguments() > 0); *)
  bind
    (match instantiator with
     | None => Returns type_arguments w1
     | Some instantiator =>
         let '((type_arguments', bound_error), o') :=
           InstantiateFrom (om w1) type_arguments instantiator in
         let w2 := set_om o' w1 in
         if negb (bool_decide (bound_error = None)) then
           GetCallerLocation w2 (fun location =>
           let bound_error_message := Some (ToErrorCString bound_error) in
           Throws (TypeError location (Some EmptyString) (Some EmptyString)
                     (Some EmptyString) bound_error_message) w2)
         else Returns type_arguments' w2
     end)
    (fun type_arguments w3 =>
  (* ASSERT(type_arguments.IsNull() || type_arguments.IsInstantiated()); *)
  Returns instance (SetTypeArguments instance type_arguments w3)).

End Entries.

End Allocation.

(** ** Concrete states the theorems are run on *)

Module Examples.

(** *** Type engine: a list instance with a lazy type-argument vector *)

Module Types.
Import TypeEngine.

(** An object model with one lazy vector, at 30; it instantiates to the flat
    vector at 31, whose canonical vector is at 32.  Instances of class 7 are
    instances of every type; the test against the type named Malbounded
    leaves a bound error. *)
Definition model : ObjectModel := {|
  OM := unit;
  AbstractType := string;
  IsInstantiatedTypeArguments := fun _ r => r =? 30;
  IsCanonical := fun _ r => r =? 32;
  uninstantiated_type_arguments := fun _ _ => 28;
  instantiator_type_arguments_of := fun _ _ => 29;
  InstantiateFrom := fun o _ _ => ((31, None), o);
  Canonicalize := fun o _ => (32, o);
  IsInstanceOf := fun _ i type _ =>
    (id (clazz i) =? 7,
     if String.eqb type "Malbounded" then Some "bound"%string else None);
  IsInstantiated := fun _ _ => true;
  TypeInstantiateFrom := fun _ type _ => type;
  UserVisibleName := fun _ type => Some type;
  GetType := fun _ i => if id (clazz i) =? 7 then "List"%string else "int"%string
|}.

Definition flags (max_subtype_cache_entries : Z) : Flags :=
  mkFlags max_subtype_cache_entries 16 None false true.

Definition list_instance : Instance := mkInstance (mkClass 7 1) 30.
Definition int_instance : Instance := mkInstance (mkClass 9 0) 0.

(** The instance at 100 is the list, the one at 101 the int; the cache at
    200 is empty, the one at 201 has the check of an int. *)
Definition world : @World model :=
  @mkWorld model tt
    (<[100 := list_instance]> (<[101 := int_instance]> ∅))
    (<[200 := []]> (<[201 := [mkCheck 9 0 0 true]]> ∅))
    [mkStackFrame 4096 300 17].

Definition calls : list (@Call model) :=
  [@CallInstanceof model 5 100 "List"%string 0 0 200;
   @CallTypeCheck model 5 100 "List"%string 0 0 (Some "x"%string) 200;
   @CallInstanceof model 5 101 "List"%string 0 0 200].

(** The world after the first call: the list's vector is canonical and the
    cache at 200 has its check. *)
Definition world_canonical : @World model :=
  @mkWorld model tt
    (<[100 := mkInstance (mkClass 7 1) 32]> (<[101 := int_instance]> ∅))
    (<[200 := [mkCheck 7 32 0 true]]> (<[201 := [mkCheck 9 0 0 true]]> ∅))
    [mkStackFrame 4096 300 17].

(** The world after the three calls when the maximum is 100. *)
Definition world_after_calls : @World model :=
  @mkWorld model tt
    (<[100 := mkInstance (mkClass 7 1) 32]> (<[101 := int_instance]> ∅))
    (<[200 := [mkCheck 7 32 0 true; mkCheck 9 0 0 false]]>
       (<[201 := [mkCheck 9 0 0 true]]> ∅))
    [mkStackFrame 4096 300 17].

(** The world after a call on the list with the full cache at 201 when the
    maximum is 1: only the list's vector has changed. *)
Definition world_full : @World model :=
  @mkWorld model tt
    (<[100 := mkInstance (mkClass 7 1) 32]> (<[101 := int_instance]> ∅))
    (<[200 := []]> (<[201 := [mkCheck 9 0 0 true]]> ∅))
    [mkStackFrame 4096 300 17].

Definition depth (o : unit) (r : Z) : nat := 0.

End Types.

(** *** IC engine: a receiver of class 5 without the method or a getter *)

Module IC.
Import ICEngine.

(** No getter resolves; the dispatcher is the function at 900; invoking it
    returns the object at 1 and records nothing. *)
Definition runtime : Runtime := {|
  Dart := unit;
  ArgumentsDescriptor := unit;
  GetterName := fun name => ("get:" ++ name)%string;
  ResolveGetterForReceiverClass := fun _ _ _ => null;
  IsMethodExtractor := fun _ _ => false;
  GetInvocationDispatcher := fun d _ _ _ _ => (900, d);
  InvokeFunction := fun d ics _ _ _ => (ResultObject 1, (d, ics))
|}.

Definition receiver : Object := mkObject 70 5.

(** The IC data at 50 tests one argument and has the check of class 5; the
    one at 51 tests two (an index operator) and has the check of classes 5
    and 8. *)
Definition world : @World runtime :=
  @mkWorld runtime tt
    (<[50 := mkICData "foo" 1 [mkICCheck [5] 900]]>
       (<[51 := mkICData "[]" 2 [mkICCheck [5; 8] 900]]> ∅)).


(** A runtime in which a getter with the name of the call resolves, at 800;
    the invoke-field dispatcher is the function at 901.  The code it runs
    has a call site of its own, whose IC data is at 60: an invocation
    records the check of class 3 there. *)
Definition getter_runtime : Runtime := {|
  Dart := unit;
  ArgumentsDescriptor := unit;
  GetterName := fun name => ("get:" ++ name)%string;
  ResolveGetterForReceiverClass := fun _ _ _ => 800;
  IsMethodExtractor := fun _ _ => false;
  GetInvocationDispatcher := fun d _ _ _ kind =>
    (match kind with
     | kInvokeFieldDispatcher => 901
     | kNoSuchMethodDispatcher => 900
     end, d);
  InvokeFunction := fun d ics _ _ _ =>
    (ResultObject 1, (d, alter (AddReceiverCheck 3 800) 60 ics))
|}.

(** The IC data at 50 has the check of class 5 with the invoke-field
    dispatcher already; the one at 60 has no check. *)
Definition getter_world : @World getter_runtime :=
  @mkWorld getter_runtime tt
    (<[50 := mkICData "foo" 1 [mkICCheck [5] 901]]>
       (<[60 := mkICData "call" 1 []]> ∅)).

(** Every call resolves to the function at 700, whose code, at 710, is
    there already; the function at 900 has code as well. *)
Definition linker : @ICMiss.Linker runtime :=
  @ICMiss.mkLinker runtime
    (fun _ _ => tt)
    (fun _ _ _ _ => 700)
    (fun _ _ => true)
    (fun d _ => (None, d))
    (fun _ function => function + 10)
    (fun _ code => code - 10).

End IC.

(** *** Optimizer: a function in a hot loop *)

Module Opt.
Import Heap Optimizer.

Definition no_table (pc : Z) : Z := 0.
Definition osr_table (pc : Z) : Z := if pc =? 4100 then 3 else -1.

(** The function at 1 has unoptimized code at 10 and optimized code at 11. *)
Definition unoptimized_code_10 : Code :=
  mkCode 1 false true 4000 0 no_table osr_table.
Definition optimized_code_11 : Code :=
  mkCode 1 true true 5000 5100 no_table no_table.
Definition osr_code_12 : Code :=
  mkCode 1 true true 9000 9100 no_table no_table.

Definition hot_function (current_code : Z) (deoptimizations : Z) : Function :=
  mkFunction "Foo.loop" 7 15000 deoptimizations true current_code 10.

Definition hot_heap (current_code : Z) (deoptimizations : Z) : Heap :=
  mkHeap (<[1 := hot_function current_code deoptimizations]> ∅)
    (<[10 := unoptimized_code_10]> (<[11 := optimized_code_11]> ∅)).

(** The topmost frame runs the unoptimized code of the function, at the pc
    of a loop. *)
Definition isolate (current_code : Z) (deoptimizations : Z) (stepping : bool)
  : Isolate :=
  mkIsolate (hot_heap current_code deoptimizations)
    [mkStackFrame 4100 10 33] 1000 0 stepping (fun _ => false) 99.

(** The compiler makes the code at 12 and installs it as current code. *)
Definition embedder : Embedder := {|
  CompileOptimizedFunction := fun h function osr_id =>
    (None,
     mkHeap (alter (SetCode 12) function (functions h))
       (<[12 := osr_code_12]> (codes h)));
  CollectGarbage := fun iso => iso;
  HandleOOBMessages := fun iso => iso;
  InterruptCallback := None;
  VmStatsCallback := None;
  kApiInterrupt := 1;
  kMessageInterrupt := 2;
  kStoreBufferInterrupt := 4;
  kVmStatusInterrupt := 8
|}.

(** A compiler that bails out: the heap is as it was. *)
Definition bailing_embedder : Embedder := {|
  CompileOptimizedFunction := fun h function osr_id => (None, h);
  CollectGarbage := fun iso => iso;
  HandleOOBMessages := fun iso => iso;
  InterruptCallback := None;
  VmStatsCallback := None;
  kApiInterrupt := 1;
  kMessageInterrupt := 2;
  kStoreBufferInterrupt := 4;
  kVmStatusInterrupt := 8
|}.

Definition flags : Flags := mkFlags 100 16 (Some "Bar,Foo") false true.

End Opt.

(** *** Deoptimizer: one optimized frame *)

Module Deopt.
Import Heap Deoptimizer.

Definition heap : Heap :=
  mkHeap (<[1 := Opt.hot_function 11 0]> ∅)
    (<[10 := Opt.unoptimized_code_10]>
       (<[11 := Opt.optimized_code_11]> ∅)).

Definition world : World :=
  mkWorld heap [mkStackFrame 5040 11 33] ∅.


(** Two frames: the optimized code at 11 called from the unoptimized code
    at 10. *)
Definition stack_world : World :=
  mkWorld heap [mkStackFrame 5040 11 33; mkStackFrame 4100 10 33] ∅.

End Deopt.

(** *** Deopt entries *)

Module Entries.
Import DeoptEntries.

Definition target : Target := {|
  kWordSize := 8;
  kFpuRegisterSize := 16;
  kNumberOfCpuRegisters := 2;
  kNumberOfFpuRegisters := 1;
  kFirstLocalSlotFromFp := -2;
  kDartFrameFixedSize := 2;
  DestStackAdjustment := fun _ => 3;
  FillDestFrame := fun c => c;
  MaterializeDeferredObjects := fun _ => 1
|}.

Definition isolate : Isolate :=
  mkIsolate None ∅ (fun address => address)
    (fun fp => Some (mkStackFrame 5040 11 33, fp - 64)).


(** The isolate in the middle of a deoptimization: the context at 1 is
    installed. *)
Definition deopting_isolate : Isolate :=
  mkIsolate (Some 1%positive)
    (<[1%positive := mkDeoptContext (mkStackFrame 5040 11 33) 11 [] [] None]> ∅)
    (fun address => address)
    (fun fp => Some (mkStackFrame 5040 11 33, fp - 64)).

End Entries.

(** *** Contexts: one context with two variables *)

Module Ctx.
Import Contexts.

(** The context at 7 has the parent at 3 and holds the objects at 11 and
    12. *)
Definition store : gmap Z Context :=
  <[7 := mkContext 3 [11; 12]]> ∅.

End Ctx.

End Examples.

(** * Part II: theorems *)

(** ** The subtype-test cache *)

Section TypeEngineFacts.
Import TypeEngine.
Context {M : ObjectModel} {F : Flags}.

Lemma scan_true_iff (checks : list Check) (k : Key) :
  scan checks k = true <-> In k (map key_of checks).
Proof.
  induction checks as [|c rest IH]; simpl.
  - split; [discriminate | tauto].
  - destruct k as [[cid ita] iita].
    destruct ((instance_class_id c =? cid) && (instance_type_arguments c =? ita)
              && (instantiator_type_arguments c =? iita)) eqn:E.
    + apply andb_prop in E as [E E3]. apply andb_prop in E as [E1 E2].
      apply Z.eqb_eq in E1, E2, E3.
      split; [intros _; left; unfold key_of; congruence | trivial].
    + rewrite IH. split; [tauto | intros [H | H]; [ | exact H]].
      unfold key_of in H. injection H as H1 H2 H3.
      rewrite H1, H2, H3, !Z.eqb_refl in E. discriminate.
Qed.

Lemma scan_false_iff (checks : list Check) (k : Key) :
  scan checks k = false <-> ~ In k (map key_of checks).
Proof.
  rewrite <- scan_true_iff. destruct (scan checks k); split; intros; congruence.
Qed.

Lemma OptimizeTypeArguments_frame fuel instance w b w' :
  OptimizeTypeArguments fuel instance w = Returns b w' ->
  caches w' = caches w /\ frames w' = frames w.
Proof.
  unfold OptimizeTypeArguments, deref.
  destruct (instances w !! instance) as [i|]; [ | discriminate].
  destruct (NumTypeArguments (clazz i) =? 0); [intros [= _ <-]; auto | ].
  destruct (IsNull (GetTypeArguments i)); [intros [= _ <-]; auto | ].
  destruct (IsInstantiatedTypeArguments (om w) (GetTypeArguments i)).
  - destruct (instantiate_loop fuel (om w) (GetTypeArguments i))
      as [[ta o1]|]; [ | discriminate].
    destruct (Canonicalize o1 ta) as [nta o2]. intros [= _ <-]; auto.
  - destruct (negb (IsCanonical (om w) (GetTypeArguments i))).
    + destruct (Canonicalize (om w) (GetTypeArguments i)) as [nta o1].
      intros [= _ <-]; auto.
    + intros [= _ <-]; auto.
Qed.

Lemma canonicalize_key_frame fuel instance instantiator ita w kr w' :
  canonicalize_key fuel instance instantiator ita w = Returns kr w' ->
  caches w' = caches w /\ frames w' = frames w.
Proof.
  unfold canonicalize_key, deref, bind.
  destruct (instances w !! instance) as [i|]; [ | discriminate].
  destruct (0 <? NumTypeArguments (clazz i)).
  - destruct (OptimizeTypeArguments fuel instance w) as [b w1| | | |] eqn:E1;
      try discriminate.
    apply OptimizeTypeArguments_frame in E1 as [Hc1 Hf1].
    destruct (instances w1 !! instance) as [i1|]; [ | discriminate].
    destruct (negb (IsNull instantiator)).
    + destruct (OptimizeTypeArguments fuel instantiator w1) as [b2 w2| | | |]
        eqn:E2; try discriminate.
      apply OptimizeTypeArguments_frame in E2 as [Hc2 Hf2].
      destruct (instances w2 !! instantiator); [ | discriminate].
      intros [= _ <-]. split; congruence.
    + intros [= _ <-]. auto.
  - destruct (negb (IsNull instantiator)).
    + destruct (OptimizeTypeArguments fuel instantiator w) as [b2 w2| | | |]
        eqn:E2; try discriminate.
      apply OptimizeTypeArguments_frame in E2 as [Hc2 Hf2].
      destruct (instances w2 !! instantiator); [ | discriminate].
      intros [= _ <-]. auto.
    + intros [= _ <-]. auto.
Qed.

(** What one [UpdateTypeTestCache] does to the caches: nothing, or one check
    appended to a cache that is below the maximum and has no check with the
    key of the new one. *)
Lemma UpdateTypeTestCache_caches fuel instance instantiator ita result cache w w' :
  UpdateTypeTestCache fuel instance instantiator ita result cache w
    = Returns tt w' ->
  frames w' = frames w /\
  (caches w' = caches w \/
   exists checks c,
     caches w !! cache = Some checks /\
     NumberOfChecks checks < FLAG_max_subtype_cache_entries /\
     ~ In (key_of c) (map key_of checks) /\
     test_result c = result /\
     caches w' = <[cache := checks ++ [c]]> (caches w)).
Proof.
  unfold UpdateTypeTestCache.
  destruct (IsNull cache); [intros [= <-]; auto | ].
  unfold bind.
  destruct (canonicalize_key fuel instance instantiator ita w)
    as [[k replaced] w1| | | |] eqn:Ek; try discriminate.
  apply canonicalize_key_frame in Ek as [Hc Hf].
  unfold deref. destruct (caches w1 !! cache) as [checks|] eqn:El;
    [ | discriminate].
  destruct (FLAG_max_subtype_cache_entries <=? NumberOfChecks checks) eqn:Emax;
    [intros [= <-]; auto | ].
  destruct (scan checks k) eqn:Escan; [intros [= <-]; auto | ].
  destruct k as [[cid kita] kiita].
  destruct (negb (IsInstantiatedTypeArguments (om w1) kiita));
    [ | intros [= <-]; auto].
  intros [= <-]. split; [exact Hf | right].
  exists checks, (mkCheck cid kita kiita result). simpl.
  rewrite <- Hc. repeat split; try assumption.
  - apply Z.leb_gt in Emax. exact Emax.
  - apply scan_false_iff in Escan. exact Escan.
Qed.

(** The cache update raises nothing: only the entries throw. *)
Lemma OptimizeTypeArguments_no_throw fuel instance w e s :
  OptimizeTypeArguments fuel instance w <> Throws e s.
Proof.
  unfold OptimizeTypeArguments, deref.
  repeat match goal with
         | |- context [match ?x with _ => _ end] => destruct x
         end; discriminate.
Qed.

Lemma canonicalize_key_no_throw fuel instance instantiator ita w e s :
  canonicalize_key fuel instance instantiator ita w <> Throws e s.
Proof.
  unfold canonicalize_key, deref, bind.
  destruct (instances w !! instance) as [i|]; [ | discriminate].
  destruct (0 <? NumTypeArguments (clazz i)).
  - destruct (OptimizeTypeArguments fuel instance w) as [b w1|e1 s1| | |] eqn:E1;
      try discriminate;
      [ | now apply OptimizeTypeArguments_no_throw in E1].
    destruct (instances w1 !! instance); [ | discriminate].
    destruct (negb (IsNull instantiator)); [ | discriminate].
    destruct (OptimizeTypeArguments fuel instantiator w1)
      as [b2 w2|e2 s2| | |] eqn:E2; try discriminate;
      [ | now apply OptimizeTypeArguments_no_throw in E2].
    destruct (instances w2 !! instantiator); discriminate.
  - destruct (negb (IsNull instantiator)); [ | discriminate].
    destruct (OptimizeTypeArguments fuel instantiator w)
      as [b2 w2|e2 s2| | |] eqn:E2; try discriminate;
      [ | now apply OptimizeTypeArguments_no_throw in E2].
    destruct (instances w2 !! instantiator); discriminate.
Qed.

Lemma UpdateTypeTestCache_no_throw fuel instance instantiator ita result cache w e s :
  UpdateTypeTestCache fuel instance instantiator ita result cache w
    <> Throws e s.
Proof.
  unfold UpdateTypeTestCache.
  destruct (IsNull cache); [discriminate | ].
  unfold bind.
  destruct (canonicalize_key fuel instance instantiator ita w)
    as [[k replaced] w1|e1 s1| | |] eqn:Ek; try discriminate;
    [ | now apply canonicalize_key_no_throw in Ek].
  unfold deref.
  repeat match goal with
         | |- context [match ?x with _ => _ end] => destruct x
         end; discriminate.
Qed.

(** Where an entry leaves a world, it is the world it started in or the one
    its [UpdateTypeTestCache] made. *)
Lemma Instanceof_world fuel instance type instantiator ita cache w w' :
  world_after (Instanceof fuel instance type instantiator ita cache w)
    = Some w' ->
  w' = w \/
  exists result,
    UpdateTypeTestCache fuel instance instantiator ita result cache w
      = Returns tt w'.
Proof.
  unfold Instanceof, deref.
  destruct (instances w !! instance) as [i|]; [ | discriminate].
  destruct (IsInstanceOf (om w) i type ita) as [result bound_error].
  destruct (negb result && negb (bool_decide (bound_error = None))).
  - unfold GetCallerLocation. destruct (frames w); [simpl; discriminate | ].
    simpl. intros [= <-]. now left.
  - unfold bind.
    destruct (UpdateTypeTestCache fuel instance instantiator ita result cache w)
      as [[] w1|e1 s1| | |] eqn:E; try (simpl; discriminate);
      [ | now apply UpdateTypeTestCache_no_throw in E].
    simpl. intros [= <-]. right. now exists result.
Qed.

Lemma TypeCheck_world fuel src dst_type dst_instantiator ita dst_name cache w w' :
  world_after
    (TypeCheck fuel src dst_type dst_instantiator ita dst_name cache w)
    = Some w' ->
  w' = w \/
  UpdateTypeTestCache fuel src dst_instantiator ita true cache w
    = Returns tt w'.
Proof.
  unfold TypeCheck, deref.
  destruct (instances w !! src) as [i|]; [ | discriminate].
  destruct (IsInstanceOf (om w) i dst_type ita) as [is_instance_of bound_error].
  destruct (negb is_instance_of).
  - unfold GetCallerLocation. destruct (frames w); [simpl; discriminate | ].
    simpl. intros [= <-]. now left.
  - unfold bind.
    destruct (UpdateTypeTestCache fuel src dst_instantiator ita true cache w)
      as [[] w1|e1 s1| | |] eqn:E; try (simpl; discriminate);
      [ | now apply UpdateTypeTestCache_no_throw in E].
    simpl. intros [= <-]. now right.
Qed.

(** One call changes the caches by at most one append, to a cache below the
    maximum, of a check whose key the cache does not have. *)
Lemma run_call_caches c w w' :
  run_call c w = Some w' ->
  caches w' = caches w \/
  exists cache checks ch,
    caches w !! cache = Some checks /\
    NumberOfChecks checks < FLAG_max_subtype_cache_entries /\
    ~ In (key_of ch) (map key_of checks) /\
    caches w' = <[cache := checks ++ [ch]]> (caches w).
Proof.
  destruct c as [fuel instance type instantiator ita cache
                | fuel src dst_type dst_instantiator ita dst_name cache]; simpl;
    intros H.
  - apply Instanceof_world in H as [-> | [result H]]; [now left | ].
    apply UpdateTypeTestCache_caches in H
      as [_ [H | (checks & ch & H1 & H2 & H3 & _ & H5)]]; [now left | right].
    now exists cache, checks, ch.
  - apply TypeCheck_world in H as [-> | H]; [now left | ].
    apply UpdateTypeTestCache_caches in H
      as [_ [H | (checks & ch & H1 & H2 & H3 & _ & H5)]]; [now left | right].
    now exists cache, checks, ch.
Qed.

(** A property of caches that appending a fresh key below the maximum keeps
    is kept by every sequence of calls. *)
Lemma run_calls_invariant (P : SubtypeTestCache -> Prop) :
  (forall checks ch,
     P checks ->
     NumberOfChecks checks < FLAG_max_subtype_cache_entries ->
     ~ In (key_of ch) (map key_of checks) ->
     P (checks ++ [ch])) ->
  forall cs w w',
    (forall cache checks, caches w !! cache = Some checks -> P checks) ->
    run_calls cs w = Some w' ->
    forall cache checks, caches w' !! cache = Some checks -> P checks.
Proof.
  intros Hstep cs. induction cs as [|c rest IH]; simpl; intros w w' Hw Hrun.
  - injection Hrun as <-. exact Hw.
  - destruct (run_call c w) as [w1|] eqn:Hc; [ | discriminate].
    apply (IH w1 w'); [ | exact Hrun].
    apply run_call_caches in Hc
      as [Hc | (cache0 & checks0 & ch & H1 & H2 & H3 & H4)].
    + rewrite Hc. exact Hw.
    + intros cache checks. rewrite H4.
      destruct (decide (cache0 = cache)) as [-> | Hne].
      * rewrite lookup_insert_eq. intros [= <-].
        apply Hstep; [eapply Hw; eassumption | assumption | assumption].
      * rewrite lookup_insert_ne by exact Hne. apply Hw.
Qed.

(** C4. The subtype-test caches stay within [FLAG_max_subtype_cache_entries]
    over every sequence of [Instanceof] and [TypeCheck] calls: if no cache
    has more checks than the maximum, none has after the sequence (nor after
    any of its prefixes, which are sequences too); and an
    [UpdateTypeTestCache] on a cache whose number of checks is at or above
    the maximum leaves every cache as it was. *)
Theorem subtype_cache_bounded :
  (forall cs w w',
     bounded w -> run_calls cs w = Some w' -> bounded w') /\
  (forall fuel instance instantiator ita result cache checks w w',
     caches w !! cache = Some checks ->
     FLAG_max_subtype_cache_entries <= NumberOfChecks checks ->
     UpdateTypeTestCache fuel instance instantiator ita result cache w
       = Returns tt w' ->
     caches w' = caches w).
Proof.
  split.
  - intros cs w w' Hw Hrun. unfold bounded.
    apply (run_calls_invariant
             (fun checks =>
                NumberOfChecks checks <= FLAG_max_subtype_cache_entries))
      with (cs := cs) (w := w); [ | exact Hw | exact Hrun].
    intros checks ch _ Hlt _. unfold NumberOfChecks in *.
    rewrite length_app. simpl. lia.
  - intros fuel instance instantiator ita result cache checks w w' Hl Hmax H.
    apply UpdateTypeTestCache_caches in H
      as [_ [H | (checks0 & ch & H1 & H2 & _)]]; [exact H | ].
    rewrite Hl in H1. injection H1 as <-. lia.
Qed.

(** C5. No subtype-test cache gets two checks with the same key triple
    (class id, instance type arguments, instantiator type arguments, the two
    vectors compared as raw pointers after canonicalization): if no cache has
    a duplicate key, none has after any sequence of [Instanceof] and
    [TypeCheck] calls; and an [UpdateTypeTestCache] whose canonicalized key
    is the key of a check of the cache returns with the caches as they
    were. *)
Theorem subtype_cache_no_duplicate_keys :
  (forall cs w w',
     no_duplicate_keys w -> run_calls cs w = Some w' -> no_duplicate_keys w') /\
  (forall fuel instance instantiator ita result cache w k replaced w1 checks,
     canonicalize_key fuel instance instantiator ita w
       = Returns (k, replaced) w1 ->
     caches w1 !! cache = Some checks ->
     In k (map key_of checks) ->
     UpdateTypeTestCache fuel instance instantiator ita result cache w
       = Returns tt (if IsNull cache then w else w1) /\
     caches w1 = caches w).
Proof.
  split.
  - intros cs w w' Hw Hrun. unfold no_duplicate_keys.
    apply (run_calls_invariant (fun checks => NoDup (map key_of checks)))
      with (cs := cs) (w := w); [ | exact Hw | exact Hrun].
    intros checks ch Hnd _ Hfresh.
    rewrite map_app. simpl. apply NoDup_app. repeat split.
    + exact Hnd.
    + intros x Hx Hin. apply list_elem_of_In in Hx.
      apply list_elem_of_In in Hin. simpl in Hin.
      destruct Hin as [<- | []]. contradiction.
    + apply NoDup_singleton.
  - intros fuel instance instantiator ita result cache w k replaced w1 checks
      Hk Hl Hin.
    split; [ | eapply canonicalize_key_frame; exact Hk].
    unfold UpdateTypeTestCache. destruct (IsNull cache); [reflexivity | ].
    rewrite Hk. unfold bind, deref. rewrite Hl.
    destruct (FLAG_max_subtype_cache_entries <=? NumberOfChecks checks);
      [reflexivity | ].
    apply scan_true_iff in Hin. rewrite Hin. reflexivity.
Qed.

(** *** Enough fuel: the update returns when lazy vectors are well founded *)

Lemma instantiate_loop_enough depth :
  well_founded_lazy depth ->
  forall n o type_arguments,
    IsInstantiatedTypeArguments o type_arguments = true ->
    (depth o type_arguments < n)%nat ->
    exists r, forall fuel, (n <= fuel)%nat ->
      instantiate_loop fuel o type_arguments = Some r.
Proof.
  intros Hwf n. induction n as [|n IH]; intros o ta Hlazy Hd; [lia | ].
  specialize (Hwf o ta Hlazy). simpl in Hwf.
  destruct (InstantiateFrom o (uninstantiated_type_arguments o ta)
              (instantiator_type_arguments_of o ta)) as [[ta' be] o'] eqn:E.
  simpl in Hwf.
  destruct (IsInstantiatedTypeArguments o' ta') eqn:El.
  - destruct (IH o' ta' El) as [r Hr]; [specialize (Hwf eq_refl); lia | ].
    exists r. intros [|fuel] Hf; [lia | ]. simpl. rewrite E, El. apply Hr. lia.
  - exists (ta', o'). intros [|fuel] Hf; [lia | ]. simpl. now rewrite E, El.
Qed.

Lemma OptimizeTypeArguments_returns depth instance w :
  well_founded_lazy depth ->
  is_Some (instances w !! instance) ->
  exists n b w',
    (forall fuel, (n <= fuel)%nat ->
       OptimizeTypeArguments fuel instance w = Returns b w') /\
    (forall r, is_Some (instances w !! r) -> is_Some (instances w' !! r)) /\
    caches w' = caches w.
Proof.
  intros Hwf [i Hi]. unfold OptimizeTypeArguments, deref. rewrite Hi.
  destruct (NumTypeArguments (clazz i) =? 0); [now exists 0%nat, false, w | ].
  destruct (IsNull (GetTypeArguments i)); [now exists 0%nat, false, w | ].
  destruct (IsInstantiatedTypeArguments (om w) (GetTypeArguments i)) eqn:El.
  - destruct (instantiate_loop_enough depth Hwf
                (S (depth (om w) (GetTypeArguments i))) (om w) _ El)
      as [[ta o1] Hr]; [lia | ].
    destruct (Canonicalize o1 ta) as [nta o2] eqn:Ec.
    exists (S (depth (om w) (GetTypeArguments i))), true,
      (SetTypeArguments instance nta (set_om o2 w)).
    split; [ | split; [ | reflexivity]].
    + intros fuel Hf. now rewrite (Hr fuel Hf), Ec.
    + intros r Hr'. simpl. now apply lookup_alter_is_Some.
  - destruct (negb (IsCanonical (om w) (GetTypeArguments i)));
      [ | now exists 0%nat, false, w].
    destruct (Canonicalize (om w) (GetTypeArguments i)) as [nta o1].
    exists 0%nat, true, (SetTypeArguments instance nta (set_om o1 w)).
    split; [reflexivity | split; [ | reflexivity]].
    intros r Hr'. simpl. now apply lookup_alter_is_Some.
Qed.

Lemma live_not_null {A : Type} (store : gmap Z A) (r : Z) :
  live_or_null store r -> IsNull r = false -> is_Some (store !! r).
Proof.
  intros [-> | H] Hn; [discriminate | exact H].
Qed.

Lemma canonicalize_key_returns depth instance instantiator ita w :
  well_founded_lazy depth ->
  is_Some (instances w !! instance) ->
  live_or_null (instances w) instantiator ->
  exists n kr w1,
    (forall fuel, (n <= fuel)%nat ->
       canonicalize_key fuel instance instantiator ita w = Returns kr w1) /\
    caches w1 = caches w.
Proof.
  intros Hwf Hi Hlive. unfold canonicalize_key, deref, bind.
  destruct (OptimizeTypeArguments_returns depth instance w Hwf Hi)
    as (n1 & b1 & w1 & H1 & Hdom1 & Hc1).
  pose proof (Hdom1 _ Hi) as [i1 Hi1].
  destruct Hi as [i Hi]. rewrite Hi.
  destruct (IsNull instantiator) eqn:En; simpl.
  - destruct (0 <? NumTypeArguments (clazz i)).
    + exists n1, (id (clazz i), GetTypeArguments i1, ita, b1), w1.
      split; [ | exact Hc1]. intros fuel Hf. now rewrite (H1 fuel Hf), Hi1.
    + now exists 0%nat, (id (clazz i), null, ita, false), w.
  - pose proof (live_not_null _ _ Hlive En) as Hr.
    destruct (0 <? NumTypeArguments (clazz i)).
    + destruct (OptimizeTypeArguments_returns depth instantiator w1 Hwf
                  (Hdom1 _ Hr)) as (n2 & b2 & w2 & H2 & Hdom2 & Hc2).
      destruct (Hdom2 _ (Hdom1 _ Hr)) as [i2 Hi2].
      exists (Nat.max n1 n2),
        (id (clazz i), GetTypeArguments i1, GetTypeArguments i2, b2 || b1), w2.
      split; [ | congruence]. intros fuel Hf.
      rewrite (H1 fuel) by lia. rewrite Hi1. rewrite (H2 fuel) by lia.
      now rewrite Hi2.
    + destruct (OptimizeTypeArguments_returns depth instantiator w Hwf Hr)
        as (n2 & b2 & w2 & H2 & Hdom2 & Hc2).
      destruct (Hdom2 _ Hr) as [i2 Hi2].
      exists n2, (id (clazz i), null, GetTypeArguments i2, b2 || false), w2.
      split; [ | exact Hc2]. intros fuel Hf.
      rewrite (H2 fuel Hf). now rewrite Hi2.
Qed.

Lemma UpdateTypeTestCache_returns depth instance instantiator ita result cache w :
  well_founded_lazy depth ->
  is_Some (instances w !! instance) ->
  live_or_null (instances w) instantiator ->
  live_or_null (caches w) cache ->
  exists n w',
    forall fuel, (n <= fuel)%nat ->
      UpdateTypeTestCache fuel instance instantiator ita result cache w
        = Returns tt w'.
Proof.
  intros Hwf Hi Hlive Hcache. unfold UpdateTypeTestCache.
  destruct (IsNull cache) eqn:En; [now exists 0%nat, w | ].
  destruct (canonicalize_key_returns depth instance instantiator ita w Hwf Hi
              Hlive) as (n & [k replaced] & w1 & Hk & Hc).
  destruct (live_not_null _ _ Hcache En) as [checks Hl]. rewrite <- Hc in Hl.
  assert (exists w',
            (if FLAG_max_subtype_cache_entries <=? NumberOfChecks checks
             then Returns tt w1
             else if scan checks k then Returns tt w1
             else let '(cid, a, b) := k in
                  if negb (IsInstantiatedTypeArguments (om w1) b)
                  then Returns tt
                         (set_cache cache (AddCheck cid a b result checks) w1)
                  else Returns tt w1) = Returns tt w') as [w' Hw'].
  { destruct k as [[cid a] b].
    repeat match goal with
           | |- context [if ?x then _ else _] => destruct x
           end; eauto. }
  exists n, w'. intros fuel Hf. rewrite (Hk fuel Hf). unfold bind, deref.
  rewrite Hl. exact Hw'.
Qed.

(** *** The two entries *)

(** When the update appends: the cache is there and below the maximum, the
    scan finds no check with the key, and the instantiator vector of the key
    is not lazy. *)
Lemma UpdateTypeTestCache_inserts fuel instance instantiator ita result cache w
    cid a b replaced w1 checks :
  IsNull cache = false ->
  canonicalize_key fuel instance instantiator ita w
    = Returns ((cid, a, b), replaced) w1 ->
  caches w1 !! cache = Some checks ->
  NumberOfChecks checks < FLAG_max_subtype_cache_entries ->
  ~ In (cid, a, b) (map key_of checks) ->
  IsInstantiatedTypeArguments (om w1) b = false ->
  UpdateTypeTestCache fuel instance instantiator ita result cache w
    = Returns tt (set_cache cache (checks ++ [mkCheck cid a b result]) w1).
Proof.
  intros En Hk Hl Hlen Hfresh Hlazy. unfold UpdateTypeTestCache.
  rewrite En, Hk. unfold bind, deref. rewrite Hl.
  apply Z.leb_gt in Hlen. rewrite Hlen.
  apply scan_false_iff in Hfresh. rewrite Hfresh. now rewrite Hlazy.
Qed.

(** Only then: when the update has changed the caches, the cache is not
    null, it was below the maximum, it had no check with the key of the one
    appended, and the instantiator vector of that check is not lazy. *)
Lemma UpdateTypeTestCache_appended fuel instance instantiator ita result cache
    w w' :
  UpdateTypeTestCache fuel instance instantiator ita result cache w
    = Returns tt w' ->
  caches w' = caches w \/
  exists checks c,
    IsNull cache = false /\
    caches w !! cache = Some checks /\
    NumberOfChecks checks < FLAG_max_subtype_cache_entries /\
    ~ In (key_of c) (map key_of checks) /\
    IsInstantiatedTypeArguments (om w') (instantiator_type_arguments c)
      = false /\
    test_result c = result /\
    caches w' = <[cache := checks ++ [c]]> (caches w).
Proof.
  unfold UpdateTypeTestCache.
  destruct (IsNull cache) eqn:En; [intros [= <-]; auto | ].
  unfold bind.
  destruct (canonicalize_key fuel instance instantiator ita w)
    as [[k replaced] w1| | | |] eqn:Ek; try discriminate.
  apply canonicalize_key_frame in Ek as [Hc Hf].
  unfold deref. destruct (caches w1 !! cache) as [checks|] eqn:El;
    [ | discriminate].
  destruct (FLAG_max_subtype_cache_entries <=? NumberOfChecks checks) eqn:Emax;
    [intros [= <-]; auto | ].
  destruct (scan checks k) eqn:Escan; [intros [= <-]; auto | ].
  destruct k as [[cid kita] kiita].
  destruct (IsInstantiatedTypeArguments (om w1) kiita) eqn:Elazy; simpl;
    [intros [= <-]; auto | ].
  intros [= <-]. right.
  exists checks, (mkCheck cid kita kiita result). simpl.
  rewrite <- Hc. repeat split; try assumption.
  - apply Z.leb_gt in Emax. exact Emax.
  - apply scan_false_iff in Escan. exact Escan.
Qed.

(** Nothing otherwise: on a null cache the update returns at once; on a
    cache at the maximum, or with a check that has the key, or for a key
    whose instantiator vector is lazy, it returns after the
    canonicalization without appending. *)
Lemma UpdateTypeTestCache_null fuel instance instantiator ita result cache w :
  IsNull cache = true ->
  UpdateTypeTestCache fuel instance instantiator ita result cache w
    = Returns tt w.
Proof. intros En. unfold UpdateTypeTestCache. now rewrite En. Qed.

Lemma UpdateTypeTestCache_skips fuel instance instantiator ita result cache w
    cid a b replaced w1 checks :
  IsNull cache = false ->
  canonicalize_key fuel instance instantiator ita w
    = Returns ((cid, a, b), replaced) w1 ->
  caches w1 !! cache = Some checks ->
  FLAG_max_subtype_cache_entries <= NumberOfChecks checks \/
  In (cid, a, b) (map key_of checks) \/
  IsInstantiatedTypeArguments (om w1) b = true ->
  UpdateTypeTestCache fuel instance instantiator ita result cache w
    = Returns tt w1 /\
  caches w1 = caches w.
Proof.
  intros En Hk Hl Hguard. unfold UpdateTypeTestCache.
  rewrite En, Hk. unfold bind, deref. rewrite Hl.
  split; [ | now apply canonicalize_key_frame in Hk as [Hc _]].
  destruct (FLAG_max_subtype_cache_entries <=? NumberOfChecks checks) eqn:Emax;
    [reflexivity | ].
  apply Z.leb_gt in Emax.
  destruct (scan checks (cid, a, b)) eqn:Escan; [reflexivity | ].
  apply scan_false_iff in Escan.
  destruct Hguard as [H | [H | H]]; [lia | contradiction | ].
  now rewrite H.
Qed.

(** C10, as the code has it.  [Instanceof] throws exactly when the
    instance-of test is false and left a bound error, and what it throws is
    a TypeError with the bound error's message (a caller frame gives the
    location).  When the test is true the entry is the cache update with
    result [true] followed by the return of [true], whatever the bound
    error.  The update appends the check only when the cache is not null
    and below the maximum, no check has the key and the instantiator vector
    is not lazy; it appends it then, and appends nothing otherwise; with
    enough fuel for the canonicalization loops the entry returns [true]. *)
Theorem Instanceof_throws_iff fuel instance type instantiator ita cache w i :
  instances w !! instance = Some i ->
  frames w <> [] ->
  let r := IsInstanceOf (om w) i type ita in
  (fst r = false /\ snd r <> None ->
   exists location msg,
     snd r = Some msg /\
     Instanceof fuel instance type instantiator ita cache w
       = Throws (TypeError location (Some EmptyString) (Some EmptyString)
                   (Some EmptyString) (Some msg)) w) /\
  (forall e w',
     Instanceof fuel instance type instantiator ita cache w = Throws e w' ->
     fst r = false /\ snd r <> None) /\
  (fst r = true ->
   Instanceof fuel instance type instantiator ita cache w
     = bind (UpdateTypeTestCache fuel instance instantiator ita true cache w)
         (fun _ w' => Returns true w')) /\
  (fst r = true ->
   forall v w',
     Instanceof fuel instance type instantiator ita cache w = Returns v w' ->
     v = true /\
     (caches w' = caches w \/
      exists checks ch,
        IsNull cache = false /\
        caches w !! cache = Some checks /\
        NumberOfChecks checks < FLAG_max_subtype_cache_entries /\
        ~ In (key_of ch) (map key_of checks) /\
        IsInstantiatedTypeArguments (om w') (instantiator_type_arguments ch)
          = false /\
        test_result ch = true /\
        caches w' = <[cache := checks ++ [ch]]> (caches w))) /\
  (fst r = true ->
   forall cid a b replaced w1 checks,
     IsNull cache = false ->
     canonicalize_key fuel instance instantiator ita w
       = Returns ((cid, a, b), replaced) w1 ->
     caches w1 !! cache = Some checks ->
     NumberOfChecks checks < FLAG_max_subtype_cache_entries ->
     ~ In (cid, a, b) (map key_of checks) ->
     IsInstantiatedTypeArguments (om w1) b = false ->
     Instanceof fuel instance type instantiator ita cache w
       = Returns true (set_cache cache (checks ++ [mkCheck cid a b true]) w1)) /\
  (fst r = true ->
   IsNull cache = true ->
   Instanceof fuel instance type instantiator ita cache w = Returns true w) /\
  (fst r = true ->
   forall cid a b replaced w1 checks,
     IsNull cache = false ->
     canonicalize_key fuel instance instantiator ita w
       = Returns ((cid, a, b), replaced) w1 ->
     caches w1 !! cache = Some checks ->
     FLAG_max_subtype_cache_entries <= NumberOfChecks checks \/
     In (cid, a, b) (map key_of checks) \/
     IsInstantiatedTypeArguments (om w1) b = true ->
     Instanceof fuel instance type instantiator ita cache w = Returns true w1 /\
     caches w1 = caches w) /\
  (fst r = true ->
   forall depth,
     well_founded_lazy depth ->
     live_or_null (instances w) instantiator ->
     live_or_null (caches w) cache ->
     exists n w',
       forall fuel', (n <= fuel')%nat ->
         Instanceof fuel' instance type instantiator ita cache w
           = Returns true w').
Proof.
  intros Hi Hframes r. subst r. unfold Instanceof, deref. rewrite Hi.
  destruct (IsInstanceOf (om w) i type ita) as [result bound_error]. simpl.
  split; [ | split; [ | split; [ | split; [ | split; [ | split; [ | split]]]]]].
  - intros [-> Hb]. destruct bound_error as [msg|]; [ | contradiction].
    unfold GetCallerLocation. destruct (frames w) as [|fr rest];
      [contradiction | ].
    exists (GetTokenPos fr), msg. split; reflexivity.
  - intros e w' H.
    assert (result = false /\ bound_error <> None -> result = false /\
            bound_error <> None) as _ by tauto.
    destruct result, bound_error as [msg|]; simpl in H;
      try (split; [reflexivity | discriminate]);
      unfold bind in H;
      match type of H with
      | context [UpdateTypeTestCache ?f ?a ?b ?c ?d ?e ?w] =>
          destruct (UpdateTypeTestCache f a b c d e w)
            as [[] w1|e1 s1| | |] eqn:E; try discriminate;
          now apply UpdateTypeTestCache_no_throw in E
      end.
  - intros ->. reflexivity.
  - intros -> v w' H. simpl in H. unfold bind in H.
    destruct (UpdateTypeTestCache fuel instance instantiator ita true cache w)
      as [[] w1| | | |] eqn:E; try discriminate.
    injection H as <- <-. split; [reflexivity | ].
    exact (UpdateTypeTestCache_appended _ _ _ _ _ _ _ _ E).
  - intros -> cid a b replaced w1 checks En Hk Hl Hlen Hfresh Hlazy. simpl.
    now rewrite (UpdateTypeTestCache_inserts fuel instance instantiator ita true
                   cache w cid a b replaced w1 checks En Hk Hl Hlen Hfresh
                   Hlazy).
  - intros -> En. simpl.
    now rewrite (UpdateTypeTestCache_null fuel instance instantiator ita true
                   cache w En).
  - intros -> cid a b replaced w1 checks En Hk Hl Hguard. simpl.
    destruct (UpdateTypeTestCache_skips fuel instance instantiator ita true
                cache w cid a b replaced w1 checks En Hk Hl Hguard) as [E Hc].
    rewrite E. now split.
  - intros -> depth Hwf Hlive Hcache.
    destruct (UpdateTypeTestCache_returns depth instance instantiator ita true
                cache w Hwf (mk_is_Some _ _ Hi) Hlive Hcache) as (n & w' & H).
    exists n, w'. intros fuel' Hf. simpl. now rewrite (H fuel' Hf).
Qed.

(** C9, as the code has it.  When the instance-of test is false, [TypeCheck]
    throws a TypeError with the source type name, the destination type name
    (of the instantiated type when the destination type is not
    instantiated), the destination variable name and the bound error's
    message, and leaves the world as it was.  When the test is true, the
    entry is the cache update with result [true] followed by the return of
    the instance it was given: the update appends the check only when the
    cache is not null and below the maximum, no check has the key and the
    instantiator vector is not lazy; it appends it then, and appends
    nothing otherwise; with enough fuel the entry returns. *)
Theorem TypeCheck_outcome fuel src dst_type dst_instantiator ita dst_name cache
    w i :
  instances w !! src = Some i ->
  frames w <> [] ->
  let r := IsInstanceOf (om w) i dst_type ita in
  (fst r = false ->
   exists location,
     TypeCheck fuel src dst_type dst_instantiator ita dst_name cache w
       = Throws
           (TypeError location
              (UserVisibleName (om w) (GetType (om w) i))
              (if negb (IsInstantiated (om w) dst_type)
               then UserVisibleName (om w)
                      (TypeInstantiateFrom (om w) dst_type ita)
               else UserVisibleName (om w) dst_type)
              dst_name (snd r)) w) /\
  (fst r = true ->
   TypeCheck fuel src dst_type dst_instantiator ita dst_name cache w
     = bind (UpdateTypeTestCache fuel src dst_instantiator ita true cache w)
         (fun _ w' => Returns src w')) /\
  (fst r = true ->
   forall v w',
     TypeCheck fuel src dst_type dst_instantiator ita dst_name cache w
       = Returns v w' ->
     v = src /\
     (caches w' = caches w \/
      exists checks ch,
        IsNull cache = false /\
        caches w !! cache = Some checks /\
        NumberOfChecks checks < FLAG_max_subtype_cache_entries /\
        ~ In (key_of ch) (map key_of checks) /\
        IsInstantiatedTypeArguments (om w') (instantiator_type_arguments ch)
          = false /\
        test_result ch = true /\
        caches w' = <[cache := checks ++ [ch]]> (caches w))) /\
  (fst r = true ->
   forall cid a b replaced w1 checks,
     IsNull cache = false ->
     canonicalize_key fuel src dst_instantiator ita w
       = Returns ((cid, a, b), replaced) w1 ->
     caches w1 !! cache = Some checks ->
     NumberOfChecks checks < FLAG_max_subtype_cache_entries ->
     ~ In (cid, a, b) (map key_of checks) ->
     IsInstantiatedTypeArguments (om w1) b = false ->
     TypeCheck fuel src dst_type dst_instantiator ita dst_name cache w
       = Returns src (set_cache cache (checks ++ [mkCheck cid a b true]) w1)) /\
  (fst r = true ->
   IsNull cache = true ->
   TypeCheck fuel src dst_type dst_instantiator ita dst_name cache w
     = Returns src w) /\
  (fst r = true ->
   forall cid a b replaced w1 checks,
     IsNull cache = false ->
     canonicalize_key fuel src dst_instantiator ita w
       = Returns ((cid, a, b), replaced) w1 ->
     caches w1 !! cache = Some checks ->
     FLAG_max_subtype_cache_entries <= NumberOfChecks checks \/
     In (cid, a, b) (map key_of checks) \/
     IsInstantiatedTypeArguments (om w1) b = true ->
     TypeCheck fuel src dst_type dst_instantiator ita dst_name cache w
       = Returns src w1 /\
     caches w1 = caches w) /\
  (fst r = true ->
   forall depth,
     well_founded_lazy depth ->
     live_or_null (instances w) dst_instantiator ->
     live_or_null (caches w) cache ->
     exists n w',
       forall fuel', (n <= fuel')%nat ->
         TypeCheck fuel' src dst_type dst_instantiator ita dst_name cache w
           = Returns src w').
Proof.
  intros Hi Hframes r. subst r. unfold TypeCheck, deref. rewrite Hi.
  destruct (IsInstanceOf (om w) i dst_type ita) as [result bound_error]. simpl.
  split; [ | split; [ | split; [ | split; [ | split; [ | split]]]]].
  - intros ->. simpl. unfold GetCallerLocation.
    destruct (frames w) as [|fr rest]; [contradiction | ].
    exists (GetTokenPos fr). now destruct bound_error.
  - intros ->. reflexivity.
  - intros -> v w' H. simpl in H. unfold bind in H.
    destruct (UpdateTypeTestCache fuel src dst_instantiator ita true cache w)
      as [[] w1| | | |] eqn:E; try discriminate.
    injection H as <- <-. split; [reflexivity | ].
    exact (UpdateTypeTestCache_appended _ _ _ _ _ _ _ _ E).
  - intros -> cid a b replaced w1 checks En Hk Hl Hlen Hfresh Hlazy. simpl.
    now rewrite (UpdateTypeTestCache_inserts fuel src dst_instantiator ita true
                   cache w cid a b replaced w1 checks En Hk Hl Hlen Hfresh
                   Hlazy).
  - intros -> En. simpl.
    now rewrite (UpdateTypeTestCache_null fuel src dst_instantiator ita true
                   cache w En).
  - intros -> cid a b replaced w1 checks En Hk Hl Hguard. simpl.
    destruct (UpdateTypeTestCache_skips fuel src dst_instantiator ita true
                cache w cid a b replaced w1 checks En Hk Hl Hguard) as [E Hc].
    rewrite E. now split.
  - intros -> depth Hwf Hlive Hcache.
    destruct (UpdateTypeTestCache_returns depth src dst_instantiator ita true
                cache w Hwf (mk_is_Some _ _ Hi) Hlive Hcache) as (n & w' & H).
    exists n, w'. intros fuel' Hf. simpl. now rewrite (H fuel' Hf).
Qed.

End TypeEngineFacts.

(** ** The deopt context *)

Section DeoptEntriesFacts.
Import DeoptEntries.
Context {T : Target}.

Lemma DeoptimizeCopyFrame_installs address iso r iso' :
  DeoptimizeCopyFrame address iso = Returns r iso' ->
  exists p,
    deopt_context iso' = Some p /\
    contexts iso !! p = None /\
    is_Some (contexts iso' !! p).
Proof.
  unfold DeoptimizeCopyFrame, deref.
  match goal with |- context [walk iso ?a] => destruct (walk iso a) as [[fr sp]|] end;
    [ | discriminate].
  destruct (CopySavedRegisters (memory iso) address) as [fpu cpu].
  unfold new_DeoptContext. intros [= _ <-]. simpl.
  exists (fresh (dom (contexts iso))). split; [reflexivity | split].
  - apply not_elem_of_dom. apply is_fresh.
  - rewrite lookup_insert_eq. eauto.
Qed.

Lemma DeoptimizeFillFrame_keeps last_fp iso r iso' :
  DeoptimizeFillFrame last_fp iso = Returns r iso' ->
  deopt_context iso' = deopt_context iso /\ is_Some (deopt_context iso).
Proof.
  unfold DeoptimizeFillFrame, deref.
  destruct (walk iso last_fp) as [[fr sp]|]; [ | discriminate].
  destruct (deopt_context iso) as [p|] eqn:Ed; simpl; [ | discriminate].
  destruct (contexts iso !! p); [ | discriminate].
  intros [= _ <-]. simpl. rewrite Ed. eauto.
Qed.

Lemma DeoptimizeMaterialize_clears iso r iso' :
  DeoptimizeMaterialize iso = Returns r iso' ->
  deopt_context iso' = None /\
  exists p, deopt_context iso = Some p /\ contexts iso' !! p = None.
Proof.
  unfold DeoptimizeMaterialize, deref.
  destruct (deopt_context iso) as [p|] eqn:Ed; simpl; [ | discriminate].
  destruct (contexts iso !! p); [ | discriminate].
  intros [= _ <-]. simpl. split; [reflexivity | ].
  exists p. split; [reflexivity | apply lookup_delete_eq].
Qed.

Lemma window_from_cons open e trace :
  window_from open (e :: trace)
  = window_from (match e with
                 | CopyFrame _ => true
                 | FillFrame _ => open
                 | Materialize => false
                 end) trace.
Proof.
  unfold window_from. destruct e as [a|fp|].
  - rewrite filter_cons_True by reflexivity. rewrite last_cons.
    now destruct (last _).
  - rewrite filter_cons_False by (simpl; discriminate). reflexivity.
  - rewrite filter_cons_True by reflexivity. rewrite last_cons.
    now destruct (last _).
Qed.

Lemma run_window trace :
  forall iso iso',
    run trace iso = Some iso' ->
    is_Some (deopt_context iso')
    <-> window_from (bool_decide (is_Some (deopt_context iso))) trace = true.
Proof.
  induction trace as [|e rest IH]; intros iso iso'; simpl.
  - intros [= <-]. unfold window_from. simpl.
    rewrite bool_decide_eq_true. reflexivity.
  - destruct (run_entry e iso) as [iso1|] eqn:He; [ | discriminate].
    intros Hrun. rewrite (IH iso1 iso' Hrun), window_from_cons.
    destruct e as [a|fp|]; simpl in He.
    + destruct (DeoptimizeCopyFrame a iso) as [r i1| | | |] eqn:E;
        try discriminate.
      injection He as ->.
      apply DeoptimizeCopyFrame_installs in E as (p & E & _).
      rewrite E. now rewrite bool_decide_true by eauto.
    + destruct (DeoptimizeFillFrame fp iso) as [r i1| | | |] eqn:E;
        try discriminate.
      injection He as ->.
      apply DeoptimizeFillFrame_keeps in E as [E _]. now rewrite E.
    + destruct (DeoptimizeMaterialize iso) as [r i1| | | |] eqn:E;
        try discriminate.
      injection He as ->.
      apply DeoptimizeMaterialize_clears in E as [E _].
      rewrite E. now rewrite bool_decide_false by (intros [? ?]; discriminate).
Qed.

(** C8. Over every run of the deopt entries that starts with a null deopt
    context, the isolate's deopt context is non-null exactly when the run is
    between a [DeoptimizeCopyFrame] and the next [DeoptimizeMaterialize];
    [DeoptimizeCopyFrame] installs a context it has just constructed, and
    [DeoptimizeMaterialize] resets the isolate's pointer to null and destroys
    the context it found there. *)
Theorem deopt_context_window :
  (forall trace iso iso',
     deopt_context iso = None ->
     run trace iso = Some iso' ->
     is_Some (deopt_context iso') <-> in_window trace = true) /\
  (forall address iso r iso',
     DeoptimizeCopyFrame address iso = Returns r iso' ->
     exists p,
       deopt_context iso' = Some p /\
       contexts iso !! p = None /\
       is_Some (contexts iso' !! p)) /\
  (forall iso r iso',
     DeoptimizeMaterialize iso = Returns r iso' ->
     deopt_context iso' = None /\
     exists p, deopt_context iso = Some p /\ contexts iso' !! p = None).
Proof.
  split; [ | split].
  - intros trace iso iso' Hnull Hrun.
    rewrite (run_window trace iso iso' Hrun), Hnull. unfold in_window.
    now rewrite bool_decide_false by (intros [? ?]; discriminate).
  - exact DeoptimizeCopyFrame_installs.
  - exact DeoptimizeMaterialize_clears.
Qed.

End DeoptEntriesFacts.

(** ** Marking frames for lazy deoptimization *)

Section DeoptimizerFacts.
Import Heap Deoptimizer.

(** [HasOptimizedCode] reads what [owns_optimized_code] says when the
    function's current code is null or live. *)
Lemma HasOptimizedCode_owns {A : Type} f w (k : bool -> Outcome World A) :
  CurrentCode f = null \/ is_Some (codes (heap w) !! CurrentCode f) ->
  HasOptimizedCode f w k = k (owns_optimized_code (heap w) f).
Proof.
  unfold HasOptimizedCode, owns_optimized_code, deref.
  intros [H | [c H]].
  - now rewrite H.
  - rewrite H. now destruct (IsNull (CurrentCode f)).
Qed.

(** Marking a code object dead does not change which functions own
    optimized code. *)
Lemma owns_optimized_code_alter fs b optimized_code h f :
  owns_optimized_code
    (mkHeap fs (alter (set_is_alive b) optimized_code (codes h))) f
  = owns_optimized_code h f.
Proof.
  unfold owns_optimized_code. simpl.
  destruct (IsNull (CurrentCode f)); [reflexivity | ].
  rewrite lookup_alter. case_decide as Hd.
  - subst. now destruct (codes h !! CurrentCode f).
  - reflexivity.
Qed.

(** What one [DeoptimizeAt] leaves. *)
Lemma DeoptimizeAt_returns optimized_code pc w code f :
  codes (heap w) !! optimized_code = Some code ->
  functions (heap w) !! function code = Some f ->
  CurrentCode f = null \/ is_Some (codes (heap w) !! CurrentCode f) ->
  DeoptimizeAt optimized_code pc w
  = Returns tt
      (mkWorld
         (mkHeap
            (if owns_optimized_code (heap w) f
             then alter (fun f => SetCode (unoptimized_code f) f)
                    (function code) (functions (heap w))
             else functions (heap w))
            (alter (set_is_alive false) optimized_code (codes (heap w))))
         (frames w)
         (<[pc := GetLazyDeoptPc code]> (call_sites w))).
Proof.
  intros Hc Hf Hcur. unfold DeoptimizeAt, deref. rewrite Hc, Hf.
  rewrite (HasOptimizedCode_owns f w _ Hcur).
  now destruct (owns_optimized_code (heap w) f).
Qed.

(** C7. For a code object of a well-formed heap and a pc,
    [DeoptimizeAt(code, pc)] returns; after it the code object is as it was
    but for its alive flag, which is false, the call site at pc jumps to the
    code's lazy-deopt address, and the code's function is as it was but for
    its current code, which is its unoptimized code if it had optimized
    code as current (and the code it had otherwise); the frames are as they
    were; a second [DeoptimizeAt(code, pc)] returns and leaves the state the
    first one left.  (The [ASSERT]s on the code being optimized and on the
    deopt descriptor at pc are not needed for this.) *)
Theorem DeoptimizeAt_idempotent optimized_code pc w code :
  well_formed (heap w) ->
  codes (heap w) !! optimized_code = Some code ->
  exists f w1 code1 f1,
    functions (heap w) !! function code = Some f /\
    DeoptimizeAt optimized_code pc w = Returns tt w1 /\
    codes (heap w1) !! optimized_code = Some code1 /\
    is_alive code1 = false /\
    code1 = mkCode (function code) (is_optimized code) false (EntryPoint code)
              (GetLazyDeoptPc code) (GetDeoptInfoAtPc code)
              (GetDeoptIdForOsr code) /\
    call_sites w1 !! pc = Some (GetLazyDeoptPc code) /\
    functions (heap w1) !! function code = Some f1 /\
    CurrentCode f1
    = (if owns_optimized_code (heap w) f then unoptimized_code f
       else CurrentCode f) /\
    f1 = mkFunction (ToFullyQualifiedCString f) (Owner f) (usage_counter f)
           (deoptimization_counter f) (is_optimizable f) (CurrentCode f1)
           (unoptimized_code f) /\
    frames w1 = frames w /\
    DeoptimizeAt optimized_code pc w1 = Returns tt w1.
Proof.
  intros [Hfun Hcode] Hc.
  destruct (Hcode _ _ Hc) as [f Hf].
  destruct (Hfun _ _ Hf) as [Hcur Hunopt].
  exists f. eexists.
  exists (set_is_alive false code),
    (if owns_optimized_code (heap w) f
     then SetCode (unoptimized_code f) f else f).
  split; [exact Hf | ].
  split; [exact (DeoptimizeAt_returns optimized_code pc w code f Hc Hf Hcur) | ].
  simpl. split; [now rewrite lookup_alter_eq, Hc | ].
  split; [reflexivity | ]. split; [reflexivity | ].
  split; [now rewrite lookup_insert_eq | ].
  assert ((if owns_optimized_code (heap w) f
           then alter (fun f => SetCode (unoptimized_code f) f)
                  (function code) (functions (heap w))
           else functions (heap w)) !! function code
          = Some (if owns_optimized_code (heap w) f
                  then SetCode (unoptimized_code f) f else f)) as Hf1.
  { destruct (owns_optimized_code (heap w) f);
      [now rewrite lookup_alter_eq, Hf | exact Hf]. }
  split; [exact Hf1 | ].
  split; [now destruct (owns_optimized_code (heap w) f) | ].
  split; [destruct (owns_optimized_code (heap w) f); [reflexivity | ];
          now destruct f | ].
  split; [reflexivity | ].
  set (f1 := if owns_optimized_code (heap w) f
             then SetCode (unoptimized_code f) f else f) in *.
  set (w1 := mkWorld _ _ _).
  assert (codes (heap w1) !! optimized_code = Some (set_is_alive false code))
    as Hc1 by (subst w1; simpl; now rewrite lookup_alter_eq, Hc).
  assert (CurrentCode f1 = null \/ is_Some (codes (heap w1) !! CurrentCode f1))
    as Hcur1.
  { subst w1 f1. simpl.
    destruct (owns_optimized_code (heap w) f); simpl.
    - destruct Hunopt as [H | H]; [now left | right].
      now apply lookup_alter_is_Some.
    - destruct Hcur as [H | H]; [now left | right].
      now apply lookup_alter_is_Some. }
  rewrite (DeoptimizeAt_returns optimized_code pc w1 (set_is_alive false code)
             f1 Hc1 Hf1 Hcur1).
  subst w1. simpl. f_equal. f_equal; [f_equal | ].
  - (* the function is switched at most once *)
    destruct (owns_optimized_code _ f1) eqn:E1; [ | reflexivity].
    apply alter_id. intros x Hx. rewrite Hf1 in Hx. injection Hx as <-.
    rewrite owns_optimized_code_alter in E1. subst f1.
    destruct (owns_optimized_code (heap w) f) eqn:E0; [reflexivity | ].
    congruence.
  - rewrite alter_alter_eq. apply alter_ext. intros x _. reflexivity.
  - apply insert_insert_eq.
Qed.

(** [DeoptimizeAll] reaches the end of the stack: it does not run out of a
    fuel larger than the number of frames. *)
Lemma DeoptimizeAt_no_loop optimized_code pc w :
  DeoptimizeAt optimized_code pc w <> OutOfFuel.
Proof.
  unfold DeoptimizeAt, HasOptimizedCode, deref.
  repeat match goal with
         | |- context [match ?x with _ => _ end] => destruct x
         end; discriminate.
Qed.

Lemma DeoptimizeAll_loop_finishes iterator :
  forall fuel frame w,
    (length iterator + 1 < fuel)%nat ->
    DeoptimizeAll_loop fuel frame iterator w <> OutOfFuel.
Proof.
  induction iterator as [|next rest IH]; intros fuel frame w Hf;
    (destruct fuel as [|fuel]; [lia | ]); simpl in *;
    (destruct frame as [fr|]; [ | discriminate]); unfold deref, bind;
    (destruct (codes (heap w) !! LookupDartCode fr) as [c|]; [ | discriminate]);
    destruct (is_optimized c).
  - pose proof (DeoptimizeAt_no_loop (LookupDartCode fr) (pc fr) w) as Hn.
    destruct (DeoptimizeAt (LookupDartCode fr) (pc fr) w) as [[] w'| | | |];
      try discriminate; [ | contradiction].
    destruct fuel; [lia | discriminate].
  - destruct fuel; [lia | discriminate].
  - pose proof (DeoptimizeAt_no_loop (LookupDartCode fr) (pc fr) w) as Hn.
    destruct (DeoptimizeAt (LookupDartCode fr) (pc fr) w) as [[] w'| | | |];
      try discriminate; [ | contradiction].
    apply IH. lia.
  - apply IH. lia.
Qed.

Lemma DeoptimizeIfOwner_loop_spins fuel classes fr iterator :
  forall w,
    returns (DeoptimizeIfOwner_loop fuel classes (Some fr) iterator w) = false.
Proof.
  induction fuel as [|fuel IH]; intros w; simpl; [reflexivity | ].
  unfold deref, bind.
  destruct (codes (heap w) !! LookupDartCode fr) as [c|]; [ | reflexivity].
  destruct (if is_optimized c then _ else _) as [[] w'| | | |];
    try reflexivity.
  apply IH.
Qed.

(** C2, as the code has it.  On a stack with at least one Dart frame
    [DeoptimizeIfOwner] does not return, whatever fuel it is given: its loop
    never leaves the topmost frame.  ([DeoptimizeAll], whose loop ends with
    [frame = iterator.NextFrame()], does reach the end of the stack.) *)
Theorem DeoptimizeIfOwner_never_returns fuel classes h frame callers sites :
  returns (DeoptimizeIfOwner fuel classes (mkWorld h (frame :: callers) sites))
  = false.
Proof.
  unfold DeoptimizeIfOwner. simpl. apply DeoptimizeIfOwner_loop_spins.
Qed.

End DeoptimizerFacts.

(** ** The adaptive optimizer *)

Section OptimizerFacts.
Import Heap Optimizer.
Context {F : Flags} {E : Embedder}.

Lemma CanOptimizeFunction_passes function iso f :
  functions (heap iso) !! function = Some f ->
  passes_checks function f iso = true ->
  CanOptimizeFunction function iso = Returns true iso.
Proof.
  intros Hf. unfold passes_checks, CanOptimizeFunction, deref. rewrite Hf.
  rewrite (Z.leb_antisym (deoptimization_counter f)).
  destruct (IsStepping iso || HasBreakpoint iso function); [discriminate | ].
  destruct (deoptimization_counter f <? FLAG_deoptimization_counter_threshold);
    [ | discriminate].
  destruct FLAG_optimization_filter as [filter|]; simpl.
  - destruct (filter_loop _ _); [ | discriminate].
    simpl. now destruct (is_optimizable f).
  - now destruct (is_optimizable f).
Qed.

(** C1, as the code has it.  A function that passes the four checks is left
    alone and [CanOptimizeFunction] returns true.  On a function that fails
    one, the entry returns false with the function's usage counter set: to 0
    when the failing check is the debugger's (stepping, or a breakpoint on
    the function), and to the sentinel [kLowInvocationCount = -100000000]
    when it is the deoptimization counter, the filter or the optimizability
    flag; except that with [FLAG_stop_on_excessive_deoptimization] a
    deoptimization counter at or above the threshold ends the process. *)
Theorem CanOptimizeFunction_usage_counter function iso f :
  functions (heap iso) !! function = Some f ->
  (passes_checks function f iso = true ->
   CanOptimizeFunction function iso = Returns true iso) /\
  (passes_checks function f iso = false ->
   let debugging := IsStepping iso || HasBreakpoint iso function in
   let value := if debugging then 0 else kLowInvocationCount in
   let iso' :=
     set_heap (update_function function (set_usage_counter value) (heap iso))
       iso in
   if negb debugging
      && (FLAG_deoptimization_counter_threshold <=? deoptimization_counter f)
      && FLAG_stop_on_excessive_deoptimization
   then CanOptimizeFunction function iso = Aborts
   else CanOptimizeFunction function iso = Returns false iso' /\
        functions (heap iso') !! function = Some (set_usage_counter value f)).
Proof.
  intros Hf. split; [now apply CanOptimizeFunction_passes | ].
  unfold passes_checks, CanOptimizeFunction, deref. rewrite Hf.
  rewrite (Z.leb_antisym (deoptimization_counter f)). simpl.
  rewrite lookup_alter_eq, Hf. simpl.
  destruct (IsStepping iso || HasBreakpoint iso function); simpl;
    [intros _; now split | ].
  destruct (deoptimization_counter f <? FLAG_deoptimization_counter_threshold);
    simpl.
  - destruct FLAG_optimization_filter as [filter|]; simpl.
    + destruct (filter_loop _ _); simpl; [ | intros _; now split].
      destruct (is_optimizable f); [discriminate | intros _; now split].
    + destruct (is_optimizable f); [discriminate | intros _; now split].
  - destruct FLAG_stop_on_excessive_deoptimization; intros _;
      [reflexivity | now split].
Qed.

(** C3, as the code has it.  An OSR attempt: OSR is on, the stack has not
    overflowed, no interrupt is pending, the topmost Dart frame's function
    passes the optimizability checks and the compiler returns without error,
    leaving heap [h2].  If the function's current code in [h2] is not the
    code that was current before the compilation, the entry makes the code
    that was current before the compilation current again and sets the
    frame's pc to the entry point of the code the compiler produced.  The
    code it restores is the unoptimized code when the function entered with
    its unoptimized code as current; when it entered with other code as
    current (optimized code of an earlier compilation, while a frame still
    runs the unoptimized code), that code is current after the entry, not
    the unoptimized code.  If the current code is the same, the heap is as
    the compiler left it and the frames are as they were. *)
Theorem StackOverflow_osr stack_pos iso frame callers frame_code f unoptimized
    h2 f2 :
  FLAG_use_osr = true ->
  saved_stack_limit iso <= stack_pos ->
  interrupts iso = 0 ->
  frames iso = frame :: callers ->
  codes (heap iso) !! LookupDartCode frame = Some frame_code ->
  functions (heap iso) !! function frame_code = Some f ->
  passes_checks (function frame_code) f iso = true ->
  codes (heap iso) !! unoptimized_code f = Some unoptimized ->
  CompileOptimizedFunction (heap iso) (function frame_code)
    (GetDeoptIdForOsr unoptimized (pc frame)) = (None, h2) ->
  functions h2 !! function frame_code = Some f2 ->
  (CurrentCode f2 <> CurrentCode f ->
   forall optimized,
     codes h2 !! CurrentCode f2 = Some optimized ->
     exists iso',
       StackOverflow stack_pos iso = Returns tt iso' /\
       functions (heap iso') !! function frame_code
         = Some (SetCode (CurrentCode f) f2) /\
       (exists f',
          functions (heap iso') !! function frame_code = Some f' /\
          CurrentCode f' = CurrentCode f /\
          unoptimized_code f' = unoptimized_code f2 /\
          (CurrentCode f <> unoptimized_code f2 ->
           CurrentCode f' <> unoptimized_code f')) /\
       (CurrentCode f = unoptimized_code f ->
        functions (heap iso') !! function frame_code
          = Some (SetCode (unoptimized_code f) f2)) /\
       codes (heap iso') = codes h2 /\
       frames iso' = set_pc (EntryPoint optimized) frame :: callers /\
       frames iso'
       = mkStackFrame (EntryPoint optimized) (LookupDartCode frame)
           (GetTokenPos frame) :: callers) /\
  (CurrentCode f2 = CurrentCode f ->
   exists iso',
     StackOverflow stack_pos iso = Returns tt iso' /\
     heap iso' = h2 /\
     frames iso' = frames iso).
Proof.
  intros Hosr Hlimit Hint Hframes Hcode Hf Hpass Hunopt Hcompile Hf2.
  destruct iso as [h fs limit bits stepping breakpoint overflow].
  simpl in *. subst bits fs.
  assert (StackOverflow stack_pos
            (mkIsolate h (frame :: callers) limit 0 stepping breakpoint overflow)
          = OnStackReplacement
              (mkIsolate h (frame :: callers) limit 0 stepping breakpoint
                 overflow)) as ->.
  { unfold StackOverflow. simpl.
    destruct (stack_pos <? limit) eqn:El; [apply Z.ltb_lt in El; lia | ].
    rewrite ?Z.land_0_l. simpl. now rewrite Hosr. }
  unfold OnStackReplacement. simpl. unfold deref. rewrite Hcode.
  rewrite (CanOptimizeFunction_passes (function frame_code)
             (mkIsolate h (frame :: callers) limit 0 stepping breakpoint
                overflow) f Hf Hpass).
  simpl. rewrite Hf, Hunopt, Hcompile. simpl. rewrite Hf2.
  split.
  - intros Hne optimized Hopt.
    apply Z.eqb_neq in Hne. rewrite Hne. simpl. rewrite Hopt.
    eexists. split; [reflexivity | ]. simpl.
    rewrite lookup_alter_eq, Hf2. simpl.
    split; [reflexivity | ]. split.
    { eexists. split; [reflexivity | ]. simpl. auto. }
    split; [intros ->; reflexivity | ]. now repeat split.
  - intros Heq. rewrite Heq, Z.eqb_refl. simpl.
    eexists. split; [reflexivity | ]. now split.
Qed.

End OptimizerFacts.

(** ** The noSuchMethod fallback *)

Section ICEngineFacts.
Import ICEngine.
Context {R : Runtime}.

Lemma add_class_ids_prefix args :
  forall n i class_ids ids,
    add_class_ids args i n class_ids = Some ids ->
    exists more, ids = class_ids ++ more.
Proof.
  induction n as [|n IH]; intros i class_ids ids; simpl.
  - intros [= <-]. exists []. now rewrite app_nil_r.
  - destruct (args !! i) as [o|]; [ | discriminate].
    intros H. apply IH in H as [more ->].
    exists (GetClassId o :: more). now rewrite <- app_assoc.
Qed.

Lemma receiver_checks_app cid ic c target_name' n :
  receiver_checks cid (mkICData target_name' n (checks ic ++ [c]))
  = (receiver_checks cid ic
     + (if decide (GetReceiverClassId c = cid) then 1 else 0))%nat.
Proof.
  unfold receiver_checks. simpl. rewrite filter_app, length_app.
  f_equal. rewrite filter_cons. case_decide; reflexivity.
Qed.

(** With non-null targets, [GetTargetForReceiverClassId] is null exactly
    when no check has the receiver class id. *)
Lemma GetTargetIn_null cs cid :
  (forall c, In c cs -> target c <> null) ->
  IsNull (GetTargetIn cs cid) = true
  <-> filter (fun c => GetReceiverClassId c = cid) cs = [].
Proof.
  induction cs as [|c rest IH]; simpl; intros Hnn.
  - split; reflexivity.
  - rewrite filter_cons. destruct (GetReceiverClassId c =? cid) eqn:Eq.
    + apply Z.eqb_eq in Eq. rewrite decide_True by exact Eq.
      split; [ | discriminate].
      intros H. apply Z.eqb_eq in H. exfalso. apply (Hnn c); auto.
    + apply Z.eqb_neq in Eq. rewrite decide_False by exact Eq.
      apply IH. intros c' Hc'. apply Hnn. now right.
Qed.

Lemma alter_lookup_insert {A : Type} (f : A -> A) (k : Z) (m : gmap Z A) x :
  m !! k = Some x -> alter f k m = <[k := f x]> m.
Proof.
  intros Hx. apply map_eq. intros j. destruct (decide (k = j)) as [<- | Hne].
  - now rewrite lookup_alter_eq, lookup_insert_eq, Hx.
  - now rewrite lookup_alter_ne, lookup_insert_ne.
Qed.

(** The world after the entry has recorded a check, and the world when it
    has recorded none. *)
Lemma recorded_update d ic_data f w ic :
  ic_datas w !! ic_data = Some ic ->
  update_ic_data ic_data f (set_dart d w) = recorded d ic_data (f ic) w.
Proof.
  intros Hic. unfold update_ic_data, recorded, set_dart. simpl.
  now rewrite (alter_lookup_insert f ic_data (ic_datas w) ic Hic).
Qed.

Lemma recorded_same d ic_data w ic :
  ic_datas w !! ic_data = Some ic ->
  set_dart d w = recorded d ic_data ic w.
Proof.
  intros Hic. unfold recorded, set_dart. now rewrite insert_id.
Qed.

(** The loop that collects the class ids of the arguments after the
    receiver: [n] of them from index [i] on. *)
Lemma add_class_ids_take args :
  forall n i class_ids,
    (n <= length args - i)%nat ->
    add_class_ids args i n class_ids
    = Some (class_ids ++ map GetClassId (take n (drop i args))).
Proof.
  induction n as [|n IH]; intros i class_ids Hlen; simpl.
  - now rewrite app_nil_r.
  - destruct (args !! i) as [o|] eqn:Ho.
    + rewrite IH by lia. rewrite (drop_S _ _ _ Ho). simpl.
      now rewrite <- app_assoc.
    + apply lookup_ge_None in Ho. lia.
Qed.

Lemma add_class_ids_short args :
  forall n i class_ids,
    (length args - i < n)%nat ->
    add_class_ids args i n class_ids = None.
Proof.
  induction n as [|n IH]; intros i class_ids Hlen; simpl; [lia | ].
  destruct (args !! i) as [o|] eqn:Ho; [ | reflexivity].
  apply lookup_lt_Some in Ho. apply IH. lia.
Qed.

(** C6, as the code has it.  When no getter resolves, the entry records the
    noSuchMethod dispatcher and then invokes it: the entry is the
    invocation of the dispatcher in the world that has the recorded check
    (what the IC data hold after the entry is up to the code the dispatcher
    runs).  With one argument tested, the check for the receiver's class id
    is appended only when [GetTargetForReceiverClassId] finds none, so
    (targets being non-null) the checks with that class id are one if there
    was none and as many as they were otherwise.  With another number [n] of
    arguments tested, the check appended has the class ids of the receiver
    and of the arguments 1 to [n - 1], and it is appended unconditionally:
    the checks with the receiver's class id are one more.  (With fewer
    arguments than the IC data tests, the entry reads past the end of the
    argument array.) *)
Theorem InstanceFunctionLookup_records receiver ic_data args_descriptor args w
    ic :
  ic_datas w !! ic_data = Some ic ->
  (let getter :=
     ResolveGetterForReceiverClass (dart w) (GetClassId receiver)
       (GetterName (target_name ic)) in
   IsNull getter || IsMethodExtractor (dart w) getter = true) ->
  let cid := GetClassId receiver in
  let dispatcher :=
    GetInvocationDispatcher (dart w) cid (target_name ic) args_descriptor
      kNoSuchMethodDispatcher in
  let target_function := fst dispatcher in
  (num_args_tested ic = 1 ->
   let ic' :=
     if IsNull (GetTargetForReceiverClassId ic cid)
     then mkICData (target_name ic) (num_args_tested ic)
            (checks ic ++ [mkICCheck [cid] target_function])
     else ic in
   InstanceFunctionLookup receiver ic_data args_descriptor args w
   = InvokeDispatcher target_function args args_descriptor
       (recorded (snd dispatcher) ic_data ic' w) /\
   ((forall c, In c (checks ic) -> target c <> null) ->
    receiver_checks cid ic' = Nat.max 1 (receiver_checks cid ic))) /\
  (num_args_tested ic <> 1 ->
   let n := Z.to_nat (num_args_tested ic - 1) in
   let class_ids := cid :: map GetClassId (take n (drop 1 args)) in
   let ic' :=
     mkICData (target_name ic) (num_args_tested ic)
       (checks ic ++ [mkICCheck class_ids target_function]) in
   ((n <= length args - 1)%nat ->
    InstanceFunctionLookup receiver ic_data args_descriptor args w
    = InvokeDispatcher target_function args args_descriptor
        (recorded (snd dispatcher) ic_data ic' w)) /\
   ((length args - 1 < n)%nat ->
    InstanceFunctionLookup receiver ic_data args_descriptor args w = Crashes) /\
   receiver_checks cid ic' = S (receiver_checks cid ic)).
Proof.
  intros Hic Hgetter. simpl in Hgetter. simpl.
  unfold InstanceFunctionLookup, deref. rewrite Hic.
  unfold ResolveCallThroughGetter. rewrite Hgetter. simpl.
  destruct (GetInvocationDispatcher (dart w) (GetClassId receiver)
              (target_name ic) args_descriptor kNoSuchMethodDispatcher)
    as [target_function d2]. simpl. rewrite Hic.
  split.
  - intros En. rewrite En. simpl.
    destruct (IsNull (GetTargetForReceiverClassId ic (GetClassId receiver)))
      eqn:Et; simpl.
    + rewrite (recorded_update d2 ic_data _ w ic Hic).
      unfold AddReceiverCheck. rewrite En.
      split; [reflexivity | ]. intros Hnn.
      rewrite receiver_checks_app. simpl.
      rewrite decide_True by reflexivity.
      apply (GetTargetIn_null _ _ Hnn) in Et.
      unfold receiver_checks. now rewrite Et.
    + rewrite (recorded_same d2 ic_data w ic Hic).
      split; [reflexivity | ]. intros Hnn.
      assert (receiver_checks (GetClassId receiver) ic <> 0%nat).
      { unfold receiver_checks. intros H0.
        apply length_zero_iff_nil in H0.
        apply (GetTargetIn_null _ _ Hnn) in H0.
        unfold GetTargetForReceiverClassId in Et. congruence. }
      lia.
  - intros En. apply Z.eqb_neq in En. rewrite En.
    split; [ | split].
    + intros Hlen.
      rewrite (add_class_ids_take args _ 1 [GetClassId receiver] Hlen). simpl.
      now rewrite (recorded_update d2 ic_data _ w ic Hic).
    + intros Hlen.
      now rewrite (add_class_ids_short args _ 1 [GetClassId receiver] Hlen).
    + rewrite receiver_checks_app. simpl.
      rewrite decide_True by reflexivity. lia.
Qed.

End ICEngineFacts.


(** ** [DeoptimizeAll] and [ContainsCid] *)

Section MarkingFacts.
Import Heap Deoptimizer Marking.

(** X1. [ContainsCid] answers membership: it is true exactly when the class
    id is one of the array. *)
Theorem ContainsCid_elem_of cids cid :
  ContainsCid cids cid = true <-> cid ∈ cids.
Proof.
  induction cids as [|c rest IH]; simpl.
  - split; [discriminate | intros H; inversion H].
  - destruct (c =? cid) eqn:E.
    + apply Z.eqb_eq in E. subst. split; [intros _; left | reflexivity].
    + apply Z.eqb_neq in E. rewrite IH. split; [now right | ].
      intros H. apply elem_of_cons in H as [-> | H]; [contradiction | exact H].
Qed.

(** With fuel for every frame, the loop of [DeoptimizeAll] is the recursion
    on the frames. *)
Lemma DeoptimizeAll_deoptimize_frames fs :
  forall fuel w,
    (length fs < fuel)%nat ->
    DeoptimizeAll_loop fuel (fst (NextFrame fs)) (snd (NextFrame fs)) w
    = deoptimize_frames fs w.
Proof.
  induction fs as [|fr rest IH]; intros [|fuel] w Hf; simpl in *; try lia;
    [reflexivity | ].
  unfold deref, bind.
  destruct (codes (heap w) !! LookupDartCode fr) as [c|]; [ | reflexivity].
  destruct (if is_optimized c then _ else _) as [[] w'| | | |];
    try reflexivity.
  specialize (IH fuel w' ltac:(lia)). destruct rest; exact IH.
Qed.

Lemma DeoptimizeAll_as_recursion fuel w :
  (length (frames w) < fuel)%nat ->
  DeoptimizeAll fuel w = deoptimize_frames (frames w) w.
Proof.
  intros Hf. unfold DeoptimizeAll.
  rewrite (surjective_pairing (NextFrame (frames w))).
  now apply DeoptimizeAll_deoptimize_frames.
Qed.

Lemma set_is_alive_false_id c :
  is_alive c = false -> set_is_alive false c = c.
Proof. destruct c. simpl. now intros ->. Qed.

Lemma SetCode_current_id f :
  CurrentCode f = unoptimized_code f -> SetCode (unoptimized_code f) f = f.
Proof. destruct f. simpl. now intros ->. Qed.

(** One [DeoptimizeAt] on a live code object of a well-formed heap, field by
    field. *)
Lemma DeoptimizeAt_step optimized_code pc0 w code :
  well_formed (heap w) ->
  codes (heap w) !! optimized_code = Some code ->
  exists f w1,
    functions (heap w) !! function code = Some f /\
    DeoptimizeAt optimized_code pc0 w = Returns tt w1 /\
    frames w1 = frames w /\
    codes (heap w1) = alter (set_is_alive false) optimized_code (codes (heap w)) /\
    call_sites w1 = <[pc0 := GetLazyDeoptPc code]> (call_sites w) /\
    functions (heap w1)
    = (if owns_optimized_code (heap w) f
       then alter (fun g => SetCode (unoptimized_code g) g) (function code)
              (functions (heap w))
       else functions (heap w)).
Proof.
  intros [Hfun Hcode] Hc.
  destruct (Hcode _ _ Hc) as [f Hf].
  destruct (Hfun _ _ Hf) as [Hcur _].
  exists f. eexists. split; [exact Hf | ].
  split; [exact (DeoptimizeAt_returns optimized_code pc0 w code f Hc Hf Hcur) | ].
  simpl. repeat split; reflexivity.
Qed.

Lemma step_of_well_formed optimized_code h h1 :
  step_of optimized_code h h1 -> well_formed h -> well_formed h1.
Proof.
  intros (Hc & g & Hg & r0 & Hfs) [Hfun Hcode]. split.
  - intros r f1 Hf1. rewrite Hfs in Hf1. rewrite Hc.
    apply lookup_alter_Some in Hf1 as [(-> & f & Hf & ->) | [_ Hf1]].
    + destruct (Hfun _ _ Hf) as [Hcur Hun]. destruct (Hg f) as [Eu [Ec | Ec]];
        rewrite Eu, Ec; split;
        repeat match goal with
               | H : _ \/ _ |- _ \/ _ =>
                   destruct H as [H | H]; [now left | right;
                     now apply lookup_alter_is_Some]
               end.
    + destruct (Hfun _ _ Hf1) as [Hcur Hun]. split;
        repeat match goal with
               | H : _ \/ _ |- _ \/ _ =>
                   destruct H as [H | H]; [now left | right;
                     now apply lookup_alter_is_Some]
               end.
  - intros r c1 Hc1. rewrite Hc in Hc1. rewrite Hfs.
    apply lookup_alter_is_Some.
    apply lookup_alter_Some in Hc1 as [(-> & c & Hc0 & ->) | [_ Hc1]].
    + exact (Hcode _ _ Hc0).
    + exact (Hcode _ _ Hc1).
Qed.

Lemma DeoptimizeAt_step_of optimized_code w code f w1 :
  functions (heap w) !! function code = Some f ->
  codes (heap w1) = alter (set_is_alive false) optimized_code (codes (heap w)) ->
  functions (heap w1)
  = (if owns_optimized_code (heap w) f
     then alter (fun g => SetCode (unoptimized_code g) g) (function code)
            (functions (heap w))
     else functions (heap w)) ->
  step_of optimized_code (heap w) (heap w1).
Proof.
  intros Hf Hc Hfs. split; [exact Hc | ].
  destruct (owns_optimized_code (heap w) f).
  - exists (fun g => SetCode (unoptimized_code g) g). split.
    + intros g. simpl. split; [reflexivity | now right].
    + exists (function code). exact Hfs.
  - exists (fun g => g). split.
    + intros g. split; [reflexivity | now left].
    + exists 0. rewrite Hfs. symmetry. now apply alter_id.
Qed.

Lemma owns_optimized_code_step optimized_code h h1 f :
  codes h1 = alter (set_is_alive false) optimized_code (codes h) ->
  owns_optimized_code h1 f = owns_optimized_code h f.
Proof.
  intros Hc. destruct h1 as [fs1 cs1]. simpl in Hc. subst cs1.
  apply owns_optimized_code_alter.
Qed.

(** A step keeps a deoptimized frame deoptimized, when a step at the frame's
    pc is a step on the frame's code. *)
Lemma deoptimized_step fr optimized_code pc0 w code w1 f :
  codes (heap w) !! optimized_code = Some code ->
  functions (heap w) !! function code = Some f ->
  frames w1 = frames w ->
  codes (heap w1) = alter (set_is_alive false) optimized_code (codes (heap w)) ->
  call_sites w1 = <[pc0 := GetLazyDeoptPc code]> (call_sites w) ->
  functions (heap w1)
  = (if owns_optimized_code (heap w) f
     then alter (fun g => SetCode (unoptimized_code g) g) (function code)
            (functions (heap w))
     else functions (heap w)) ->
  (pc fr = pc0 -> LookupDartCode fr = optimized_code) ->
  deoptimized fr w -> deoptimized fr w1.
Proof.
  intros Hc Hf _ Hcs Hsites Hfs Hpc (c & g & Hfc & Halive & Hsite & Hg & Hcur).
  assert (codes (heap w1) !! LookupDartCode fr = Some c) as Hfc1.
  { rewrite Hcs, lookup_alter. case_decide as E; [ | exact Hfc].
    rewrite E, Hfc. simpl. f_equal. now apply set_is_alive_false_id. }
  assert (call_sites w1 !! pc fr = Some (GetLazyDeoptPc c)) as Hsite1.
  { rewrite Hsites. destruct (decide (pc0 = pc fr)) as [E | E].
    - rewrite E, lookup_insert_eq. symmetry in E. apply Hpc in E.
      rewrite E in Hfc. congruence.
    - now rewrite lookup_insert_ne. }
  destruct (owns_optimized_code (heap w) f) eqn:Eo.
  - destruct (decide (function code = function c)) as [E | E].
    + exists c, (SetCode (unoptimized_code g) g).
      repeat split; try assumption.
      * rewrite Hfs, <- E, lookup_alter_eq. rewrite E, Hg. reflexivity.
      * now left.
    + exists c, g. repeat split; try assumption.
      * rewrite Hfs. now rewrite lookup_alter_ne.
      * rewrite (owns_optimized_code_step optimized_code (heap w) (heap w1) g Hcs).
        exact Hcur.
  - exists c, g. repeat split; try assumption.
    + now rewrite Hfs.
    + rewrite (owns_optimized_code_step optimized_code (heap w) (heap w1) g Hcs).
      exact Hcur.
Qed.

(** A step deoptimizes the frame it is made for. *)
Lemma deoptimized_made fr w code w1 f :
  codes (heap w) !! LookupDartCode fr = Some code ->
  functions (heap w) !! function code = Some f ->
  codes (heap w1)
  = alter (set_is_alive false) (LookupDartCode fr) (codes (heap w)) ->
  call_sites w1 = <[pc fr := GetLazyDeoptPc code]> (call_sites w) ->
  functions (heap w1)
  = (if owns_optimized_code (heap w) f
     then alter (fun g => SetCode (unoptimized_code g) g) (function code)
            (functions (heap w))
     else functions (heap w)) ->
  deoptimized fr w1.
Proof.
  intros Hc Hf Hcs Hsites Hfs.
  exists (set_is_alive false code),
    (if owns_optimized_code (heap w) f then SetCode (unoptimized_code f) f
     else f).
  repeat split.
  - now rewrite Hcs, lookup_alter_eq, Hc.
  - now rewrite Hsites, lookup_insert_eq.
  - rewrite Hfs. simpl. destruct (owns_optimized_code (heap w) f);
      [now rewrite lookup_alter_eq, Hf | exact Hf].
  - rewrite (owns_optimized_code_step _ (heap w) (heap w1) _ Hcs).
    destruct (owns_optimized_code (heap w) f) eqn:Eo; [now left | now right].
Qed.

(** [DeoptimizeAt] on a deoptimized frame changes nothing. *)
Lemma DeoptimizeAt_deoptimized fr w :
  well_formed (heap w) ->
  deoptimized fr w ->
  DeoptimizeAt (LookupDartCode fr) (pc fr) w = Returns tt w.
Proof.
  intros [Hfun _] (c & f & Hc & Halive & Hsite & Hf & Hcur).
  destruct (Hfun _ _ Hf) as [Hlive _].
  rewrite (DeoptimizeAt_returns _ _ w c f Hc Hf Hlive).
  destruct w as [[fs cs] frs sites]. simpl in *. f_equal. f_equal; [f_equal | ].
  - destruct (owns_optimized_code _ f) eqn:Eo; [ | reflexivity].
    destruct Hcur as [Hcur | Hcur]; [ | congruence].
    apply alter_id. intros x Hx. rewrite Hf in Hx. injection Hx as <-.
    now apply SetCode_current_id.
  - apply alter_id. intros x Hx. rewrite Hc in Hx. injection Hx as <-.
    now apply set_is_alive_false_id.
  - now apply insert_id.
Qed.

(** One iteration of the loop of [DeoptimizeAll]. *)
Lemma visit_frame fr w c :
  well_formed (heap w) ->
  codes (heap w) !! LookupDartCode fr = Some c ->
  exists w1,
    (if is_optimized c then DeoptimizeAt (LookupDartCode fr) (pc fr) w
     else Returns tt w) = Returns tt w1 /\
    frames w1 = frames w /\
    well_formed (heap w1) /\
    codes (heap w1)
    = (if is_optimized c
       then alter (set_is_alive false) (LookupDartCode fr) (codes (heap w))
       else codes (heap w)) /\
    call_sites w1
    = (if is_optimized c then <[pc fr := GetLazyDeoptPc c]> (call_sites w)
       else call_sites w) /\
    (forall fr0,
       (pc fr0 = pc fr -> LookupDartCode fr0 = LookupDartCode fr) ->
       deoptimized fr0 w -> deoptimized fr0 w1) /\
    (is_optimized c = true -> deoptimized fr w1).
Proof.
  intros Hwf Hc. destruct (is_optimized c) eqn:Eo.
  - destruct (DeoptimizeAt_step (LookupDartCode fr) (pc fr) w c Hwf Hc)
      as (f & w1 & Hf & Hrun & Hfr & Hcs & Hsites & Hfs).
    exists w1.
    split; [exact Hrun | ]. split; [exact Hfr | ].
    split; [ | split; [exact Hcs | split; [exact Hsites | split]]].
    + eapply step_of_well_formed; [ | exact Hwf].
      exact (DeoptimizeAt_step_of _ w c f w1 Hf Hcs Hfs).
    + intros fr0 Hpc.
      exact (deoptimized_step fr0 _ _ w c w1 f Hc Hf Hfr Hcs Hsites Hfs Hpc).
    + intros _. exact (deoptimized_made fr w c w1 f Hc Hf Hcs Hsites Hfs).
  - exists w.
    split; [reflexivity | ]. split; [reflexivity | ].
    split; [exact Hwf | split; [reflexivity | split; [reflexivity | split]]].
    + intros fr0 _ H. exact H.
    + discriminate.
Qed.

Lemma deoptimize_frames_spec fs :
  forall w,
    well_formed (heap w) ->
    frames_live fs (heap w) ->
    exists w',
      deoptimize_frames fs w = Returns tt w' /\
      frames w' = frames w /\
      well_formed (heap w') /\
      (forall r c,
         codes (heap w) !! r = Some c ->
         codes (heap w') !! r = Some c \/
         (codes (heap w') !! r = Some (set_is_alive false c) /\
          is_optimized c = true /\
          exists fr, fr ∈ fs /\ LookupDartCode fr = r)) /\
      (forall pc0,
         call_sites w' !! pc0 = call_sites w !! pc0 \/
         exists fr c,
           fr ∈ fs /\ pc fr = pc0 /\
           codes (heap w) !! LookupDartCode fr = Some c /\
           is_optimized c = true) /\
      (forall fr0,
         (forall fr, fr ∈ fs -> pc fr0 = pc fr ->
                     LookupDartCode fr0 = LookupDartCode fr) ->
         deoptimized fr0 w -> deoptimized fr0 w') /\
      (coherent fs ->
       forall fr c,
         fr ∈ fs ->
         codes (heap w) !! LookupDartCode fr = Some c ->
         is_optimized c = true ->
         deoptimized fr w').
Proof.
  induction fs as [|fr rest IH]; intros w Hwf Hlive.
  - exists w. simpl.
    split; [reflexivity | ]. split; [reflexivity | ]. split; [exact Hwf | ].
    split; [ | split; [ | split]].
    + intros r c H. now left.
    + intros pc0. now left.
    + intros fr0 _ H. exact H.
    + intros _ fr c H. inversion H.
  - destruct (Hlive fr) as [c Hc]; [now left | ].
    destruct (visit_frame fr w c Hwf Hc)
      as (w1 & Hrun & Hfr & Hwf1 & Hcs & Hsites & Hkeep & Hmade).
    assert (forall r, is_Some (codes (heap w) !! r) ->
                      is_Some (codes (heap w1) !! r)) as Hdom.
    { intros r Hr. rewrite Hcs. destruct (is_optimized c); [ | exact Hr].
      now apply lookup_alter_is_Some. }
    assert (forall r x,
              codes (heap w) !! r = Some x ->
              exists x1, codes (heap w1) !! r = Some x1 /\
                         is_optimized x1 = is_optimized x /\
                         (x1 = x \/
                          x1 = set_is_alive false x /\ r = LookupDartCode fr /\
                          is_optimized x = true)) as Hrel.
    { intros r x Hx. rewrite Hcs. destruct (is_optimized c) eqn:Eo.
      - rewrite lookup_alter. case_decide as E.
        + subst r. rewrite Hc in Hx. injection Hx as <-. rewrite Hc. simpl.
          eexists. split; [reflexivity | ]. split; [reflexivity | right]. auto.
        + exists x. auto.
      - exists x. auto. }
    destruct (IH w1 Hwf1) as (w' & Hrun' & Hfr' & Hwf' & Hcodes & Hs & Hk & Hm).
    { intros fr' Hin. apply Hdom, Hlive. now right. }
    exists w'. simpl. unfold deref, bind. rewrite Hc, Hrun.
    split; [exact Hrun' | ]. split; [congruence | ]. split; [exact Hwf' | ].
    split; [ | split; [ | split]].
    + intros r x Hx. destruct (Hrel r x Hx) as (x1 & Hx1 & Eo1 & Hcase).
      destruct (Hcodes r x1 Hx1) as [H | (H & Ho & fr' & Hin & Hfr'')].
      * destruct Hcase as [-> | (-> & -> & Ho)]; [now left | right].
        split; [exact H | split; [exact Ho | ]]. exists fr. split; [now left | reflexivity].
      * right. destruct Hcase as [-> | (-> & -> & Ho')].
        -- split; [exact H | split; [exact Ho | ]].
           exists fr'. split; [now right | exact Hfr''].
        -- split; [exact H | split; [exact Ho' | ]].
           exists fr. split; [now left | reflexivity].
    + intros pc0. destruct (Hs pc0) as [H | (fr' & x1 & Hin & Hpc & Hx1 & Ho1)].
      * rewrite H, Hsites. destruct (is_optimized c) eqn:Eo; [ | now left].
        destruct (decide (pc fr = pc0)) as [E | E].
        -- right. exists fr, c. split; [now left | auto].
        -- left. now rewrite lookup_insert_ne.
      * right. 
        destruct (Hlive fr') as [x Hx]; [now right | ].
        destruct (Hrel _ x Hx) as (x1' & Hx1' & Eo1 & _).
        exists fr', x. split; [now right | ]. split; [exact Hpc | ].
        split; [exact Hx | ]. congruence.
    + intros fr0 Hpc H. apply Hk.
      * intros fr' Hin. apply Hpc. now right.
      * apply Hkeep; [ | exact H]. apply Hpc. now left.
    + intros Hcoh fr' x Hin Hx Ho.
      apply elem_of_cons in Hin as [-> | Hin].
      * apply Hk.
        -- intros fr' Hin' Hpc'. apply Hcoh; [now left | now right | exact Hpc'].
        -- apply Hmade. rewrite Hc in Hx. congruence.
      * destruct (Hrel _ x Hx) as (x1 & Hx1 & Eo1 & _).
        apply (Hm ltac:(intros a b Ha Hb; apply Hcoh; now right) fr' x1 Hin Hx1).
        congruence.
Qed.

Lemma deoptimize_frames_fixed fs :
  forall w,
    well_formed (heap w) ->
    frames_live fs (heap w) ->
    (forall fr c,
       fr ∈ fs -> codes (heap w) !! LookupDartCode fr = Some c ->
       is_optimized c = true -> deoptimized fr w) ->
    deoptimize_frames fs w = Returns tt w.
Proof.
  induction fs as [|fr rest IH]; intros w Hwf Hlive Hall; [reflexivity | ].
  simpl. destruct (Hlive fr) as [c Hc]; [now left | ].
  unfold deref, bind. rewrite Hc.
  assert ((if is_optimized c then DeoptimizeAt (LookupDartCode fr) (pc fr) w
           else Returns tt w) = Returns tt w) as ->.
  { destruct (is_optimized c) eqn:Eo; [ | reflexivity].
    apply DeoptimizeAt_deoptimized; [exact Hwf | ].
    apply (Hall fr c); [now left | exact Hc | exact Eo]. }
  apply IH; [exact Hwf | | ].
  - intros fr' Hin. apply Hlive. now right.
  - intros fr' c' Hin. apply Hall. now right.
Qed.

(** X2. On a well-formed heap, with the code of every frame live and fuel
    for every frame, [DeoptimizeAll] returns; every frame whose code is
    optimized is then deoptimized (code dead, call site at its pc patched to
    the lazy-deopt address, function back on unoptimized code); every code
    object is as it was or, when it is the optimized code of a frame, dead;
    and a call site is as it was unless it is at the pc of an optimized
    frame.  The frames themselves are not changed. *)
Theorem DeoptimizeAll_deoptimizes_optimized_frames fuel w :
  well_formed (heap w) ->
  coherent (frames w) ->
  frames_live (frames w) (heap w) ->
  (length (frames w) < fuel)%nat ->
  exists w',
    DeoptimizeAll fuel w = Returns tt w' /\
    frames w' = frames w /\
    (forall fr c,
       fr ∈ frames w ->
       codes (heap w) !! LookupDartCode fr = Some c ->
       is_optimized c = true ->
       deoptimized fr w') /\
    (forall r c,
       codes (heap w) !! r = Some c ->
       codes (heap w') !! r = Some c \/
       (codes (heap w') !! r = Some (set_is_alive false c) /\
        is_optimized c = true /\
        exists fr, fr ∈ frames w /\ LookupDartCode fr = r)) /\
    (forall pc0,
       call_sites w' !! pc0 = call_sites w !! pc0 \/
       exists fr c,
         fr ∈ frames w /\ pc fr = pc0 /\
         codes (heap w) !! LookupDartCode fr = Some c /\
         is_optimized c = true).
Proof.
  intros Hwf Hcoh Hlive Hfuel.
  destruct (deoptimize_frames_spec (frames w) w Hwf Hlive)
    as (w' & Hrun & Hfr & _ & Hcodes & Hsites & _ & Hmade).
  exists w'. rewrite (DeoptimizeAll_as_recursion fuel w Hfuel).
  split; [exact Hrun | ]. split; [exact Hfr | ].
  split; [exact (Hmade Hcoh) | ]. split; [exact Hcodes | exact Hsites].
Qed.

(** X3. [DeoptimizeAll] is idempotent: under the same conditions a second
    [DeoptimizeAll] returns and leaves the state the first one left. *)
Theorem DeoptimizeAll_idempotent fuel w :
  well_formed (heap w) ->
  coherent (frames w) ->
  frames_live (frames w) (heap w) ->
  (length (frames w) < fuel)%nat ->
  exists w',
    DeoptimizeAll fuel w = Returns tt w' /\
    DeoptimizeAll fuel w' = Returns tt w'.
Proof.
  intros Hwf Hcoh Hlive Hfuel.
  destruct (deoptimize_frames_spec (frames w) w Hwf Hlive)
    as (w' & Hrun & Hfr & Hwf' & Hcodes & _ & _ & Hmade).
  exists w'. rewrite (DeoptimizeAll_as_recursion fuel w Hfuel).
  split; [exact Hrun | ].
  rewrite (DeoptimizeAll_as_recursion fuel w') by (now rewrite Hfr).
  rewrite Hfr. apply deoptimize_frames_fixed; [exact Hwf' | | ].
  - intros fr Hin. destruct (Hlive fr Hin) as [c Hc].
    destruct (Hcodes _ c Hc) as [H | [H _]]; rewrite H; eauto.
  - intros fr c' Hin Hc' Ho. destruct (Hlive fr Hin) as [c Hc].
    apply (Hmade Hcoh fr c Hin Hc).
    destruct (Hcodes _ c Hc) as [H | [H _]]; rewrite H in Hc';
      injection Hc' as <-; exact Ho.
Qed.

(** The functions over the loop of [DeoptimizeAll]: each is as it was, or
    has been switched to its unoptimized code. *)
Lemma deoptimize_frames_functions fs :
  forall w w',
    well_formed (heap w) ->
    frames_live fs (heap w) ->
    deoptimize_frames fs w = Returns tt w' ->
    forall r,
      match functions (heap w) !! r with
      | Some f =>
          functions (heap w') !! r = Some f \/
          functions (heap w') !! r = Some (SetCode (unoptimized_code f) f)
      | None => functions (heap w') !! r = None
      end.
Proof.
  induction fs as [|fr rest IH]; intros w w' Hwf Hlive Hrun r.
  - injection Hrun as <-. destruct (functions (heap w) !! r); auto.
  - simpl in Hrun. destruct (Hlive fr) as [c Hc]; [now left | ].
    unfold deref, bind in Hrun. rewrite Hc in Hrun.
    destruct (visit_frame fr w c Hwf Hc) as (w1 & Hrun1 & _ & Hwf1 & Hcs & _).
    rewrite Hrun1 in Hrun.
    assert (frames_live rest (heap w1)) as Hlive1.
    { intros fr' Hin. rewrite Hcs. destruct (is_optimized c);
        [apply lookup_alter_is_Some | ]; apply Hlive; now right. }
    specialize (IH w1 w' Hwf1 Hlive1 Hrun r).
    assert (match functions (heap w) !! r with
            | Some f =>
                functions (heap w1) !! r = Some f \/
                functions (heap w1) !! r = Some (SetCode (unoptimized_code f) f)
            | None => functions (heap w1) !! r = None
            end) as Hstep.
    { destruct (is_optimized c) eqn:Eo.
      - destruct (DeoptimizeAt_step (LookupDartCode fr) (pc fr) w c Hwf Hc)
          as (g & w1' & Hg & Hr1 & _ & _ & _ & Hfs).
        rewrite Hr1 in Hrun1. injection Hrun1 as <-. rewrite Hfs.
        destruct (owns_optimized_code (heap w) g).
        + rewrite lookup_alter. case_decide as E.
          * subst r. rewrite Hg. simpl. now right.
          * destruct (functions (heap w) !! r); auto.
        + destruct (functions (heap w) !! r); auto.
      - injection Hrun1 as <-. destruct (functions (heap w) !! r); auto. }
    destruct (functions (heap w) !! r) as [f|].
    + destruct Hstep as [H1 | H1]; rewrite H1 in IH; [exact IH | ].
      right. destruct IH as [H2 | H2]; rewrite H2; [reflexivity | ].
      now destruct f.
    + now rewrite Hstep in IH.
Qed.

(** X21. [DeoptimizeAll] never installs code and never touches a counter:
    under the conditions of X2 every function is afterwards as it was, or
    differs only in having its unoptimized code as current code; no
    function appears or disappears, and the heap is well-formed again. *)
Theorem DeoptimizeAll_only_switches_to_unoptimized fuel w :
  well_formed (heap w) ->
  frames_live (frames w) (heap w) ->
  (length (frames w) < fuel)%nat ->
  exists w',
    DeoptimizeAll fuel w = Returns tt w' /\
    well_formed (heap w') /\
    forall r,
      match functions (heap w) !! r with
      | Some f =>
          functions (heap w') !! r = Some f \/
          functions (heap w') !! r = Some (SetCode (unoptimized_code f) f)
      | None => functions (heap w') !! r = None
      end.
Proof.
  intros Hwf Hlive Hfuel.
  destruct (deoptimize_frames_spec (frames w) w Hwf Hlive)
    as (w' & Hrun & _ & Hwf' & _).
  exists w'. rewrite (DeoptimizeAll_as_recursion fuel w Hfuel).
  split; [exact Hrun | ]. split; [exact Hwf' | ].
  exact (deoptimize_frames_functions (frames w) w w' Hwf Hlive Hrun).
Qed.

End MarkingFacts.

(** ** The deopt entries: register buffers and the protocol *)

Section DeoptSequenceFacts.
Import DeoptEntries DeoptSequence.
Context {T : Target}.

Lemma uword_add_l x y : uword (uword x + y) = uword (x + y).
Proof. unfold uword. apply Zplus_mod_idemp_l. Qed.

Lemma copy_registers_length mem size :
  forall n address, length (fst (copy_registers mem n size address)) = n.
Proof.
  induction n as [|n IH]; intros address; simpl; [reflexivity | ].
  specialize (IH (uword (address + size))).
  destruct (copy_registers mem n size (uword (address + size))). simpl in *.
  now rewrite IH.
Qed.

(** The [i]-th register of a copy loop is read [i] register sizes above the
    start, and the loop ends [n] register sizes above it. *)
Lemma copy_registers_lookup mem size :
  forall n address,
    uword address = address ->
    (forall i, (i < n)%nat ->
       fst (copy_registers mem n size address) !! i
       = Some (mem (uword (address + Z.of_nat i * size)))) /\
    snd (copy_registers mem n size address)
    = uword (address + Z.of_nat n * size).
Proof.
  induction n as [|n IH]; intros address Ha.
  - split; [intros i Hi; lia | ]. simpl. now rewrite Z.add_0_r.
  - simpl.
    assert (uword (uword (address + size)) = uword (address + size)) as Ha'
      by (unfold uword; apply Zmod_mod).
    destruct (IH (uword (address + size)) Ha') as [IH1 IH2].
    destruct (copy_registers mem n size (uword (address + size)))
      as [copy address'].
    simpl in *. split.
    + intros [|i] Hi; simpl.
      * now rewrite Z.add_0_r, Ha.
      * rewrite IH1 by lia. rewrite uword_add_l. do 3 f_equal. lia.
    + rewrite IH2, uword_add_l. f_equal. lia.
Qed.

(** X4. [CopySavedRegisters] copies [kNumberOfFpuRegisters] FPU registers
    and then [kNumberOfCpuRegisters] CPU registers: the [i]-th FPU register
    is read [i] FPU register sizes above [saved_registers_address], and the
    [i]-th CPU register [i] words above the end of the FPU registers
    (addresses wrap around as [uword]s). *)
Theorem CopySavedRegisters_layout mem saved_registers_address :
  uword saved_registers_address = saved_registers_address ->
  let copies := CopySavedRegisters mem saved_registers_address in
  length (fst copies) = kNumberOfFpuRegisters /\
  length (snd copies) = kNumberOfCpuRegisters /\
  (forall i, (i < kNumberOfFpuRegisters)%nat ->
     fst copies !! i
     = Some (mem (uword (saved_registers_address
                         + Z.of_nat i * kFpuRegisterSize)))) /\
  (forall i, (i < kNumberOfCpuRegisters)%nat ->
     snd copies !! i
     = Some (mem (uword (saved_registers_address
                         + Z.of_nat kNumberOfFpuRegisters * kFpuRegisterSize
                         + Z.of_nat i * kWordSize)))).
Proof.
  intros Ha. unfold CopySavedRegisters.
  pose proof (copy_registers_length mem kFpuRegisterSize kNumberOfFpuRegisters
                saved_registers_address) as Hlf.
  destruct (copy_registers_lookup mem kFpuRegisterSize kNumberOfFpuRegisters
              saved_registers_address Ha) as [Hf Hend].
  destruct (copy_registers mem kNumberOfFpuRegisters kFpuRegisterSize
              saved_registers_address) as [fpu address].
  simpl in Hlf, Hf, Hend.
  assert (uword address = address) as Ha'
    by (rewrite Hend; unfold uword; apply Zmod_mod).
  pose proof (copy_registers_length mem kWordSize kNumberOfCpuRegisters
                address) as Hlc.
  destruct (copy_registers_lookup mem kWordSize kNumberOfCpuRegisters address
              Ha') as [Hc _].
  destruct (copy_registers mem kNumberOfCpuRegisters kWordSize address)
    as [cpu address'].
  simpl in *. repeat split; try assumption.
  intros i Hi. rewrite (Hc i Hi), Hend, uword_add_l. reflexivity.
Qed.

Lemma run_app t1 t2 :
  forall iso,
    run (t1 ++ t2) iso
    = match run t1 iso with
      | Some iso1 => run t2 iso1
      | None => None
      end.
Proof.
  induction t1 as [|e t1 IH]; intros iso; simpl; [reflexivity | ].
  destruct (run_entry e iso); [apply IH | reflexivity].
Qed.

(** The fill phase changes the installed context and nothing else. *)
Lemma run_fills fills :
  forall iso p c,
    deopt_context iso = Some p ->
    contexts iso !! p = Some c ->
    Forall (fun fp => is_Some (walk iso fp)) fills ->
    exists iso' c',
      run (map FillFrame fills) iso = Some iso' /\
      deopt_context iso' = Some p /\
      contexts iso' = <[p := c']> (contexts iso) /\
      memory iso' = memory iso /\
      walk iso' = walk iso.
Proof.
  induction fills as [|fp fills IH]; intros iso p c Hp Hc Hwalk.
  - exists iso, c. simpl. repeat split; try assumption.
    symmetry. now apply insert_id.
  - inversion Hwalk as [|? ? [[fr sp] Hfp] Hrest]; subst.
    simpl. unfold DeoptimizeFillFrame, deref. rewrite Hfp, Hp. simpl.
    rewrite Hc.
    set (iso1 := set_contexts _ iso).
    destruct (IH iso1 p (FillDestFrame
                           (set_dest_frame
                              (uword (sp - kDartFrameFixedSize * kWordSize)) c)))
      as (iso' & c' & Hrun & Hp' & Hctx & Hmem & Hw).
    + exact Hp.
    + subst iso1. simpl. apply lookup_insert_eq.
    + exact Hrest.
    + exists iso', c'. repeat split; try assumption.
      rewrite Hctx. subst iso1. simpl. apply insert_insert_eq.
Qed.

(** X5. One complete lazy deoptimization (the copy phase, any number of fill
    phases, the materialize phase), with a frame for the stack walker to
    find at each entry, runs to the end and leaves no [DeoptContext] behind:
    the isolate's deopt context is null and the live contexts are those
    that were live before. *)
Theorem deopt_sequence_leaves_no_context saved_registers_address fills iso :
  is_Some (walk iso (last_fp_of saved_registers_address)) ->
  Forall (fun fp => is_Some (walk iso fp)) fills ->
  exists iso',
    run (deopt_sequence saved_registers_address fills) iso = Some iso' /\
    deopt_context iso' = None /\
    contexts iso' = contexts iso.
Proof.
  intros [[fr sp] Hwalk] Hfills. unfold deopt_sequence. simpl.
  unfold DeoptimizeCopyFrame, deref. fold (last_fp_of saved_registers_address).
  rewrite Hwalk.
  destruct (CopySavedRegisters (memory iso) saved_registers_address)
    as [fpu cpu].
  unfold new_DeoptContext.
  set (p := fresh (dom (contexts iso))).
  set (c := mkDeoptContext fr (LookupDartCode fr) fpu cpu None).
  set (iso1 := set_deopt_context (Some p) _).
  assert (contexts iso !! p = None) as Hfresh
    by (apply not_elem_of_dom, is_fresh).
  destruct (run_fills fills iso1 p c) as (iso2 & c2 & Hrun & Hp & Hctx & _ & _).
  - reflexivity.
  - subst iso1. simpl. apply lookup_insert_eq.
  - exact Hfills.
  - rewrite run_app, Hrun. simpl.
    unfold DeoptimizeMaterialize, deref. rewrite Hp. simpl.
    rewrite Hctx, lookup_insert_eq. simpl.
    eexists. split; [reflexivity | ]. simpl. split; [reflexivity | ].
    rewrite !delete_insert_eq. now apply delete_id.
Qed.

(** X6. The fill and materialize phases only run inside a deoptimization:
    in a run of deopt entries that starts with a null deopt context and
    runs to its end, every [DeoptimizeFillFrame] and every
    [DeoptimizeMaterialize] comes between a [DeoptimizeCopyFrame] and the
    next [DeoptimizeMaterialize]; outside, they dereference the null
    context. *)
Theorem fill_and_materialize_need_a_context before e after iso iso' :
  deopt_context iso = None ->
  run (before ++ e :: after) iso = Some iso' ->
  (forall address, e <> CopyFrame address) ->
  in_window before = true.
Proof.
  intros Hnull Hrun He. rewrite run_app in Hrun.
  destruct (run before iso) as [iso1|] eqn:Hbefore; [ | discriminate].
  pose proof (run_window before iso iso1 Hbefore) as Hw.
  rewrite Hnull in Hw. unfold in_window.
  rewrite bool_decide_false in Hw by (intros [? ?]; discriminate).
  apply Hw. simpl in Hrun.
  destruct (run_entry e iso1) as [iso2|] eqn:Hstep; [ | discriminate].
  destruct e as [address|fp|]; simpl in Hstep.
  - now destruct (He address).
  - destruct (DeoptimizeFillFrame fp iso1) as [r i2| | | |] eqn:E;
      try discriminate.
    now apply DeoptimizeFillFrame_keeps in E as [_ E].
  - destruct (DeoptimizeMaterialize iso1) as [r i2| | | |] eqn:E;
      try discriminate.
    apply DeoptimizeMaterialize_clears in E as [_ (p & E & _)].
    rewrite E. eauto.
Qed.

(** X22. A copy phase does not look at the context that is installed: when
    [DeoptimizeCopyFrame] runs while the isolate has a deopt context, it
    installs a new one and the old one stays allocated with no pointer to
    it; the materialize phase that follows deletes the new one only, so the
    old one is still allocated when the isolate's deopt context is null
    again. *)
Theorem DeoptimizeCopyFrame_leaks_installed_context saved_registers_address
    iso p c :
  deopt_context iso = Some p ->
  contexts iso !! p = Some c ->
  is_Some (walk iso (last_fp_of saved_registers_address)) ->
  exists r iso1 p1,
    DeoptimizeCopyFrame saved_registers_address iso = Returns r iso1 /\
    deopt_context iso1 = Some p1 /\
    p1 <> p /\
    contexts iso1 !! p = Some c /\
    exists r2 iso2,
      DeoptimizeMaterialize iso1 = Returns r2 iso2 /\
      deopt_context iso2 = None /\
      contexts iso2 = contexts iso.
Proof.
  intros Hp Hc [[fr sp] Hwalk].
  unfold DeoptimizeCopyFrame, deref.
  fold (last_fp_of saved_registers_address). rewrite Hwalk.
  destruct (CopySavedRegisters (memory iso) saved_registers_address)
    as [fpu cpu].
  unfold new_DeoptContext.
  set (p1 := fresh (dom (contexts iso))).
  assert (contexts iso !! p1 = None) as Hfresh
    by (apply not_elem_of_dom, is_fresh).
  assert (p1 <> p) as Hne by congruence.
  eexists. eexists. exists p1. split; [reflexivity | ]. simpl.
  split; [reflexivity | ]. split; [exact Hne | ].
  split; [now rewrite lookup_insert_ne | ].
  unfold DeoptimizeMaterialize, deref. simpl. rewrite lookup_insert_eq. simpl.
  eexists. eexists. split; [reflexivity | ]. simpl. split; [reflexivity | ].
  rewrite delete_insert_eq. now apply delete_id.
Qed.

End DeoptSequenceFacts.

(** ** The type engine: what the entries keep *)

Section TypeEngineInvariants.
Import TypeEngine TypeEngineContract.
Context {M : ObjectModel} {F : Flags}.

(** X7. The subtype-test caches are append-only: over every sequence of
    [Instanceof] and [TypeCheck] calls, each cache keeps the checks it had,
    in order, in front of the checks it gets, and no cache appears. *)
Theorem subtype_caches_append_only cs w w' :
  run_calls cs w = Some w' ->
  forall cache,
    match caches w !! cache with
    | Some checks => exists more, caches w' !! cache = Some (checks ++ more)
    | None => caches w' !! cache = None
    end.
Proof.
  revert w. induction cs as [|c rest IH]; simpl; intros w Hrun cache.
  - injection Hrun as <-. destruct (caches w !! cache) as [checks|];
      [exists []; now rewrite app_nil_r | reflexivity].
  - destruct (run_call c w) as [w1|] eqn:Hc; [ | discriminate].
    specialize (IH w1 Hrun cache).
    apply run_call_caches in Hc
      as [Hc | (cache0 & checks0 & ch & H1 & _ & _ & H4)].
    + now rewrite <- Hc.
    + rewrite H4 in IH. destruct (decide (cache0 = cache)) as [-> | Hne].
      * rewrite lookup_insert_eq in IH. rewrite H1.
        destruct IH as [more IH]. exists (ch :: more).
        now rewrite IH, <- app_assoc.
      * now rewrite lookup_insert_ne in IH.
Qed.

Lemma OptimizeTypeArguments_classes fuel instance w b w' :
  OptimizeTypeArguments fuel instance w = Returns b w' ->
  forall r, clazz <$> instances w' !! r = clazz <$> instances w !! r.
Proof.
  assert (forall v r,
            clazz <$> alter (fun i => mkInstance (clazz i) v) instance
                        (instances w) !! r
            = clazz <$> instances w !! r) as Halter.
  { intros v r. rewrite lookup_alter. case_decide as E; [ | reflexivity].
    subst. now destruct (instances w !! r). }
  unfold OptimizeTypeArguments, deref.
  destruct (instances w !! instance) as [i|]; [ | discriminate].
  destruct (NumTypeArguments (clazz i) =? 0); [now intros [= _ <-] | ].
  destruct (IsNull (GetTypeArguments i)); [now intros [= _ <-] | ].
  destruct (IsInstantiatedTypeArguments (om w) (GetTypeArguments i)).
  - destruct (instantiate_loop fuel (om w) (GetTypeArguments i))
      as [[ta o1]|]; [ | discriminate].
    destruct (Canonicalize o1 ta) as [nta o2]. intros [= _ <-]. apply Halter.
  - destruct (negb (IsCanonical (om w) (GetTypeArguments i))).
    + destruct (Canonicalize (om w) (GetTypeArguments i)) as [nta o1].
      intros [= _ <-]. apply Halter.
    + now intros [= _ <-].
Qed.

Lemma canonicalize_key_classes fuel instance instantiator ita w kr w' :
  canonicalize_key fuel instance instantiator ita w = Returns kr w' ->
  forall r, clazz <$> instances w' !! r = clazz <$> instances w !! r.
Proof.
  unfold canonicalize_key, deref, bind.
  destruct (instances w !! instance) as [i|]; [ | discriminate].
  destruct (0 <? NumTypeArguments (clazz i)).
  - destruct (OptimizeTypeArguments fuel instance w) as [b w1| | | |] eqn:E1;
      try discriminate.
    pose proof (OptimizeTypeArguments_classes _ _ _ _ _ E1) as H1.
    destruct (instances w1 !! instance) as [i1|]; [ | discriminate].
    destruct (negb (IsNull instantiator)).
    + destruct (OptimizeTypeArguments fuel instantiator w1) as [b2 w2| | | |]
        eqn:E2; try discriminate.
      pose proof (OptimizeTypeArguments_classes _ _ _ _ _ E2) as H2.
      destruct (instances w2 !! instantiator); [ | discriminate].
      intros [= _ <-] r. now rewrite H2, H1.
    + intros [= _ <-]. exact H1.
  - destruct (negb (IsNull instantiator)).
    + destruct (OptimizeTypeArguments fuel instantiator w) as [b2 w2| | | |]
        eqn:E2; try discriminate.
      pose proof (OptimizeTypeArguments_classes _ _ _ _ _ E2) as H2.
      destruct (instances w2 !! instantiator); [ | discriminate].
      intros [= _ <-]. exact H2.
    + now intros [= _ <-].
Qed.

Lemma UpdateTypeTestCache_classes fuel instance instantiator ita result cache w w' :
  UpdateTypeTestCache fuel instance instantiator ita result cache w
    = Returns tt w' ->
  forall r, clazz <$> instances w' !! r = clazz <$> instances w !! r.
Proof.
  unfold UpdateTypeTestCache.
  destruct (IsNull cache); [now intros [= <-] | ].
  unfold bind.
  destruct (canonicalize_key fuel instance instantiator ita w)
    as [[k replaced] w1| | | |] eqn:Ek; try discriminate.
  pose proof (canonicalize_key_classes _ _ _ _ _ _ _ Ek) as H1.
  unfold deref. destruct (caches w1 !! cache) as [checks|]; [ | discriminate].
  destruct (FLAG_max_subtype_cache_entries <=? NumberOfChecks checks);
    [now intros [= <-] | ].
  destruct (scan checks k); [now intros [= <-] | ].
  destruct k as [[cid a] b].
  destruct (negb (IsInstantiatedTypeArguments (om w1) b));
    intros [= <-]; exact H1.
Qed.

(** X8. The type entries change nothing of an instance but its
    type-argument vector: over every sequence of [Instanceof] and
    [TypeCheck] calls the same instances are live, each with the class it
    had, and the stack is as it was. *)
Theorem type_entries_keep_classes cs w w' :
  run_calls cs w = Some w' ->
  frames w' = frames w /\
  forall r, clazz <$> instances w' !! r = clazz <$> instances w !! r.
Proof.
  revert w. induction cs as [|c rest IH]; simpl; intros w Hrun.
  - injection Hrun as <-. now split.
  - destruct (run_call c w) as [w1|] eqn:Hc; [ | discriminate].
    destruct (IH w1 Hrun) as [Hf Hi].
    assert (frames w1 = frames w /\
            forall r, clazz <$> instances w1 !! r = clazz <$> instances w !! r)
      as [Hf1 Hi1].
    { destruct c as [fuel instance type instantiator ita cache
                    | fuel src dst_type dst_instantiator ita dst_name cache];
        simpl in Hc.
      - apply Instanceof_world in Hc as [-> | [result Hc]]; [now split | ].
        split; [ | exact (UpdateTypeTestCache_classes _ _ _ _ _ _ _ _ Hc)].
        now apply UpdateTypeTestCache_caches in Hc as [Hc _].
      - apply TypeCheck_world in Hc as [-> | Hc]; [now split | ].
        split; [ | exact (UpdateTypeTestCache_classes _ _ _ _ _ _ _ _ Hc)].
        now apply UpdateTypeTestCache_caches in Hc as [Hc _]. }
    split; [congruence | ]. intros r. now rewrite Hi, Hi1.
Qed.

(** X9. With an object model whose [Canonicalize] gives canonical flat
    vectors, [OptimizeTypeArguments] settles in one call: when it returns
    true the instance has a vector that is canonical and not lazy, and a
    second call on the instance (whatever its fuel) returns false and
    changes nothing. *)
Theorem OptimizeTypeArguments_settles fuel instance w b w1 :
  canonicalizes ->
  OptimizeTypeArguments fuel instance w = Returns b w1 ->
  (b = true ->
   exists i1,
     instances w1 !! instance = Some i1 /\
     IsInstantiatedTypeArguments (om w1) (GetTypeArguments i1) = false /\
     IsCanonical (om w1) (GetTypeArguments i1) = true) /\
  forall fuel', OptimizeTypeArguments fuel' instance w1 = Returns false w1.
Proof.
  intros Hcanon. unfold OptimizeTypeArguments at 1. unfold deref.
  destruct (instances w !! instance) as [i|] eqn:Hi; [ | discriminate].
  assert (forall o ta nta o2,
            Canonicalize o ta = (nta, o2) ->
            let w2 := SetTypeArguments instance nta (set_om o2 w) in
            (exists i1,
               instances w2 !! instance = Some i1 /\
               IsInstantiatedTypeArguments (om w2) (GetTypeArguments i1) = false /\
               IsCanonical (om w2) (GetTypeArguments i1) = true) /\
            forall fuel', OptimizeTypeArguments fuel' instance w2
                          = Returns false w2) as Hset.
  { intros o ta nta o2 Ec w2. destruct (Hcanon o ta) as [Hl Hc].
    rewrite Ec in Hl, Hc. simpl in Hl, Hc.
    assert (instances w2 !! instance = Some (mkInstance (clazz i) nta)) as Hi2
      by (subst w2; simpl; now rewrite lookup_alter_eq, Hi).
    split.
    - eexists. split; [exact Hi2 | ]. simpl. now split.
    - intros fuel'. unfold OptimizeTypeArguments, deref. rewrite Hi2. simpl.
      destruct (NumTypeArguments (clazz i) =? 0); [reflexivity | ].
      destruct (IsNull nta); [reflexivity | ].
      change (om w2) with o2. now rewrite Hl, Hc. }
  destruct (NumTypeArguments (clazz i) =? 0) eqn:En.
  { intros [= <- <-]. split; [discriminate | ]. intros fuel'.
    unfold OptimizeTypeArguments, deref. now rewrite Hi, En. }
  destruct (IsNull (GetTypeArguments i)) eqn:Enull.
  { intros [= <- <-]. split; [discriminate | ]. intros fuel'.
    unfold OptimizeTypeArguments, deref. now rewrite Hi, En, Enull. }
  destruct (IsInstantiatedTypeArguments (om w) (GetTypeArguments i)) eqn:El.
  - destruct (instantiate_loop fuel (om w) (GetTypeArguments i))
      as [[ta o1]|]; [ | discriminate].
    destruct (Canonicalize o1 ta) as [nta o2] eqn:Ec.
    intros [= <- <-]. destruct (Hset o1 ta nta o2 Ec) as [H1 H2].
    split; [intros _; exact H1 | exact H2].
  - destruct (IsCanonical (om w) (GetTypeArguments i)) eqn:Ecan; simpl.
    + intros [= <- <-]. split; [discriminate | ]. intros fuel'.
      unfold OptimizeTypeArguments, deref. now rewrite Hi, En, Enull, El, Ecan.
    + destruct (Canonicalize (om w) (GetTypeArguments i)) as [nta o1] eqn:Ec.
      intros [= <- <-].
      destruct (Hset (om w) (GetTypeArguments i) nta o1 Ec) as [H1 H2].
      split; [intros _; exact H1 | exact H2].
Qed.

Lemma canonicalize_key_class_id fuel instance instantiator ita w i k replaced w1 :
  instances w !! instance = Some i ->
  canonicalize_key fuel instance instantiator ita w = Returns (k, replaced) w1 ->
  fst (fst k) = id (clazz i).
Proof.
  intros Hi. unfold canonicalize_key, deref, bind. rewrite Hi.
  destruct (0 <? NumTypeArguments (clazz i)).
  - destruct (OptimizeTypeArguments fuel instance w) as [b w2| | | |];
      try discriminate.
    destruct (instances w2 !! instance) as [i1|]; [ | discriminate].
    destruct (negb (IsNull instantiator)).
    + destruct (OptimizeTypeArguments fuel instantiator w2) as [b2 w3| | | |];
        try discriminate.
      destruct (instances w3 !! instantiator); [ | discriminate].
      now intros [= <- _ _].
    + now intros [= <- _ _].
  - destruct (negb (IsNull instantiator)).
    + destruct (OptimizeTypeArguments fuel instantiator w) as [b2 w3| | | |];
        try discriminate.
      destruct (instances w3 !! instantiator); [ | discriminate].
      now intros [= <- _ _].
    + now intros [= <- _ _].
Qed.

(** X10. What [UpdateTypeTestCache] stores: when it changes the caches it has
    appended one check to the cache it was given, and that check has the
    class id of the instance, the result it was given, and an instantiator
    type-argument vector that is not lazy. *)
Theorem UpdateTypeTestCache_stores_flat_key fuel instance instantiator ita
    result cache w i w' :
  instances w !! instance = Some i ->
  UpdateTypeTestCache fuel instance instantiator ita result cache w
    = Returns tt w' ->
  caches w' = caches w \/
  exists checks c,
    caches w !! cache = Some checks /\
    caches w' = <[cache := checks ++ [c]]> (caches w) /\
    instance_class_id c = id (clazz i) /\
    test_result c = result /\
    IsInstantiatedTypeArguments (om w') (instantiator_type_arguments c) = false.
Proof.
  intros Hi. unfold UpdateTypeTestCache.
  destruct (IsNull cache); [intros [= <-]; now left | ].
  unfold bind.
  destruct (canonicalize_key fuel instance instantiator ita w)
    as [[k replaced] w1| | | |] eqn:Ek; try discriminate.
  pose proof (canonicalize_key_class_id _ _ _ _ _ _ _ _ _ Hi Ek) as Hcid.
  apply canonicalize_key_frame in Ek as [Hc _].
  unfold deref. destruct (caches w1 !! cache) as [checks|] eqn:El;
    [ | discriminate].
  destruct (FLAG_max_subtype_cache_entries <=? NumberOfChecks checks);
    [intros [= <-]; now left | ].
  destruct (scan checks k); [intros [= <-]; now left | ].
  destruct k as [[cid a] b]. simpl in Hcid.
  destruct (IsInstantiatedTypeArguments (om w1) b) eqn:Elazy; simpl;
    [intros [= <-]; now left | ].
  intros [= <-]. right. exists checks, (mkCheck cid a b result). simpl.
  rewrite <- Hc. repeat split; assumption.
Qed.

End TypeEngineInvariants.

(** ** The optimization filter *)

Section OptimizationFilterFacts.
Import Heap Optimizer OptimizationFilter.

Local Open Scope string_scope.
#[local] Arguments String.append !s1 s2 : simpl nomatch.

Lemma append_nil_r (s : string) : s ++ "" = s.
Proof. induction s as [|c s IH]; simpl; [reflexivity | now rewrite IH]. Qed.

Lemma append_assoc (a b c : string) : (a ++ b) ++ c = a ++ b ++ c.
Proof. induction a as [|x a IH]; simpl; [reflexivity | now rewrite IH]. Qed.

Lemma append_eq_nil (a b : string) : a ++ b = "" -> a = "" /\ b = "".
Proof. destruct a; simpl; [auto | discriminate]. Qed.

(** Two ways to cut one string: one cut is inside the other's first part. *)
Lemma append_eq_append (a b c d : string) :
  a ++ b = c ++ d ->
  (exists k, c = a ++ k /\ b = k ++ d) \/
  (exists k, a = c ++ k /\ d = k ++ b).
Proof.
  revert c. induction a as [|x a IH]; intros c H; simpl in H.
  - left. exists c. auto.
  - destruct c as [|y c]; simpl in H.
    + right. exists (String x a). auto.
    + injection H as -> H. destruct (IH c H) as [(k & -> & ->) | (k & -> & ->)];
        [left | right]; exists k; auto.
Qed.

Lemma has_comma_append (a b : string) :
  has_comma (a ++ b) = has_comma a || has_comma b.
Proof.
  induction a as [|x a IH]; simpl; [reflexivity | ].
  now rewrite IH, orb_assoc.
Qed.

Lemma prefix_append (needle haystack : string) :
  String.prefix needle haystack = true <->
  exists after, haystack = needle ++ after.
Proof.
  revert haystack. induction needle as [|x n IH]; intros h.
  - split; [intros _; now exists h | intros _; now destruct h].
  - destruct h as [|y h]; simpl.
    + split; [discriminate | intros [after H]; discriminate].
    + destruct (ascii_dec x y) as [-> | Hne].
      * rewrite IH. split; intros [after H]; exists after; congruence.
      * split; [discriminate | intros [after H]; congruence].
Qed.

Lemma strstr_occurs_in (haystack needle : string) :
  strstr haystack needle = true <-> occurs_in needle haystack.
Proof.
  unfold occurs_in. induction haystack as [|y h IH].
  - change (strstr "" needle)
      with (if String.prefix needle "" then true else false).
    destruct (String.prefix needle "") eqn:E.
    + apply prefix_append in E as [after E].
      split; [intros _; now exists "", after | reflexivity].
    + split; [discriminate | ]. intros (before & after & H).
      symmetry in H. apply append_eq_nil in H as [-> H]. simpl in H.
      assert (String.prefix needle "" = true) as E'
        by (apply prefix_append; exists after; now rewrite H).
      congruence.
  - change (strstr (String y h) needle)
      with (if String.prefix needle (String y h) then true
            else strstr h needle).
    destruct (String.prefix needle (String y h)) eqn:E.
    + apply prefix_append in E as [after E].
      split; [intros _; now exists "", after | reflexivity].
    + rewrite IH. split.
      * intros (before & after & ->). now exists (String y before), after.
      * intros (before & after & H). destruct before as [|x before].
        -- simpl in H.
           assert (String.prefix needle (String y h) = true) as E'
             by (apply prefix_append; now exists after).
           congruence.
        -- simpl in H. injection H as _ ->. now exists before, after.
Qed.

Lemma filter_loop_exists (function_name : string) (tokens : list string) :
  filter_loop function_name tokens = true <->
  exists token, In token tokens /\ strstr function_name token = true.
Proof.
  induction tokens as [|t rest IH]; simpl.
  - split; [discriminate | intros (token & [] & _)].
  - destruct (strstr function_name t) eqn:E.
    + split; [intros _; exists t; auto | reflexivity].
    + rewrite IH. split.
      * intros (token & Hin & H). exists token. auto.
      * intros (token & [<- | Hin] & H); [congruence | exists token; auto].
Qed.

Lemma has_comma_first (a b : string) :
  has_comma a = false -> a <> "" -> forall r, a ++ b <> String "," r.
Proof.
  destruct a as [|x a]; [congruence | ]. simpl. intros H _ r E.
  injection E as -> _. simpl in H. discriminate.
Qed.

(** With the comma-free run [token] read so far, the tokens of the rest of
    the filter are the entries of the run followed by the rest. *)
Lemma strtok_r_entries (filter : string) :
  forall token entry,
    has_comma token = false ->
    In entry (strtok_r filter token) <-> is_entry entry (token ++ filter).
Proof.
  induction filter as [|c rest IH]; intros token entry Hfree.
  - rewrite append_nil_r. simpl. split.
    + intros H. assert (entry = token /\ token <> "") as [-> Hne]
        by (destruct token; simpl in H; [tauto | intuition congruence]).
      split; [exact Hne | split; [exact Hfree | ]].
      exists "", "". simpl. rewrite append_nil_r. auto.
    + intros (Hne & Hef & before & after & Heq & Hb & Ha).
      rewrite Heq in Hfree. rewrite !has_comma_append in Hfree.
      apply orb_false_elim in Hfree as [Hfb Hfree].
      apply orb_false_elim in Hfree as [_ Hfa].
      assert (before = "") as ->.
      { destruct Hb as [-> | [b ->]]; [reflexivity | ].
        rewrite has_comma_append in Hfb. simpl in Hfb.
        rewrite orb_true_r in Hfb. discriminate. }
      assert (after = "") as ->
        by (destruct Ha as [-> | [a ->]]; [reflexivity | discriminate]).
      simpl in Heq. rewrite append_nil_r in Heq. subst token.
      destruct entry; [congruence | now left].
  - simpl. destruct (Ascii.eqb c ",") eqn:Ec.
    + apply Ascii.eqb_eq in Ec. subst c.
      assert (In entry (strtok_r rest "") <-> is_entry entry rest) as IH0
        by (apply (IH "" entry); reflexivity).
      assert (In entry (match token with
                        | "" => strtok_r rest ""
                        | String _ _ => token :: strtok_r rest ""
                        end)
              <-> (entry = token /\ token <> "") \/ is_entry entry rest) as ->.
      { rewrite <- IH0. destruct token; simpl; [ | intuition congruence].
        split; [auto | intros [[_ H] | H]; [congruence | exact H]]. }
      split.
      * intros [[-> Hne] | (Hne & Hef & before & after & -> & Hb & Ha)].
        -- split; [exact Hne | split; [exact Hfree | ]].
           exists "", (String "," rest). simpl. split; [reflexivity | ].
           split; [now left | right; eauto].
        -- split; [exact Hne | split; [exact Hef | ]].
           exists (token ++ String "," before), after.
           split; [now rewrite append_assoc | ].
           split; [right | exact Ha].
           destruct Hb as [-> | [b ->]].
           ++ exists token. reflexivity.
           ++ exists (token ++ String "," b).
              now rewrite append_assoc.
      * intros (Hne & Hef & before & after & Heq & Hb & Ha).
        apply append_eq_append in Heq as [(k & -> & Hk) | (k & -> & Hk)].
        -- destruct k as [|x k].
           ++ simpl in Hk. symmetry in Hk.
              now apply has_comma_first in Hk.
           ++ simpl in Hk. injection Hk as <- ->. right.
              split; [exact Hne | split; [exact Hef | ]].
              exists k, after. split; [reflexivity | ]. split; [ | exact Ha].
              destruct Hb as [Hb | [b Hb]].
              ** apply append_eq_nil in Hb as [_ Hb]. discriminate.
              ** destruct k as [|y k]; [now left | right].
                 apply append_eq_append in Hb as [(j & -> & Hj) | (j & Hj & Hc)].
                 --- destruct j as [|z j]; simpl in Hj; [discriminate | ].
                     injection Hj as _ Hj. exists j. exact Hj.
                 --- destruct j as [|z j]; simpl in Hc; [discriminate | ].
                     injection Hc as _ Hc. symmetry in Hc.
                     apply append_eq_nil in Hc as [_ Hc]. discriminate.
        -- rewrite has_comma_append in Hfree.
           apply orb_false_elim in Hfree as [Hfb Hfk].
           assert (before = "") as ->.
           { destruct Hb as [-> | [b ->]]; [reflexivity | ].
             rewrite has_comma_append in Hfb. simpl in Hfb.
             rewrite orb_true_r in Hfb. discriminate. }
           simpl in *. left.
           apply append_eq_append in Hk as [(j & -> & Hj) | (j & -> & Hj)].
           ++ destruct j as [|z j].
              ** rewrite append_nil_r in *. auto.
              ** rewrite has_comma_append in Hfk.
                 apply orb_false_elim in Hfk as [_ Hfj].
                 destruct Ha as [-> | [a ->]]; [discriminate | ].
                 simpl in Hj. injection Hj as <- _. simpl in Hfj. discriminate.
           ++ destruct j as [|z j].
              ** rewrite append_nil_r in *. auto.
              ** simpl in Hj. injection Hj as <- _.
                 rewrite has_comma_append in Hef. simpl in Hef.
                 rewrite orb_true_r in Hef. discriminate.
    + assert (has_comma (token ++ String c "") = false) as Hfree'.
      { rewrite has_comma_append, Hfree. simpl. now rewrite Ec. }
      rewrite (IH _ entry Hfree'). rewrite append_assoc. reflexivity.
Qed.

(** X11. The optimization filter is a comma-separated list of entries, and
    a function passes it exactly when its fully qualified name contains one
    of them: the loop of [CanOptimizeFunction] over the tokens that
    [strtok_r] gives finds a match iff some non-empty comma-free run of the
    filter, delimited by commas or the ends of the filter, occurs in the
    name.  (Empty entries are no entries: an empty filter matches
    nothing.) *)
Theorem optimization_filter_entries (filter function_name : string) :
  filter_loop function_name (strtok_r filter EmptyString) = true <->
  exists entry, is_entry entry filter /\ occurs_in entry function_name.
Proof.
  rewrite filter_loop_exists. split.
  - intros (token & Hin & H). exists token.
    split; [ | now apply strstr_occurs_in].
    now apply (strtok_r_entries filter "" token eq_refl).
  - intros (entry & He & H). exists entry.
    split; [ | now apply strstr_occurs_in].
    now apply (strtok_r_entries filter "" entry eq_refl).
Qed.

End OptimizationFilterFacts.

(** ** The optimizer entries *)

Section OptimizerEntriesFacts.
Import Heap Optimizer OptimizerEntries.
Context {F : Flags}.

(** What [CanOptimizeFunction] returns and leaves: true and the isolate as
    it was, or false and the usage counter of the function set to 0 or to
    the sentinel. *)
Lemma CanOptimizeFunction_cases function iso b iso1 :
  CanOptimizeFunction function iso = Returns b iso1 ->
  exists f,
    functions (heap iso) !! function = Some f /\
    ((b = true /\ iso1 = iso) \/
     (b = false /\
      exists value,
        (value = 0 \/ value = kLowInvocationCount) /\
        iso1 = set_heap
                 (update_function function (set_usage_counter value) (heap iso))
                 iso)).
Proof.
  unfold CanOptimizeFunction, deref.
  destruct (functions (heap iso) !! function) as [f|]; [ | discriminate].
  intros H. exists f. split; [reflexivity | ].
  destruct (IsStepping iso || HasBreakpoint iso function).
  { injection H as <- <-. right. split; [reflexivity | ]. exists 0. auto. }
  destruct (FLAG_deoptimization_counter_threshold <=? deoptimization_counter f).
  { destruct FLAG_stop_on_excessive_deoptimization; [discriminate | ].
    injection H as <- <-. right. split; [reflexivity | ].
    exists kLowInvocationCount. auto. }
  destruct (match FLAG_optimization_filter with
            | Some filter => _
            | None => false
            end).
  { injection H as <- <-. right. split; [reflexivity | ].
    exists kLowInvocationCount. auto. }
  destruct (negb (is_optimizable f)).
  { injection H as <- <-. right. split; [reflexivity | ].
    exists kLowInvocationCount. auto. }
  injection H as <- <-. left. auto.
Qed.

Lemma CanOptimizeFunction_no_throw function iso e iso1 :
  CanOptimizeFunction function iso <> Throws e iso1.
Proof.
  unfold CanOptimizeFunction, deref.
  repeat match goal with
         | |- context [match ?x with _ => _ end] => destruct x
         | |- context [if ?x then _ else _] => destruct x
         end; discriminate.
Qed.

(** X12. When [OptimizeInvokedFunction] returns, the code it returns is the
    function's current code and the function's usage counter has been
    reset: it is 0, or the sentinel.  It is the sentinel only when the
    function failed a lasting optimizability check: then the compiler has
    not run, the heap is as it was but for that counter, and the code
    returned is the code the function had. *)
Theorem OptimizeInvokedFunction_resets_counter {E : Embedder} kNoDeoptId
    function iso code iso' :
  OptimizeInvokedFunction kNoDeoptId function iso = Returns code iso' ->
  exists f',
    functions (heap iso') !! function = Some f' /\
    CurrentCode f' = code /\
    (usage_counter f' = 0 \/ usage_counter f' = kLowInvocationCount) /\
    (usage_counter f' = kLowInvocationCount ->
     exists f,
       functions (heap iso) !! function = Some f /\
       code = CurrentCode f /\
       heap iso'
       = update_function function (set_usage_counter kLowInvocationCount)
           (heap iso)).
Proof.
  unfold OptimizeInvokedFunction, bind.
  destruct (CanOptimizeFunction function iso) as [can iso1| | | |] eqn:Ecan;
    try discriminate.
  apply CanOptimizeFunction_cases in Ecan
    as (f & Hf & [[-> ->] | (-> & value & Hvalue & ->)]).
  - destruct (CompileOptimizedFunction (heap iso) function kNoDeoptId)
      as [[e|] h2]; [discriminate | ].
    unfold deref. destruct (functions h2 !! function) as [f2|] eqn:Hf2;
      [ | discriminate].
    simpl. rewrite lookup_alter_eq, Hf2. simpl. intros [= <- <-].
    exists (set_usage_counter 0 f2). simpl. rewrite lookup_alter_eq, Hf2.
    split; [reflexivity | ]. split; [reflexivity | ]. split; [now left | ].
    discriminate.
  - unfold deref. simpl. rewrite lookup_alter_eq, Hf. simpl. intros [= <- <-].
    exists (set_usage_counter value f). simpl. rewrite lookup_alter_eq, Hf.
    split; [reflexivity | ]. split; [reflexivity | ]. split; [exact Hvalue | ].
    intros ->. exists f. auto.
Qed.

Lemma OnStackReplacement_throws {E : Embedder} iso e iso' :
  OnStackReplacement iso = Throws e iso' ->
  exists error, e = PropagatedError error.
Proof.
  unfold OnStackReplacement, deref, bind.
  destruct (frames iso) as [|frame callers]; [discriminate | ].
  destruct (codes (heap iso) !! LookupDartCode frame) as [frame_code|];
    [ | discriminate].
  destruct (CanOptimizeFunction (function frame_code) iso)
    as [can iso1| | | |] eqn:Ecan; try discriminate.
  - destruct can; [ | discriminate]. simpl.
    destruct (functions (heap iso1) !! function frame_code) as [f|];
      [ | discriminate].
    destruct (codes (heap iso1) !! unoptimized_code f) as [unoptimized|];
      [ | discriminate].
    destruct (CompileOptimizedFunction _ _ _) as [[error|] h2].
    + intros [= <- _]. eauto.
    + destruct (functions h2 !! function frame_code) as [f2|];
        [ | discriminate].
      destruct (negb _); [ | discriminate].
      destruct (codes h2 !! CurrentCode f2); discriminate.
  - now apply CanOptimizeFunction_no_throw in Ecan.
Qed.

(** X13. [StackOverflow] throws the stack-overflow exception exactly when
    the stack pointer is below the saved limit; the exception is the
    preallocated one and the isolate is as it was: no interrupt has been
    read or cleared, no callback has run. *)
Theorem StackOverflow_throws_overflow_iff {E : Embedder} stack_pos iso
    exception iso' :
  StackOverflow stack_pos iso = Throws (StackOverflowError exception) iso' <->
  stack_pos < saved_stack_limit iso /\
  exception = stack_overflow iso /\
  iso' = iso.
Proof.
  unfold StackOverflow.
  destruct (stack_pos <? saved_stack_limit iso) eqn:El.
  - apply Z.ltb_lt in El. split.
    + intros [= <- <-]. auto.
    + intros (_ & -> & ->). reflexivity.
  - apply Z.ltb_ge in El. split; [ | lia].
    unfold bind.
    set (iso2 := if negb (Z.land (interrupts iso) kMessageInterrupt =? 0)
                 then _ else _).
    destruct (negb (Z.land (interrupts iso) kApiInterrupt =? 0)).
    + destruct InterruptCallback as [callback|].
      * destruct (callback iso2) as [[|] iso3]; discriminate.
      * destruct (FLAG_use_osr && (interrupts iso =? 0)); [ | discriminate].
        intros H. apply OnStackReplacement_throws in H as [error H].
        discriminate.
    + destruct (FLAG_use_osr && (interrupts iso =? 0)); [ | discriminate].
      intros H. apply OnStackReplacement_throws in H as [error H].
      discriminate.
Qed.

(** X14. On-stack replacement is attempted only on a call that found no
    interrupt pending (and no overflow, and the flag on): otherwise what
    [StackOverflow] does is the same for any two embedders that differ in
    their compiler only, so the compiler has not run. *)
Theorem StackOverflow_no_osr_when_interrupted (E1 E2 : Embedder) stack_pos iso :
  same_but_compiler E1 E2 ->
  interrupts iso <> 0 \/ FLAG_use_osr = false \/
    stack_pos < saved_stack_limit iso ->
  @StackOverflow F E1 stack_pos iso = @StackOverflow F E2 stack_pos iso.
Proof.
  intros Hsame Hcase.
  destruct E1 as [compile1 gc1 oob1 icb1 vcb1 api1 msg1 sb1 vm1].
  destruct E2 as [compile2 gc2 oob2 icb2 vcb2 api2 msg2 sb2 vm2].
  destruct Hsame as (Hgc & Hoob & Hicb & Hvcb & Hapi & Hmsg & Hsb & Hvm).
  simpl in *. subst.
  unfold StackOverflow. simpl.
  destruct (stack_pos <? saved_stack_limit iso) eqn:El; [reflexivity | ].
  assert (FLAG_use_osr && (interrupts iso =? 0) = false) as ->.
  { destruct Hcase as [H | [H | H]].
    - apply Z.eqb_neq in H. rewrite H. apply andb_false_r.
    - now rewrite H.
    - apply Z.ltb_ge in El. lia. }
  reflexivity.
Qed.

End OptimizerEntriesFacts.

(** ** The IC engine: what the entries record *)

Section ICRecordsFacts.
Import ICEngine ICMiss.
Context {R : Runtime}.

Lemma ICData_eta ic :
  mkICData (target_name ic) (num_args_tested ic) (checks ic ++ []) = ic.
Proof. destruct ic. simpl. now rewrite app_nil_r. Qed.

Lemma add_class_ids_length args :
  forall n i class_ids ids,
    add_class_ids args i n class_ids = Some ids ->
    length ids = (length class_ids + n)%nat.
Proof.
  induction n as [|n IH]; intros i class_ids ids; simpl.
  - intros [= <-]. lia.
  - destruct (args !! i) as [o|]; [ | discriminate].
    intros H. apply IH in H. rewrite length_app in H. simpl in H. lia.
Qed.

(** X15. Whatever path it takes, [InstanceFunctionLookup] has touched one
    IC data object when it invokes the dispatcher, the one it is given, and
    has only appended to it: at most one check, for the receiver's class id
    and with the dispatcher as target; the target name and the number of
    arguments tested stay.  The entry then ends as the invocation of the
    dispatcher in that world does.  (The argument array is taken to hold
    the arguments the IC data tests.) *)
Theorem InstanceFunctionLookup_appends_at_most_one receiver ic_data
    args_descriptor args w ic :
  ic_datas w !! ic_data = Some ic ->
  (Z.to_nat (num_args_tested ic - 1) <= length args - 1)%nat ->
  exists target_function d more,
    InstanceFunctionLookup receiver ic_data args_descriptor args w
    = InvokeDispatcher target_function args args_descriptor
        (recorded d ic_data
           (mkICData (target_name ic) (num_args_tested ic)
              (checks ic ++ more)) w) /\
    (length more <= 1)%nat /\
    Forall (fun c => GetReceiverClassId c = GetClassId receiver /\
                     target c = target_function) more.
Proof.
  intros Hic Hlen. unfold InstanceFunctionLookup, deref. rewrite Hic.
  unfold ResolveCallThroughGetter.
  destruct (IsNull _ || IsMethodExtractor _ _); simpl.
  - destruct (GetInvocationDispatcher (dart w) (GetClassId receiver)
                (target_name ic) args_descriptor kNoSuchMethodDispatcher)
      as [target_function d2]. simpl. rewrite Hic.
    exists target_function, d2.
    destruct (num_args_tested ic =? 1).
    + destruct (IsNull (GetTargetForReceiverClassId ic (GetClassId receiver)));
        simpl.
      * exists [mkICCheck [GetClassId receiver] target_function].
        rewrite (recorded_update d2 ic_data _ w ic Hic).
        split; [reflexivity | ]. split; [simpl; lia | ].
        repeat constructor.
      * exists []. rewrite ICData_eta.
        rewrite (recorded_same d2 ic_data w ic Hic).
        split; [reflexivity | ]. split; [simpl; lia | constructor].
    + rewrite (add_class_ids_take args _ 1 [GetClassId receiver] Hlen). simpl.
      eexists [mkICCheck _ target_function].
      rewrite (recorded_update d2 ic_data _ w ic Hic).
      split; [reflexivity | ]. split; [simpl; lia | ].
      repeat constructor.
  - destruct (GetInvocationDispatcher (dart w) (GetClassId receiver)
                (target_name ic) args_descriptor kInvokeFieldDispatcher)
      as [target_function d1]. simpl.
    exists target_function, d1,
      [mkICCheck [GetClassId receiver] target_function].
    rewrite (recorded_update d1 ic_data _ w ic Hic).
    split; [ | split; [simpl; lia | repeat constructor]].
    unfold InvokeDispatcher, AddReceiverCheck.
    destruct (invoke target_function args args_descriptor _)
      as [[o|error] w2]; reflexivity.
Qed.

(** X16. The getter path has no guard: when a getter with the call's name
    resolves (and is no method extractor), [InstanceFunctionLookup] appends
    the check of the receiver's class id with the invoke-field dispatcher
    whether or not the class id is recorded already, so the checks with
    that class id are one more when the dispatcher is invoked; the entry
    then ends as the invocation does: with its result, or with its error
    propagated. *)
Theorem InstanceFunctionLookup_getter_always_appends receiver ic_data
    args_descriptor args w ic :
  ic_datas w !! ic_data = Some ic ->
  (let getter :=
     ResolveGetterForReceiverClass (dart w) (GetClassId receiver)
       (GetterName (target_name ic)) in
   IsNull getter || IsMethodExtractor (dart w) getter = false) ->
  let cid := GetClassId receiver in
  let dispatcher :=
    GetInvocationDispatcher (dart w) cid (target_name ic) args_descriptor
      kInvokeFieldDispatcher in
  let ic' :=
    mkICData (target_name ic) (num_args_tested ic)
      (checks ic ++ [mkICCheck [cid] (fst dispatcher)]) in
  let w1 := recorded (snd dispatcher) ic_data ic' w in
  InstanceFunctionLookup receiver ic_data args_descriptor args w
  = InvokeDispatcher (fst dispatcher) args args_descriptor w1 /\
  ic_datas w1 !! ic_data = Some ic' /\
  receiver_checks cid ic' = S (receiver_checks cid ic) /\
  InvokeDispatcher (fst dispatcher) args args_descriptor w1
  = match invoke (fst dispatcher) args args_descriptor w1 with
    | (ResultObject o, w2) => Returns (ResultObject o) w2
    | (ResultError error, w2) => Throws (PropagatedError error) w2
    end.
Proof.
  intros Hic Hgetter. simpl in Hgetter. simpl.
  unfold InstanceFunctionLookup, deref. rewrite Hic.
  unfold ResolveCallThroughGetter. rewrite Hgetter. simpl.
  destruct (GetInvocationDispatcher (dart w) (GetClassId receiver)
              (target_name ic) args_descriptor kInvokeFieldDispatcher)
    as [target_function d1]. simpl.
  rewrite (recorded_update d1 ic_data _ w ic Hic).
  unfold InvokeDispatcher, AddReceiverCheck.
  split; [ | split; [ | split]].
  - destruct (invoke target_function args args_descriptor _)
      as [[o|error] w2]; reflexivity.
  - unfold recorded. simpl. apply lookup_insert_eq.
  - rewrite receiver_checks_app. simpl.
    rewrite decide_True by reflexivity. lia.
  - destruct (invoke target_function args args_descriptor _)
      as [[o|error] w2]; reflexivity.
Qed.

Context {L : Linker}.

Lemma EnsureHasCode_ic_datas function w :
  match EnsureHasCode function w with
  | Returns _ w1 => ic_datas w1 = ic_datas w
  | Throws e w1 => ic_datas w1 = ic_datas w /\ exists error, e = PropagatedError error
  | _ => False
  end.
Proof.
  unfold EnsureHasCode. destruct (negb (HasCode (dart w) function));
    [ | reflexivity].
  destruct (CompileFunction (dart w) function) as [[e|] d1]; simpl; eauto.
Qed.

(** The loop that collects the class ids of the arguments. *)
Lemma add_class_ids_map args :
  forall n i class_ids,
    (i + n = length args)%nat ->
    add_class_ids args i n class_ids
    = Some (class_ids ++ map GetClassId (drop i args)).
Proof.
  induction n as [|n IH]; intros i class_ids Hlen; simpl.
  - rewrite drop_ge by lia. now rewrite app_nil_r.
  - destruct (args !! i) as [o|] eqn:Ho.
    + rewrite IH by lia. rewrite (drop_S _ _ _ Ho). simpl.
      now rewrite <- app_assoc.
    + apply lookup_ge_None in Ho. lia.
Qed.

(** X17. What an inline-cache miss records is what it returns.  When
    [InlineCacheMissHandler] returns, either it returns null and no IC data
    has changed (nothing resolved: the megamorphic stub takes over), or the
    IC data it was given has one more check, whose class ids are those of
    all the arguments, in order, and whose target is the function returned;
    no other IC data has changed.  When it throws, it propagates a
    compilation error and no IC data has changed. *)
Theorem InlineCacheMissHandler_records_what_it_returns args ic_data w :
  match InlineCacheMissHandler args ic_data w with
  | Returns target_function w' =>
      (target_function = null /\ ic_datas w' = ic_datas w) \/
      (exists ic,
         ic_datas w !! ic_data = Some ic /\
         ic_datas w'
         = <[ic_data := mkICData (target_name ic) (num_args_tested ic)
                          (checks ic ++
                           [mkICCheck (map GetClassId args) target_function])]>
             (ic_datas w))
  | Throws e w' =>
      ic_datas w' = ic_datas w /\ exists error, e = PropagatedError error
  | _ => True
  end.
Proof.
  unfold InlineCacheMissHandler, deref.
  destruct (args !! 0%nat) as [receiver|] eqn:Hr; [ | exact I].
  unfold ResolveCompileInstanceCallTarget, deref.
  destruct (ic_datas w !! ic_data) as [ic|] eqn:Hic; [ | exact I].
  destruct (IsNull (ResolveDynamic _ _ _ _)); simpl.
  { left. auto. }
  pose proof (EnsureHasCode_ic_datas
                (ResolveDynamic (dart w) receiver (target_name ic)
                   (arguments_descriptor (dart w) ic_data)) w) as Hensure.
  destruct (EnsureHasCode _ w) as [[] w1|e w1| | |]; simpl; try exact I;
    [ | exact Hensure].
  destruct (IsNull (FunctionCurrentCode (dart w1) _)); [left; auto | ].
  destruct (length args =? 1)%nat eqn:Elen.
  - right. exists ic. split; [reflexivity | ].
    apply Nat.eqb_eq in Elen.
    destruct args as [|a [|b rest]]; simpl in Elen; try lia.
    injection Hr as ->. simpl. rewrite Hensure.
    exact (alter_lookup_insert _ ic_data (ic_datas w) ic Hic).
  - rewrite (add_class_ids_map args (length args) 0 []) by lia. simpl.
    right. exists ic. split; [reflexivity | ].
    rewrite drop_0, Hensure.
    exact (alter_lookup_insert _ ic_data (ic_datas w) ic Hic).
Qed.

(** X18. The IC data of a static call keeps its one target: when every
    check of the IC data has the statically known target,
    [StaticCallMissHandlerTwoArgs] returns that target and appends one
    check for the class ids of the two arguments with that target, so every
    check still has it; a compilation error is propagated and leaves the
    IC data as it was. *)
Theorem StaticCallMissHandlerTwoArgs_keeps_target arg0 arg1 ic_data w ic
    target0 :
  ic_datas w !! ic_data = Some ic ->
  static_call_checks target0 ic ->
  match StaticCallMissHandlerTwoArgs arg0 arg1 ic_data w with
  | Returns target w' =>
      target = target0 /\
      exists ic',
        ic_datas w' !! ic_data = Some ic' /\
        checks ic'
        = checks ic ++ [mkICCheck [GetClassId arg0; GetClassId arg1] target0] /\
        static_call_checks target0 ic'
  | Throws e w' =>
      ic_datas w' = ic_datas w /\ exists error, e = PropagatedError error
  | _ => False
  end.
Proof.
  intros Hic [Hne Hall]. unfold StaticCallMissHandlerTwoArgs, deref.
  rewrite Hic. unfold GetTargetAt.
  destruct (checks ic) as [|c0 rest] eqn:Hchecks; [congruence | ]. simpl.
  assert (target c0 = target0) as -> by (now inversion Hall).
  pose proof (EnsureHasCode_ic_datas target0 w) as Hensure.
  destruct (EnsureHasCode target0 w) as [[] w1|e w1| | |]; simpl;
    try exact Hensure.
  split; [reflexivity | ].
  rewrite lookup_alter_eq, Hensure, Hic. simpl.
  eexists. split; [reflexivity | ]. simpl. rewrite Hchecks.
  split; [reflexivity | ].
  split; simpl; rewrite Hchecks; [discriminate | ].
  change (Forall (fun c => target c = target0)
            ((c0 :: rest) ++
             [mkICCheck [GetClassId arg0; GetClassId arg1] target0])).
  apply Forall_app. split; [exact Hall | ]. repeat constructor.
Qed.

End ICRecordsFacts.

(** ** Cloning a context *)

Section ContextsFacts.
Import Contexts.
Variable new_parent : RawObject.
Variable new_variable : nat -> RawObject.

(** The loop of [CloneContext], from [i] on: the clone keeps the variables
    below [i] and gets those of the original from [i] on. *)
Lemma copy_variables_copies ctx cloned_ctx c p :
  cloned_ctx <> ctx ->
  forall fuel i vs (s : gmap Z Context),
    s !! ctx = Some c ->
    s !! cloned_ctx = Some (mkContext p vs) ->
    length vs = length (variables c) ->
    (i <= length (variables c))%nat ->
    (length (variables c) - i < fuel)%nat ->
    copy_variables fuel i ctx cloned_ctx s
    = Returns tt
        (<[cloned_ctx := mkContext p (take i vs ++ drop i (variables c))]> s).
Proof.
  intros Hne. induction fuel as [|fuel IH]; intros i vs s Hc Hcl Hlen Hi Hfuel;
    [lia | ].
  simpl. unfold deref. rewrite Hc. unfold num_variables.
  destruct (Z.of_nat i <? Z.of_nat (length (variables c))) eqn:Ei.
  - apply Z.ltb_lt in Ei.
    destruct (variables c !! i) as [value|] eqn:Hv;
      [ | apply lookup_ge_None in Hv; lia].
    unfold At, SetAt, deref, bind. rewrite Hc, Hv, Hcl. simpl.
    rewrite bool_decide_true by lia.
    rewrite (IH (S i) (<[i := value]> vs)); try lia.
    + rewrite insert_insert_eq. f_equal. f_equal. f_equal.
      rewrite (take_S_r _ _ value)
        by (rewrite list_lookup_insert_eq; [reflexivity | lia]).
      rewrite take_insert_ge by lia.
      rewrite <- app_assoc. f_equal. symmetry. now apply drop_S.
    + now rewrite lookup_insert_ne.
    + now rewrite lookup_insert_eq.
    + now rewrite length_insert.
  - apply Z.ltb_ge in Ei.
    rewrite take_ge by lia. rewrite drop_ge by lia. rewrite app_nil_r.
    f_equal. symmetry. now apply insert_id.
Qed.

(** X19. [CloneContext] on a live context, with fuel for its variables,
    returns a context that was not there before and that has the parent and
    the variables of the original; the original and every other context are
    as they were. *)
Theorem CloneContext_copies fuel ctx (s : gmap Z Context) c :
  s !! ctx = Some c ->
  (length (variables c) < fuel)%nat ->
  exists cloned_ctx,
    CloneContext new_parent new_variable fuel ctx s
    = Returns cloned_ctx (<[cloned_ctx := c]> s) /\
    s !! cloned_ctx = None /\
    cloned_ctx <> null.
Proof.
  intros Hc Hfuel. unfold CloneContext, deref, Context_New. rewrite Hc.
  set (cloned_ctx := fresh ({[null]} ∪ dom s)).
  pose proof (is_fresh ({[null]} ∪ dom s)) as Hnew. fold cloned_ctx in Hnew.
  assert (s !! cloned_ctx = None) as Hfresh
    by (apply not_elem_of_dom; set_solver).
  assert (cloned_ctx <> null) as Hnn by set_solver.
  assert (cloned_ctx <> ctx) as Hne by congruence.
  exists cloned_ctx. split; [ | split; [exact Hfresh | exact Hnn]].
  rewrite lookup_insert_ne, Hc by exact Hne.
  unfold set_parent, deref, bind. rewrite lookup_insert_eq. simpl.
  rewrite insert_insert_eq.
  rewrite (copy_variables_copies ctx cloned_ctx c (parent c) Hne fuel 0%nat
             (map new_variable (seq 0 (Z.to_nat (num_variables c))))).
  - rewrite insert_insert_eq, drop_0. simpl. now destruct c.
  - now rewrite lookup_insert_ne.
  - now rewrite lookup_insert_eq.
  - rewrite length_map, length_seq. unfold num_variables. lia.
  - lia.
  - lia.
Qed.

End ContextsFacts.

(** ** Allocation with a bounds check *)

Section AllocationFacts.
Import TypeEngine Allocation.
Context {M : ObjectModel} {F : Flags}.
Variable new_type_arguments : RawObject.

(** X20. [AllocateObjectWithBoundsCheck] with a caller frame on the stack
    throws exactly when an instantiator is given and instantiating the type
    arguments from it leaves a bound error: the TypeError has the caller's
    token position, three empty names and the message of the bound error.
    Otherwise it returns an instance that was not there before, not null,
    of the class asked for, with the type arguments given (no instantiator)
    or instantiated.  Either way no instance that was live has changed. *)
Theorem AllocateObjectWithBoundsCheck_outcome cls type_arguments instantiator w
    frame callers :
  frames w = frame :: callers ->
  let instantiated :=
    match instantiator with
    | Some i => fst (InstantiateFrom (om w) type_arguments i)
    | None => (type_arguments, None)
    end in
  exists instance w',
    instances w !! instance = None /\
    instance <> null /\
    (forall r, r <> instance -> instances w' !! r = instances w !! r) /\
    AllocateObjectWithBoundsCheck new_type_arguments cls type_arguments
      instantiator w
    = match snd instantiated with
      | Some message =>
          Throws (TypeError (GetTokenPos frame) (Some EmptyString)
                    (Some EmptyString) (Some EmptyString) (Some message)) w'
      | None => Returns instance w'
      end /\
    instances w' !! instance
    = Some (mkInstance cls
              match snd instantiated with
              | Some _ => new_type_arguments
              | None => fst instantiated
              end).
Proof.
  intros Hframes. simpl.
  unfold AllocateObjectWithBoundsCheck, Instance_New.
  set (instance := fresh ({[null]} ∪ dom (instances w))).
  pose proof (is_fresh ({[null]} ∪ dom (instances w))) as Hnew.
  fold instance in Hnew.
  assert (instances w !! instance = None) as Hfresh
    by (apply not_elem_of_dom; set_solver).
  assert (instance <> null) as Hnn by set_solver.
  exists instance.
  destruct instantiator as [i|]; simpl.
  - destruct (InstantiateFrom (om w) type_arguments i)
      as [[type_arguments' [message|]] o'] eqn:Ei; simpl.
    + unfold GetCallerLocation. simpl. rewrite Hframes.
      eexists. split; [exact Hfresh | ]. split; [exact Hnn | ].
      split; [ | split; [reflexivity | ]]; simpl.
      * intros r Hr. now rewrite lookup_insert_ne.
      * now rewrite lookup_insert_eq.
    + eexists. split; [exact Hfresh | ]. split; [exact Hnn | ].
      split; [ | split; [reflexivity | ]]; simpl.
      * intros r Hr. rewrite lookup_alter_ne by congruence.
        now rewrite lookup_insert_ne.
      * now rewrite lookup_alter_eq, lookup_insert_eq.
  - eexists. split; [exact Hfresh | ]. split; [exact Hnn | ].
    split; [ | split; [reflexivity | ]]; simpl.
    + intros r Hr. rewrite lookup_alter_ne by congruence.
      now rewrite lookup_insert_ne.
    + now rewrite lookup_alter_eq, lookup_insert_eq.
Qed.

End AllocationFacts.
(** * Part III: the theorems at concrete states *)

(** Case analysis on a lookup in a map written with inserts. *)
Ltac map_cases H :=
  repeat (apply lookup_insert_Some in H as [[? ?] | [? H]]; [subst | ]);
  try (rewrite lookup_empty in H; discriminate).

Section TypeEngineRuns.
Import TypeEngine Examples.Types.

Lemma world_bounded : @bounded model (flags 1) world.
Proof.
  intros cache checks H. unfold world in H. simpl in H. map_cases H;
    unfold NumberOfChecks; simpl; lia.
Qed.

Lemma world_no_duplicate_keys : @no_duplicate_keys model world.
Proof.
  intros cache checks H. unfold world in H. simpl in H. map_cases H; simpl.
  - constructor.
  - apply NoDup_singleton.
Qed.

Lemma model_well_founded_lazy : @well_founded_lazy model depth.
Proof. intros o ta _. simpl. discriminate. Qed.

(** C4 at a concrete state.  With a maximum of 1 the three calls fill the
    cache at 200 with one check and add no other; an update on the full
    cache leaves the caches alone. *)
Lemma subtype_cache_bounded_witness :
  @bounded model (flags 1) world /\
  @run_calls model (flags 1) calls world = Some world_canonical /\
  @bounded model (flags 1) world_canonical /\
  exists w',
    @UpdateTypeTestCache model (flags 1) 5 101 0 0 false 200 world_canonical
      = Returns tt w' /\
    caches w' = caches world_canonical.
Proof.
  assert (@run_calls model (flags 1) calls world = Some world_canonical)
    as Hrun by (vm_compute; reflexivity).
  split; [exact world_bounded | split; [exact Hrun | split]].
  - exact (proj1 (@subtype_cache_bounded model (flags 1)) calls world
             world_canonical world_bounded Hrun).
  - assert (@UpdateTypeTestCache model (flags 1) 5 101 0 0 false 200
              world_canonical = Returns tt world_canonical)
      as Hupdate by (vm_compute; reflexivity).
    exists world_canonical. split; [exact Hupdate | ].
    apply (proj2 (@subtype_cache_bounded model (flags 1)) 5%nat 101 0 0 false 200
             [mkCheck 7 32 0 true] world_canonical world_canonical);
      [vm_compute; reflexivity | vm_compute; discriminate | exact Hupdate].
Defined.

(** C5 at a concrete state.  With a maximum of 100 the second call finds
    the key of the first and appends nothing; the third appends the check of
    the int. *)
Lemma subtype_cache_no_duplicate_keys_witness :
  @no_duplicate_keys model world /\
  @run_calls model (flags 100) calls world = Some world_after_calls /\
  @no_duplicate_keys model world_after_calls /\
  @canonicalize_key model 5 100 0 0 world_canonical
    = Returns ((7, 32, 0), false) world_canonical /\
  @UpdateTypeTestCache model (flags 100) 5 100 0 0 true 200 world_canonical
    = Returns tt world_canonical.
Proof.
  assert (@run_calls model (flags 100) calls world = Some world_after_calls)
    as Hrun by (vm_compute; reflexivity).
  assert (@canonicalize_key model 5 100 0 0 world_canonical
          = Returns ((7, 32, 0), false) world_canonical)
    as Hkey by (vm_compute; reflexivity).
  split; [exact world_no_duplicate_keys | split; [exact Hrun | split]].
  - exact (proj1 (@subtype_cache_no_duplicate_keys model (flags 100)) calls
             world world_after_calls world_no_duplicate_keys Hrun).
  - split; [exact Hkey | ].
    refine (proj1 (proj2 (@subtype_cache_no_duplicate_keys model (flags 100))
                     5%nat 100 0 0 true 200 world_canonical (7, 32, 0) false
                     world_canonical [mkCheck 7 32 0 true] Hkey _ _)).
    + vm_compute. reflexivity.
    + left. reflexivity.
Defined.

(** C10 at a concrete state.  The int tested against the malbounded type:
    false with a bound error, so the entry throws.  The list tested against
    it: true, so the entry returns true in spite of the bound error, and the
    empty cache at 200 has got the check of the list with its canonical
    vector. *)
Lemma Instanceof_throws_iff_witness :
  (exists location msg,
     @Instanceof model (flags 100) 5 101 "Malbounded"%string 0 0 200 world
     = Throws (TypeError location (Some EmptyString) (Some EmptyString)
                 (Some EmptyString) (Some msg)) world) /\
  (@Instanceof model (flags 100) 5 100 "Malbounded"%string 0 0 200 world
   = Returns true world_canonical /\
   caches world_canonical !! 200 = Some [mkCheck 7 32 0 true]) /\
  (exists n w',
     forall fuel, (n <= fuel)%nat ->
       @Instanceof model (flags 100) fuel 100 "Malbounded"%string 0 0 200 world
       = Returns true w').
Proof.
  assert (instances world !! 101 = Some int_instance) as Hi
    by (vm_compute; reflexivity).
  assert (instances world !! 100 = Some list_instance) as Hl
    by (vm_compute; reflexivity).
  assert (frames world <> []) as Hf by discriminate.
  pose proof (@Instanceof_throws_iff model (flags 100) 5 100
                "Malbounded"%string 0 0 200 world list_instance Hl Hf)
    as (_ & _ & _ & _ & Hinserts & _ & _ & Hreturns).
  split; [ | split].
  - destruct (proj1 (@Instanceof_throws_iff model (flags 100) 5 101
                       "Malbounded"%string 0 0 200 world int_instance Hi Hf))
      as (location & msg & _ & H).
    + split; [reflexivity | discriminate].
    + exists location, msg. exact H.
  - split; [ | vm_compute; reflexivity].
    refine (Hinserts eq_refl 7 32 0 true world_full [] eq_refl _ _ _ _ _).
    + vm_compute. reflexivity.
    + vm_compute. reflexivity.
    + vm_compute. reflexivity.
    + intros [].
    + reflexivity.
  - refine (Hreturns eq_refl depth model_well_founded_lazy _ _).
    + left. reflexivity.
    + right. vm_compute. eauto.
Defined.

(** C10 as stated fails here.  The list tested against the malbounded type
    with the full cache at 201 and a maximum of 1: the test is true (with a
    bound error), the entry returns true, and the caches are as they were:
    the cache at 201 still has the check of the int only. *)
Lemma Instanceof_full_cache_inserts_nothing :
  instances world !! 100 = Some list_instance /\
  IsInstanceOf (ObjectModel := model) tt list_instance "Malbounded"%string 0
    = (true, Some "bound"%string) /\
  @Instanceof model (flags 1) 5 100 "Malbounded"%string 0 0 201 world
    = Returns true world_full /\
  caches world_full = caches world /\
  caches world_full !! 201 = Some [mkCheck 9 0 0 true].
Proof.
  repeat split; vm_compute; reflexivity.
Qed.

(** C9 at a concrete state.  The int assigned to a variable of type List:
    the TypeError has the two type names and the name of the variable.  The
    list assigned to it: the entry returns the list, and the empty cache at
    200 has got its check, with result true. *)
Lemma TypeCheck_outcome_witness :
  (exists location,
     @TypeCheck model (flags 100) 5 101 "List"%string 0 0 (Some "x"%string)
       200 world
     = Throws (TypeError location (Some "int"%string) (Some "List"%string)
                 (Some "x"%string) None) world) /\
  (@TypeCheck model (flags 100) 5 100 "List"%string 0 0 (Some "x"%string) 200
     world = Returns 100 world_canonical /\
   caches world_canonical !! 200 = Some [mkCheck 7 32 0 true]) /\
  (exists n w',
     forall fuel, (n <= fuel)%nat ->
       @TypeCheck model (flags 100) fuel 100 "List"%string 0 0
         (Some "x"%string) 200 world
       = Returns 100 w').
Proof.
  assert (instances world !! 101 = Some int_instance) as Hi
    by (vm_compute; reflexivity).
  assert (instances world !! 100 = Some list_instance) as Hl
    by (vm_compute; reflexivity).
  assert (frames world <> []) as Hf by discriminate.
  pose proof (@TypeCheck_outcome model (flags 100) 5 100 "List"%string 0 0
                (Some "x"%string) 200 world list_instance Hl Hf)
    as (_ & _ & _ & Hinserts & _ & _ & Hreturns).
  split; [ | split].
  - destruct (proj1 (@TypeCheck_outcome model (flags 100) 5 101 "List"%string
                       0 0 (Some "x"%string) 200 world int_instance Hi Hf)
                eq_refl) as [location H].
    exists location. exact H.
  - split; [ | vm_compute; reflexivity].
    refine (Hinserts eq_refl 7 32 0 true world_full [] eq_refl _ _ _ _ _).
    + vm_compute. reflexivity.
    + vm_compute. reflexivity.
    + vm_compute. reflexivity.
    + intros [].
    + reflexivity.
  - refine (Hreturns eq_refl depth model_well_founded_lazy _ _).
    + left. reflexivity.
    + right. vm_compute. eauto.
Defined.

(** C9 as stated fails here.  The list assigned to a variable of type List,
    with the full cache at 201 and a maximum of 1: the test is true, the entry returns the
    instance, and the cache still has the check of the int only; the list's
    type-argument vector, at 30 before the call, is the canonical one at 32
    after it. *)
Lemma TypeCheck_full_cache_inserts_nothing :
  instances world !! 100 = Some list_instance /\
  IsInstanceOf (ObjectModel := model) tt list_instance "List"%string 0
    = (true, None) /\
  @TypeCheck model (flags 1) 5 100 "List"%string 0 0 (Some "x"%string) 201
    world = Returns 100 world_full /\
  caches world_full !! 201 = Some [mkCheck 9 0 0 true] /\
  instances world_full !! 100 = Some (mkInstance (mkClass 7 1) 32).
Proof.
  repeat split; vm_compute; reflexivity.
Qed.

End TypeEngineRuns.

Section ICEngineRuns.
Import ICEngine Examples.IC.

(** C6 at a concrete state.  One argument tested and the class already
    recorded: the lookup records nothing, the dispatcher is invoked on the
    IC data as they were and the entry returns its result.  Two arguments
    tested: the check of the classes of the receiver and the argument is
    appended. *)
Lemma InstanceFunctionLookup_records_witness :
  (@InstanceFunctionLookup runtime receiver 50 tt [receiver] world
   = @InvokeDispatcher runtime 900 [receiver] tt
       (@recorded runtime tt 50 (mkICData "foo" 1 [mkICCheck [5] 900]) world) /\
   @InstanceFunctionLookup runtime receiver 50 tt [receiver] world
   = Returns (ResultObject 1) world /\
   receiver_checks 5 (mkICData "foo" 1 [mkICCheck [5] 900]) = 1%nat) /\
  (@InstanceFunctionLookup runtime receiver 51 tt
     [receiver; mkObject 71 9] world
   = @InvokeDispatcher runtime 900 [receiver; mkObject 71 9] tt
       (@recorded runtime tt 51
          (mkICData "[]" 2 [mkICCheck [5; 8] 900; mkICCheck [5; 9] 900])
          world) /\
   receiver_checks 5
     (mkICData "[]" 2 [mkICCheck [5; 8] 900; mkICCheck [5; 9] 900]) = 2%nat).
Proof.
  split.
  - destruct (proj1 (@InstanceFunctionLookup_records runtime receiver 50 tt
                       [receiver] world
                       (mkICData "foo" 1 [mkICCheck [5] 900])
                       ltac:(vm_compute; reflexivity) eq_refl) eq_refl)
      as [Hrun Hcount].
    split; [exact Hrun | ]. split; [vm_compute; reflexivity | ].
    refine (Hcount _). intros c [<- | []]. discriminate.
  - destruct (proj2 (@InstanceFunctionLookup_records runtime receiver 51 tt
                       [receiver; mkObject 71 9] world
                       (mkICData "[]" 2 [mkICCheck [5; 8] 900])
                       ltac:(vm_compute; reflexivity) eq_refl)
                ltac:(simpl; discriminate))
      as (Hrun & _ & Hcount).
    split; [exact (Hrun ltac:(simpl; lia)) | exact Hcount].
Defined.

(** C6 as stated fails here.  Two arguments tested, the receiver's class
    recorded with an index of class 8, a call with an index of class 9: the
    dispatcher is invoked on IC data with two checks for the receiver's
    class id, and (the dispatcher recording nothing) the IC data have the
    two checks when the entry returns. *)
Lemma InstanceFunctionLookup_two_args_duplicate :
  exists r w' ic',
    @InstanceFunctionLookup runtime receiver 51 tt [receiver; mkObject 71 9]
      world = Returns r w' /\
    ic_datas w' !! 51 = Some ic' /\
    checks ic' = [mkICCheck [5; 8] 900; mkICCheck [5; 9] 900] /\
    receiver_checks 5 ic' = 2%nat.
Proof.
  do 3 eexists. repeat split; vm_compute; reflexivity.
Qed.

End ICEngineRuns.

Section OptimizerRuns.
Import Heap Optimizer Examples.Opt.

(** C1 at a concrete state.  Twenty deoptimizations against a threshold of
    16: false, with the sentinel; none, and a name the filter matches: true,
    with the isolate as it was. *)
Lemma CanOptimizeFunction_usage_counter_witness :
  (exists iso',
     @CanOptimizeFunction flags 1 (isolate 10 20 false) = Returns false iso' /\
     functions (heap iso') !! 1
     = Some (set_usage_counter kLowInvocationCount (hot_function 10 20))) /\
  @CanOptimizeFunction flags 1 (isolate 10 0 false)
    = Returns true (isolate 10 0 false).
Proof.
  assert (functions (heap (isolate 10 20 false)) !! 1
          = Some (hot_function 10 20)) as Hf by (vm_compute; reflexivity).
  assert (functions (heap (isolate 10 0 false)) !! 1
          = Some (hot_function 10 0)) as Hf0 by (vm_compute; reflexivity).
  split.
  - pose proof (proj2 (@CanOptimizeFunction_usage_counter flags 1
                         (isolate 10 20 false) (hot_function 10 20) Hf)
                  eq_refl) as H.
    eexists. exact H.
  - exact (proj1 (@CanOptimizeFunction_usage_counter flags 1
                    (isolate 10 0 false) (hot_function 10 0) Hf0) eq_refl).
Defined.

(** C1 as stated fails here.  The debugger is stepping: false, and the
    usage counter is 0, not the sentinel. *)
Lemma CanOptimizeFunction_stepping_resets_to_zero :
  exists iso' f',
    @CanOptimizeFunction flags 1 (isolate 10 0 true) = Returns false iso' /\
    functions (heap iso') !! 1 = Some f' /\
    usage_counter f' = 0 /\
    usage_counter f' <> kLowInvocationCount.
Proof.
  do 2 eexists. repeat split; try (vm_compute; reflexivity).
  vm_compute. discriminate.
Qed.

(** C3 at a concrete state.  A hot loop of a function whose current code is
    its unoptimized code: after the entry the unoptimized code is current
    again and the frame resumes at the entry point of the new code; with a
    compiler that bails out nothing changes.  The same loop when the
    function's current code is the optimized code at 11 (the frame still
    runs the unoptimized code at 10): after the entry the code at 11 is
    current, not the unoptimized code at 10. *)
Lemma StackOverflow_osr_witness :
  (exists iso',
     @StackOverflow flags embedder 2000 (isolate 10 0 false)
       = Returns tt iso' /\
     functions (heap iso') !! 1 = Some (hot_function 10 0) /\
     frames iso' = [mkStackFrame 9000 10 33]) /\
  (exists iso',
     @StackOverflow flags bailing_embedder 2000 (isolate 10 0 false)
       = Returns tt iso' /\
     heap iso' = hot_heap 10 0 /\
     frames iso' = [mkStackFrame 4100 10 33]) /\
  (exists iso' f',
     @StackOverflow flags embedder 2000 (isolate 11 0 false)
       = Returns tt iso' /\
     functions (heap iso') !! 1 = Some f' /\
     CurrentCode f' = 11 /\
     unoptimized_code f' = 10 /\
     CurrentCode f' <> unoptimized_code f' /\
     frames iso' = [mkStackFrame 9000 10 33]).
Proof.
  split; [ | split].
  - destruct (proj1 (@StackOverflow_osr flags embedder 2000
                       (isolate 10 0 false)
                       (mkStackFrame 4100 10 33) [] unoptimized_code_10
                       (hot_function 10 0) unoptimized_code_10
                       (mkHeap
                          (alter (SetCode 12) 1
                             (functions (hot_heap 10 0)))
                          (<[12 := osr_code_12]> (codes (hot_heap 10 0))))
                       (hot_function 12 0)
                       eq_refl ltac:(vm_compute; discriminate) eq_refl eq_refl
                       ltac:(vm_compute; reflexivity)
                       ltac:(vm_compute; reflexivity)
                       ltac:(vm_compute; reflexivity)
                       ltac:(vm_compute; reflexivity)
                       eq_refl
                       ltac:(vm_compute; reflexivity))
                ltac:(vm_compute; discriminate) osr_code_12
                ltac:(vm_compute; reflexivity))
      as (iso' & H1 & H2 & _ & _ & _ & _ & H3).
    exists iso'. split; [exact H1 | split; [exact H2 | exact H3]].
  - exact (proj2 (@StackOverflow_osr flags bailing_embedder 2000
                    (isolate 10 0 false) (mkStackFrame 4100 10 33) []
                    unoptimized_code_10 (hot_function 10 0)
                    unoptimized_code_10 (hot_heap 10 0) (hot_function 10 0)
                    eq_refl ltac:(vm_compute; discriminate) eq_refl eq_refl
                    ltac:(vm_compute; reflexivity)
                    ltac:(vm_compute; reflexivity)
                    ltac:(vm_compute; reflexivity)
                    ltac:(vm_compute; reflexivity)
                    eq_refl
                    ltac:(vm_compute; reflexivity)) eq_refl).
  - destruct (proj1 (@StackOverflow_osr flags embedder 2000
                       (isolate 11 0 false)
                       (mkStackFrame 4100 10 33) [] unoptimized_code_10
                       (hot_function 11 0) unoptimized_code_10
                       (mkHeap
                          (alter (SetCode 12) 1
                             (functions (hot_heap 11 0)))
                          (<[12 := osr_code_12]> (codes (hot_heap 11 0))))
                       (hot_function 12 0)
                       eq_refl ltac:(vm_compute; discriminate) eq_refl eq_refl
                       ltac:(vm_compute; reflexivity)
                       ltac:(vm_compute; reflexivity)
                       ltac:(vm_compute; reflexivity)
                       ltac:(vm_compute; reflexivity)
                       eq_refl
                       ltac:(vm_compute; reflexivity))
                ltac:(vm_compute; discriminate) osr_code_12
                ltac:(vm_compute; reflexivity))
      as (iso' & H1 & _ & (f' & Hf' & Hcur & Hun & Hne) & _ & _ & _ & H3).
    exists iso', f'. split; [exact H1 | ]. split; [exact Hf' | ].
    split; [exact Hcur | ]. split; [exact Hun | ].
    split; [apply Hne; vm_compute; discriminate | exact H3].
Defined.

(** C3 at the failing input, run.  The loop of the function whose current
    code is the optimized code at 11: the entry returns with the code at 11
    current and the frame at the entry point of the new code. *)
Lemma StackOverflow_restores_original_code :
  exists iso' f',
    @StackOverflow flags embedder 2000 (isolate 11 0 false)
      = Returns tt iso' /\
    functions (heap iso') !! 1 = Some f' /\
    CurrentCode f' = 11 /\
    unoptimized_code f' = 10 /\
    frames iso' = [mkStackFrame 9000 10 33].
Proof.
  do 2 eexists. repeat split; vm_compute; reflexivity.
Qed.

End OptimizerRuns.

Section DeoptimizerRuns.
Import Heap Deoptimizer Examples.Deopt.

Lemma world_well_formed : well_formed (Deoptimizer.heap world).
Proof.
  split.
  - intros r f H. unfold world in H. simpl in H. map_cases H.
    split; right; vm_compute; eauto.
  - intros r c H. unfold world in H. simpl in H. map_cases H;
      vm_compute; eauto.
Qed.

(** C7 at a concrete state.  The optimized frame of the example: after
    [DeoptimizeAt] the code at 11 is dead, the call site at 5040 jumps to
    5100 and the function at 1 has the code at 10 as current; marked once or
    twice, the state is the same. *)
Lemma DeoptimizeAt_idempotent_witness :
  exists w1 code1 f1,
    DeoptimizeAt 11 5040 world = Returns tt w1 /\
    DeoptimizeAt 11 5040 w1 = Returns tt w1 /\
    call_sites w1 !! 5040 = Some 5100 /\
    codes (Deoptimizer.heap w1) !! 11 = Some code1 /\
    is_alive code1 = false /\
    functions (Deoptimizer.heap w1) !! 1 = Some f1 /\
    CurrentCode f1 = 10.
Proof.
  destruct (DeoptimizeAt_idempotent 11 5040 world Examples.Opt.optimized_code_11
              world_well_formed ltac:(vm_compute; reflexivity))
    as (f & w1 & code1 & f1 & Hf & H1 & Hc1 & Halive & _ & Hsite & Hf1 & Hcur
        & _ & _ & H2).
  vm_compute in Hf. injection Hf as <-. vm_compute in Hcur.
  exists w1, code1, f1. split; [exact H1 | ]. split; [exact H2 | ].
  split; [exact Hsite | ]. split; [exact Hc1 | ]. split; [exact Halive | ].
  split; [exact Hf1 | exact Hcur].
Defined.

(** C2 at the failing input.  [DeoptimizeIfOwner] on the one-frame stack of
    the example, with the owner's class in the set: out of fuel, as with any
    other fuel; [DeoptimizeAll] returns on it. *)
Lemma DeoptimizeIfOwner_spins_on_one_frame :
  DeoptimizeIfOwner 1000 [7] world = OutOfFuel /\
  returns (DeoptimizeAll 1000 world) = true.
Proof.
  split; vm_compute; reflexivity.
Qed.

End DeoptimizerRuns.

Section DeoptEntriesRuns.
Import DeoptEntries Examples.Entries.

(** C8 at a concrete state.  After a copy and a fill the context is there;
    it is gone after the materialize phase. *)
Lemma deopt_context_window_witness :
  deopt_context isolate = None /\
  (exists iso',
     @run target [CopyFrame 4096; FillFrame 8192] isolate = Some iso' /\
     is_Some (deopt_context iso')) /\
  (exists iso',
     @run target [CopyFrame 4096; FillFrame 8192; Materialize] isolate
       = Some iso' /\
     deopt_context iso' = None).
Proof.
  split; [reflexivity | split].
  - destruct (@run target [CopyFrame 4096; FillFrame 8192] isolate)
      as [iso'|] eqn:Hrun; [ | vm_compute in Hrun; discriminate].
    exists iso'. split; [reflexivity | ].
    apply (proj1 (@deopt_context_window target)
             [CopyFrame 4096; FillFrame 8192] isolate iso' eq_refl Hrun).
    reflexivity.
  - destruct (@run target [CopyFrame 4096; FillFrame 8192; Materialize] isolate)
      as [iso'|] eqn:Hrun; [ | vm_compute in Hrun; discriminate].
    exists iso'. split; [reflexivity | ].
    pose proof (proj1 (@deopt_context_window target)
                  [CopyFrame 4096; FillFrame 8192; Materialize] isolate iso'
                  eq_refl Hrun) as H.
    destruct (deopt_context iso'); [ | reflexivity].
    assert (in_window [CopyFrame 4096; FillFrame 8192; Materialize] = true)
      as Hw by (apply H; eauto).
    vm_compute in Hw. discriminate.
Defined.

End DeoptEntriesRuns.

Section MarkingRuns.
Import Heap Deoptimizer Marking Examples.Deopt.

Lemma stack_world_coherent : coherent (frames stack_world).
Proof.
  intros fr1 fr2 H1 H2 Hpc. simpl in H1, H2.
  repeat (apply elem_of_cons in H1 as [-> | H1]);
    repeat (apply elem_of_cons in H2 as [-> | H2]);
    try (now inversion H1); try (now inversion H2);
    try reflexivity; discriminate.
Qed.

Lemma stack_world_frames_live :
  frames_live (frames stack_world) (Deoptimizer.heap stack_world).
Proof.
  intros fr H. simpl in H.
  repeat (apply elem_of_cons in H as [-> | H]); try (now inversion H);
    vm_compute; eauto.
Qed.

(** X2 at a concrete state.  The optimized code at 11 called from the
    unoptimized code at 10: after [DeoptimizeAll] the frame of the code at
    11 is deoptimized, the code at 10 is as it was and the call site at the
    pc of its frame is not patched. *)
Lemma DeoptimizeAll_deoptimizes_optimized_frames_witness :
  exists w',
    DeoptimizeAll 3 stack_world = Returns tt w' /\
    frames w' = frames stack_world /\
    deoptimized (mkStackFrame 5040 11 33) w' /\
    codes (Deoptimizer.heap w') !! 10 = Some Examples.Opt.unoptimized_code_10 /\
    call_sites w' !! 4100 = None.
Proof.
  destruct (DeoptimizeAll_deoptimizes_optimized_frames 3 stack_world
              world_well_formed stack_world_coherent stack_world_frames_live
              ltac:(simpl; lia))
    as (w' & Hrun & Hfr & Hmade & Hcodes & Hsites).
  exists w'. split; [exact Hrun | ]. split; [exact Hfr | ].
  split; [ | split].
  - apply (Hmade _ Examples.Opt.optimized_code_11); [left | | ]; reflexivity.
  - destruct (Hcodes 10 Examples.Opt.unoptimized_code_10 eq_refl)
      as [H | (_ & H & _)]; [exact H | discriminate].
  - destruct (Hsites 4100) as [H | (fr & c & Hin & Hpc & Hc & Ho)];
      [exact H | ].
    simpl in Hin.
    repeat (apply elem_of_cons in Hin as [-> | Hin]); try (now inversion Hin);
      [discriminate | ].
    vm_compute in Hc. injection Hc as <-. discriminate.
Defined.

(** X3 at a concrete state.  [DeoptimizeAll] on the two frames, twice. *)
Lemma DeoptimizeAll_idempotent_witness :
  exists w',
    DeoptimizeAll 3 stack_world = Returns tt w' /\
    DeoptimizeAll 3 w' = Returns tt w'.
Proof.
  exact (DeoptimizeAll_idempotent 3 stack_world world_well_formed
           stack_world_coherent stack_world_frames_live ltac:(simpl; lia)).
Defined.

End MarkingRuns.

Section DeoptSequenceRuns.
Import DeoptEntries DeoptSequence Examples.Entries.

(** X4 at a concrete state.  One FPU register of 16 bytes and two CPU
    registers of 8, saved at 4096, in a memory whose every word holds its
    own address: the FPU register is read at 4096, the second CPU register
    at 4120. *)
Lemma CopySavedRegisters_layout_witness :
  fst (@CopySavedRegisters target (fun address => address) 4096) !! 0%nat
    = Some 4096 /\
  snd (@CopySavedRegisters target (fun address => address) 4096) !! 1%nat
    = Some 4120.
Proof.
  destruct (@CopySavedRegisters_layout target (fun address => address) 4096
              eq_refl) as (_ & _ & Hfpu & Hcpu).
  split.
  - exact (Hfpu 0%nat ltac:(simpl; lia)).
  - exact (Hcpu 1%nat ltac:(simpl; lia)).
Defined.

(** X5 at a concrete state.  A deoptimization of two frames on the isolate
    of the example, which has no context: none is left. *)
Lemma deopt_sequence_leaves_no_context_witness :
  exists iso',
    @run target (deopt_sequence 4096 [8192; 8256]) isolate = Some iso' /\
    deopt_context iso' = None /\
    contexts iso' = ∅.
Proof.
  apply (@deopt_sequence_leaves_no_context target 4096 [8192; 8256] isolate).
  - simpl. eauto.
  - repeat constructor; simpl; eauto.
Defined.

(** X6 at a concrete state.  The fill phase of a complete deoptimization
    comes after its copy phase. *)
Lemma fill_and_materialize_need_a_context_witness :
  deopt_context isolate = None /\
  is_Some (@run target [CopyFrame 4096; FillFrame 8192; Materialize] isolate) /\
  in_window [CopyFrame 4096] = true.
Proof.
  split; [reflexivity | ].
  destruct (@run target [CopyFrame 4096; FillFrame 8192; Materialize] isolate)
    as [iso'|] eqn:Hrun; [ | vm_compute in Hrun; discriminate].
  split; [eauto | ].
  apply (@fill_and_materialize_need_a_context target [CopyFrame 4096]
           (FillFrame 8192) [Materialize] isolate iso' eq_refl Hrun).
  discriminate.
Defined.

End DeoptSequenceRuns.

Section TypeEngineInvariantRuns.
Import TypeEngine TypeEngineContract Examples.Types.

Lemma model_canonicalizes : @canonicalizes model.
Proof. intros o type_arguments. split; reflexivity. Qed.

Lemma calls_run :
  @run_calls model (flags 100) calls world = Some world_after_calls.
Proof. vm_compute. reflexivity. Qed.

(** X7 at a concrete state.  Over the three calls of the example the cache
    at 201 keeps its check and no cache appears at 202. *)
Lemma subtype_caches_append_only_witness :
  @run_calls model (flags 100) calls world = Some world_after_calls /\
  (exists more,
     caches world_after_calls !! 201 = Some ([mkCheck 9 0 0 true] ++ more)) /\
  caches world_after_calls !! 202 = None.
Proof.
  split; [exact calls_run | split].
  - exact (@subtype_caches_append_only model (flags 100) calls world
             world_after_calls calls_run 201).
  - exact (@subtype_caches_append_only model (flags 100) calls world
             world_after_calls calls_run 202).
Defined.

(** X8 at a concrete state.  After the three calls the list at 100 is of
    class 7 as before, with another vector. *)
Lemma type_entries_keep_classes_witness :
  frames world_after_calls = frames world /\
  clazz <$> instances world_after_calls !! 100 = Some (mkClass 7 1) /\
  GetTypeArguments <$> instances world !! 100 = Some 30 /\
  GetTypeArguments <$> instances world_after_calls !! 100 = Some 32.
Proof.
  destruct (@type_entries_keep_classes model (flags 100) calls world
              world_after_calls calls_run) as [Hf Hi].
  split; [exact Hf | split; [exact (Hi 100) | split; reflexivity]].
Defined.

(** X9 at a concrete state.  The list with its lazy vector: the first call
    returns true, a second one false. *)
Lemma OptimizeTypeArguments_settles_witness :
  exists w1,
    @OptimizeTypeArguments model 5 100 world = Returns true w1 /\
    @OptimizeTypeArguments model 0 100 w1 = Returns false w1.
Proof.
  eexists. split; [vm_compute; reflexivity | ].
  refine (proj2 (@OptimizeTypeArguments_settles model 5 100 world true _
                   model_canonicalizes _) 0%nat).
  vm_compute. reflexivity.
Defined.

(** X10 at a concrete state.  The update for the list appends the check of
    class 7 with result true to the empty cache at 200. *)
Lemma UpdateTypeTestCache_stores_flat_key_witness :
  exists checks c,
    caches world !! 200 = Some checks /\
    caches world_canonical = <[200 := checks ++ [c]]> (caches world) /\
    instance_class_id c = 7 /\
    test_result c = true /\
    IsInstantiatedTypeArguments (ObjectModel := model) (om world_canonical)
      (instantiator_type_arguments c) = false.
Proof.
  destruct (@UpdateTypeTestCache_stores_flat_key model (flags 100) 5 100 0 0
              true 200 world list_instance world_canonical
              ltac:(vm_compute; reflexivity) ltac:(vm_compute; reflexivity))
    as [H | H]; [ | exact H].
  apply (f_equal (fun m => m !! 200)) in H. vm_compute in H. discriminate.
Defined.

End TypeEngineInvariantRuns.

Section MarkingFunctionsRuns.
Import Heap Deoptimizer Marking Examples.Deopt.

(** X21 at a concrete state.  After [DeoptimizeAll] on the two frames the
    function at 1, which had the optimized code at 11, has its unoptimized
    code at 10 as current code and its counters as before. *)
Lemma DeoptimizeAll_only_switches_to_unoptimized_witness :
  exists w',
    DeoptimizeAll 3 stack_world = Returns tt w' /\
    well_formed (Deoptimizer.heap w') /\
    (functions (Deoptimizer.heap w') !! 1 = Some (Examples.Opt.hot_function 11 0) \/
     functions (Deoptimizer.heap w') !! 1 = Some (Examples.Opt.hot_function 10 0)).
Proof.
  destruct (DeoptimizeAll_only_switches_to_unoptimized 3 stack_world
              world_well_formed stack_world_frames_live ltac:(simpl; lia))
    as (w' & Hrun & Hwf & Hfun).
  exists w'. split; [exact Hrun | ]. split; [exact Hwf | ].
  exact (Hfun 1).
Defined.

End MarkingFunctionsRuns.

Section OptimizerEntriesRuns.
Import Heap Optimizer OptimizerEntries Examples.Opt.

(** X12 at a concrete state.  The hot function passes the checks: the
    compiler runs, the code it made is returned and the counter is 0.  With
    twenty deoptimizations the function keeps its code and gets the
    sentinel. *)
Lemma OptimizeInvokedFunction_resets_counter_witness :
  (exists iso' f',
     @OptimizeInvokedFunction flags embedder (-1) 1 (isolate 10 0 false)
       = Returns 12 iso' /\
     functions (heap iso') !! 1 = Some f' /\
     CurrentCode f' = 12 /\
     usage_counter f' = 0) /\
  (exists iso' f',
     @OptimizeInvokedFunction flags embedder (-1) 1 (isolate 10 20 false)
       = Returns 10 iso' /\
     functions (heap iso') !! 1 = Some f' /\
     usage_counter f' = kLowInvocationCount /\
     codes (heap iso') = codes (hot_heap 10 20)).
Proof.
  split.
  - assert (exists iso',
              @OptimizeInvokedFunction flags embedder (-1) 1
                (isolate 10 0 false) = Returns 12 iso') as [iso' Hrun]
      by (eexists; vm_compute; reflexivity).
    destruct (@OptimizeInvokedFunction_resets_counter flags embedder (-1) 1
                (isolate 10 0 false) 12 iso' Hrun)
      as (f' & Hf' & Hcode & Hcounter & _).
    exists iso', f'. split; [exact Hrun | ]. split; [exact Hf' | ].
    split; [exact Hcode | ].
    destruct Hcounter as [H | H]; [exact H | ].
    pose proof Hrun as Hiso. vm_compute in Hiso. injection Hiso as <-.
    vm_compute in Hf'. injection Hf' as <-. vm_compute in H. discriminate.
  - assert (exists iso',
              @OptimizeInvokedFunction flags embedder (-1) 1
                (isolate 10 20 false) = Returns 10 iso') as [iso' Hrun]
      by (eexists; vm_compute; reflexivity).
    destruct (@OptimizeInvokedFunction_resets_counter flags embedder (-1) 1
                (isolate 10 20 false) 10 iso' Hrun)
      as (f' & Hf' & _ & Hcounter & Hsentinel).
    exists iso', f'. split; [exact Hrun | ]. split; [exact Hf' | ].
    assert (usage_counter f' = kLowInvocationCount) as Hk.
    { destruct Hcounter as [H | H]; [ | exact H].
      pose proof Hrun as Hiso. vm_compute in Hiso. injection Hiso as <-.
      vm_compute in Hf'. injection Hf' as <-. vm_compute in H. discriminate. }
    split; [exact Hk | ].
    destruct (Hsentinel Hk) as (f & _ & _ & Hheap). now rewrite Hheap.
Defined.

(** X14 at a concrete state.  With the message interrupt pending, the entry
    does the same with the compiler of the example and with the one that
    bails out. *)
Lemma StackOverflow_no_osr_when_interrupted_witness :
  @StackOverflow flags embedder 2000 (set_interrupts 2 (isolate 10 0 false))
  = @StackOverflow flags bailing_embedder 2000
      (set_interrupts 2 (isolate 10 0 false)).
Proof.
  apply (@StackOverflow_no_osr_when_interrupted flags embedder
           bailing_embedder).
  - repeat split.
  - left. simpl. discriminate.
Defined.

End OptimizerEntriesRuns.

Section ICRecordsRuns.
Import ICEngine ICMiss Examples.IC.

(** X15 at a concrete state.  The lookup of the example, with the class
    recorded already: the dispatcher is invoked on IC data that have got no
    check. *)
Lemma InstanceFunctionLookup_appends_at_most_one_witness :
  exists target_function d more,
    @InstanceFunctionLookup runtime receiver 50 tt [receiver] world
    = @InvokeDispatcher runtime target_function [receiver] tt
        (@recorded runtime d 50 (mkICData "foo" 1 ([mkICCheck [5] 900] ++ more))
           world) /\
    (length more <= 1)%nat /\
    Forall (fun c => GetReceiverClassId c = 5 /\ target c = target_function)
      more.
Proof.
  apply (@InstanceFunctionLookup_appends_at_most_one runtime receiver 50 tt
           [receiver] world (mkICData "foo" 1 [mkICCheck [5] 900])).
  - vm_compute. reflexivity.
  - simpl. lia.
Defined.

(** X16 at a concrete state.  A getter resolves and the invoke-field
    dispatcher is recorded for class 5 already: the lookup records it
    again; the code the dispatcher runs then records a check of its own at
    60, and the entry returns its result. *)
Lemma InstanceFunctionLookup_getter_always_appends_witness :
  exists w',
    @InstanceFunctionLookup getter_runtime receiver 50 tt [receiver]
      getter_world = Returns (ResultObject 1) w' /\
    ic_datas w' !! 50
    = Some (mkICData "foo" 1 [mkICCheck [5] 901; mkICCheck [5] 901]) /\
    ic_datas w' !! 60 = Some (mkICData "call" 1 [mkICCheck [3] 800]) /\
    receiver_checks 5
      (mkICData "foo" 1 [mkICCheck [5] 901; mkICCheck [5] 901]) = 2%nat.
Proof.
  destruct (@InstanceFunctionLookup_getter_always_appends getter_runtime
              receiver 50 tt [receiver] getter_world
              (mkICData "foo" 1 [mkICCheck [5] 901])
              ltac:(vm_compute; reflexivity) ltac:(vm_compute; reflexivity))
    as (Hrun & _ & Hcount & Hends).
  rewrite Hends in Hrun.
  eexists. split; [exact Hrun | ].
  split; [vm_compute; reflexivity | ].
  split; [vm_compute; reflexivity | exact Hcount].
Defined.

(** X18 at a concrete state.  The IC data at 51 as that of a static call
    with the target at 900: a miss with arguments of classes 5 and 9
    returns 900 and appends its check. *)
Lemma StaticCallMissHandlerTwoArgs_keeps_target_witness :
  exists w' ic',
    @StaticCallMissHandlerTwoArgs runtime linker receiver (mkObject 71 9) 51
      world = Returns 900 w' /\
    ic_datas w' !! 51 = Some ic' /\
    checks ic' = [mkICCheck [5; 8] 900; mkICCheck [5; 9] 900] /\
    static_call_checks 900 ic'.
Proof.
  pose proof (@StaticCallMissHandlerTwoArgs_keeps_target runtime linker
                receiver (mkObject 71 9) 51 world
                (mkICData "[]" 2 [mkICCheck [5; 8] 900]) 900
                ltac:(vm_compute; reflexivity)
                ltac:(split; [discriminate | repeat constructor])) as H.
  destruct (@StaticCallMissHandlerTwoArgs runtime linker receiver
              (mkObject 71 9) 51 world) as [target w'|e w'| | |] eqn:Hrun;
    try (vm_compute in Hrun; discriminate); try contradiction.
  destruct H as (-> & ic' & Hic' & Hchecks & Hstatic).
  exists w', ic'. split; [reflexivity | ]. split; [exact Hic' | ].
  split; [exact Hchecks | exact Hstatic].
Defined.

End ICRecordsRuns.

Section ContextsRuns.
Import Contexts Examples.Ctx.

(** X19 at a concrete state.  The clone of the context at 7 has its parent
    and its two variables. *)
Lemma CloneContext_copies_witness :
  exists cloned_ctx,
    CloneContext 0 (fun _ => 0) 3 7 store
    = Returns cloned_ctx (<[cloned_ctx := mkContext 3 [11; 12]]> store) /\
    store !! cloned_ctx = None /\
    cloned_ctx <> null.
Proof.
  apply (CloneContext_copies 0 (fun _ => 0) 3%nat 7 store
           (mkContext 3 [11; 12])).
  - vm_compute. reflexivity.
  - simpl. lia.
Defined.

End ContextsRuns.

Section AllocationRuns.
Import TypeEngine Allocation Examples.Types.

(** X20 at a concrete state.  An object of class 7 with the type arguments
    at 28 and the instantiator at 29: the model instantiates them to the
    vector at 31 without a bound error, and the entry returns a new
    instance with that vector. *)
Lemma AllocateObjectWithBoundsCheck_outcome_witness :
  exists instance w',
    instances world !! instance = None /\
    @AllocateObjectWithBoundsCheck model 0 (mkClass 7 1) 28 (Some 29) world
      = Returns instance w' /\
    instances w' !! instance = Some (mkInstance (mkClass 7 1) 31) /\
    instances w' !! 100 = Some list_instance.
Proof.
  destruct (@AllocateObjectWithBoundsCheck_outcome model 0 (mkClass 7 1) 28
              (Some 29) world (mkStackFrame 4096 300 17) [] eq_refl)
    as (instance & w' & Hfresh & _ & Hkeep & Hrun & Hnew).
  exists instance, w'. split; [exact Hfresh | ]. split; [exact Hrun | ].
  split; [exact Hnew | ].
  rewrite Hkeep; [reflexivity | ].
  intros <-. vm_compute in Hfresh. discriminate.
Defined.

End AllocationRuns.

Section ICMissRuns.
Import ICEngine ICMiss Examples.IC.

(** X17 at a concrete state.  A miss of the two-argument entry on the IC
    data at 51, with arguments of classes 5 and 9: the function at 700 is
    returned and recorded for the two class ids. *)
Lemma InlineCacheMissHandler_records_what_it_returns_witness :
  exists w',
    @InlineCacheMissHandlerTwoArgs runtime linker receiver (mkObject 71 9) 51
      world = Returns 700 w' /\
    ic_datas w'
    = <[51 := mkICData "[]" 2 [mkICCheck [5; 8] 900; mkICCheck [5; 9] 700]]>
        (ic_datas world).
Proof.
  pose proof (@InlineCacheMissHandler_records_what_it_returns runtime linker
                [receiver; mkObject 71 9] 51 world) as H.
  unfold InlineCacheMissHandlerTwoArgs.
  destruct (@InlineCacheMissHandler runtime linker [receiver; mkObject 71 9]
              51 world) as [target w'|e w'| | |] eqn:Hrun;
    try (vm_compute in Hrun; discriminate).
  assert (target = 700) as ->
    by (vm_compute in Hrun; now injection Hrun as <- _).
  exists w'. split; [reflexivity | ].
  destruct H as [[H _] | (ic & Hic & H)]; [discriminate | ].
  vm_compute in Hic. injection Hic as <-. exact H.
Defined.

End ICMissRuns.

Section DeoptLeakRuns.
Import DeoptEntries DeoptSequence Examples.Entries.

(** X22 at a concrete state.  A copy phase on the isolate that has the
    context at 1 installed, followed by the materialize phase: the context
    at 1 is still there. *)
Lemma DeoptimizeCopyFrame_leaks_installed_context_witness :
  exists r iso1 p1,
    @DeoptimizeCopyFrame target 4096 deopting_isolate = Returns r iso1 /\
    deopt_context iso1 = Some p1 /\
    p1 <> 1%positive /\
    contexts iso1 !! 1%positive
    = Some (mkDeoptContext (mkStackFrame 5040 11 33) 11 [] [] None) /\
    exists r2 iso2,
      @DeoptimizeMaterialize target iso1 = Returns r2 iso2 /\
      deopt_context iso2 = None /\
      contexts iso2 = contexts deopting_isolate.
Proof.
  apply (@DeoptimizeCopyFrame_leaks_installed_context target 4096
           deopting_isolate 1%positive).
  - reflexivity.
  - vm_compute. reflexivity.
  - simpl. eauto.
Defined.

End DeoptLeakRuns.
